(** * The persistent priority task queue of [scripts/queue-manager.py]

    A shallow embedding of the queue manager: the [Priority] enumeration, the
    [Task] and [Batch] data classes, Python's [heapq] list algorithms, the
    SQLite store ([QueueDatabase]), the in-memory [PriorityQueue], the
    [BatchProcessor] and the [QueueManager] facade, followed by the
    properties established about them.

    Conventions of the embedding.
    - An instant is an integer count of microseconds since the epoch.  A
      [datetime] and the ISO-8601 text [datetime.isoformat()] produces for it
      are both represented by that integer; texts of that one format compare
      (as SQL [TEXT]) like the instants they denote.
    - [sort_timestamp] is a Python float holding the negated POSIX timestamp;
      it is represented by the negated instant, which orders instants as the
      floats do while those are exact to the microsecond
      ([Task.exact_instant]).
    - Every [datetime.now()] and [time.time()] evaluated during one call
      reads the instant [now] passed to the call.
    - The [tasks] table is the list of its rows in rowid order;
      [INSERT OR REPLACE] deletes the row with the same key and appends the new
      one; [ORDER BY] is a stable sort of the rows selected in rowid order. *)

From Stdlib Require Import ZArith Lia Ascii String List.
From stdpp Require Import base option list strings gmap pretty sorting.

Local Open Scope string_scope.
Local Open Scope list_scope.
Local Open Scope Z_scope.

(** ** Python values, exceptions *)

(** The JSON-like values that travel through [to_dict] / [from_dict].
    [PTime z] is the [str] holding the ISO-8601 text of instant [z]; any
    other [str] is a [PStr]. *)
#[warnings="-register-all"]
Inductive pyval : Type :=
  | PNone
  | PInt (n : Z)
  | PStr (s : string)
  | PTime (z : Z)
  | PList (l : list pyval)
  | PDict (d : list (string * pyval)).

Inductive exn : Type :=
  | ValueError (msg : string)
  | KeyError (key : string)
  | AttributeError (msg : string)
  | TypeError (msg : string).

Inductive result (A : Type) : Type :=
  | Ok (a : A)
  | Raise (e : exn).
Arguments Ok {A} a.
Arguments Raise {A} e.

Definition result_bind {A B} (r : result A) (k : A → result B) : result B :=
  match r with
  | Ok a => k a
  | Raise e => Raise e
  end.

(** ** Text helpers: [str.upper] and [str.strip] on ASCII text

    Python's [str.upper] and [str.strip] know all of Unicode; these two
    agree with them on ASCII text, which is what the priority spellings of
    the source are written in. *)

Module Str.

(** [str.upper()], on the ASCII letters. *)
Definition upper_ascii (c : ascii) : ascii :=
  let n := nat_of_ascii c in
  if ((97 <=? n)%nat && (n <=? 122)%nat)%bool then ascii_of_nat (n - 32) else c.

Fixpoint upper (s : string) : string :=
  match s with
  | EmptyString => EmptyString
  | String c s' => String (upper_ascii c) (upper s')
  end.

(** The ASCII characters for which [str.isspace()] holds. *)
Definition is_space (c : ascii) : bool :=
  let n := nat_of_ascii c in
  (((9 <=? n)%nat && (n <=? 13)%nat) || ((28 <=? n)%nat && (n <=? 32)%nat))%bool.

Fixpoint lstrip (s : string) : string :=
  match s with
  | EmptyString => EmptyString
  | String c s' => if is_space c then lstrip s' else s
  end.

(** Drops the trailing white space: a character is kept when it is not a
    space or something is kept after it. *)
Fixpoint rstrip (s : string) : string :=
  match s with
  | EmptyString => EmptyString
  | String c s' =>
      match rstrip s' with
      | EmptyString => if is_space c then EmptyString else String c EmptyString
      | r => String c r
      end
  end.

Definition strip (s : string) : string := rstrip (lstrip s).

End Str.

(** ** [class Priority(IntEnum)] *)

Module Priority.

Inductive t : Type := P0_CRITICAL | P1_HIGH | P2_MEDIUM | P3_LOW.

Global Instance eq_dec : EqDecision t.
Proof. solve_decision. Defined.

(** [int(p)] *)
Definition to_int (p : t) : Z :=
  match p with
  | P0_CRITICAL => 0
  | P1_HIGH => 1
  | P2_MEDIUM => 2
  | P3_LOW => 3
  end.

(** [Priority(n)]: the member of value [n], else [ValueError]. *)
Definition of_int (n : Z) : result t :=
  if n =? 0 then Ok P0_CRITICAL
  else if n =? 1 then Ok P1_HIGH
  else if n =? 2 then Ok P2_MEDIUM
  else if n =? 3 then Ok P3_LOW
  else Raise (ValueError "not a valid Priority").

(** [p.name] *)
Definition name (p : t) : string :=
  match p with
  | P0_CRITICAL => "P0_CRITICAL"
  | P1_HIGH => "P1_HIGH"
  | P2_MEDIUM => "P2_MEDIUM"
  | P3_LOW => "P3_LOW"
  end.

(** [bool(p)]: an [IntEnum] member is an [int], so the member of value 0
    is falsy. *)
Definition truthy (p : t) : bool := negb (to_int p =? 0).

(** [for priority in Priority]: definition order. *)
Definition members : list t := [P0_CRITICAL; P1_HIGH; P2_MEDIUM; P3_LOW].

(** The [mapping] dictionary of [from_string], in source order. *)
Definition mapping : list (string * t) :=
  [ ("P0", P0_CRITICAL); ("CRITICAL", P0_CRITICAL); ("P0-CRITICAL", P0_CRITICAL);
    ("P1", P1_HIGH); ("HIGH", P1_HIGH); ("P1-HIGH", P1_HIGH);
    ("P2", P2_MEDIUM); ("MEDIUM", P2_MEDIUM); ("P2-MEDIUM", P2_MEDIUM);
    ("P3", P3_LOW); ("LOW", P3_LOW); ("P3-LOW", P3_LOW) ].

Fixpoint mapping_get (k : string) (m : list (string * t)) : option t :=
  match m with
  | [] => None
  | (k', v) :: m' => if String.eqb k k' then Some v else mapping_get k m'
  end.

Definition from_string (s : string) : result t :=
  let s := Str.strip (Str.upper s) in
  match mapping_get s mapping with
  | Some p => Ok p
  | None => Raise (ValueError ("Unknown priority: " +:+ s))
  end.

End Priority.

(** [class TaskStatus] *)
Module TaskStatus.
Definition PENDING : string := "pending".
Definition RUNNING : string := "running".
Definition COMPLETED : string := "completed".
Definition FAILED : string := "failed".
Definition BLOCKED : string := "blocked".
End TaskStatus.

(** [class TaskCategory] *)
Module TaskCategory.
Definition SECURITY : string := "security".
Definition BACKEND : string := "backend".
Definition FRONTEND : string := "frontend".
Definition TESTING : string := "testing".
Definition DOCUMENTATION : string := "documentation".
Definition DEVOPS : string := "devops".
Definition REFACTORING : string := "refactoring".
Definition BUGFIX : string := "bugfix".
Definition FEATURE : string := "feature".
Definition OTHER : string := "other".
End TaskCategory.

(** Module constants. *)
Definition MICROSECONDS_PER_HOUR : Z := 3600 * 1000000.
Definition AGE_BOOST_P3_to_P2 : Z := 4.
Definition AGE_BOOST_P2_to_P1 : Z := 8.
Definition AGE_BOOST_P1_to_P0 : Z := 24.
Definition BATCH_SIZE_LIMIT : nat := 10.

(** ** [@dataclass(order=True) class Task] *)

Module Task.

Record t : Type := mk {
  sort_priority : Z;
  sort_timestamp : Z;
  task_id : string;
  priority : Priority.t;
  description : string;
  category : string;
  status : string;
  assigned_agent : option string;
  verifier_agent : option string;
  created_at : Z;
  updated_at : Z;
  started_at : option Z;
  completed_at : option Z;
  original_priority : option Z;
  boost_count : Z;
  batch_id : option string;
  metadata : pyval;
  retry_count : Z;
  max_retries : Z;
  dependencies : pyval;
  tags : pyval
}.

(** Attribute assignments [task.field = v]. *)
Definition set_sort_priority (v : Z) (x : t) : t :=
  let 'mk _ a1 a2 a3 a4 a5 a6 a7 a8 a9 a10 a11 a12 a13 a14 a15 a16 a17 a18 a19 a20 := x in
  mk v a1 a2 a3 a4 a5 a6 a7 a8 a9 a10 a11 a12 a13 a14 a15 a16 a17 a18 a19 a20.
Definition set_sort_timestamp (v : Z) (x : t) : t :=
  let 'mk a0 _ a2 a3 a4 a5 a6 a7 a8 a9 a10 a11 a12 a13 a14 a15 a16 a17 a18 a19 a20 := x in
  mk a0 v a2 a3 a4 a5 a6 a7 a8 a9 a10 a11 a12 a13 a14 a15 a16 a17 a18 a19 a20.
Definition set_priority (v : Priority.t) (x : t) : t :=
  let 'mk a0 a1 a2 _ a4 a5 a6 a7 a8 a9 a10 a11 a12 a13 a14 a15 a16 a17 a18 a19 a20 := x in
  mk a0 a1 a2 v a4 a5 a6 a7 a8 a9 a10 a11 a12 a13 a14 a15 a16 a17 a18 a19 a20.
Definition set_status (v : string) (x : t) : t :=
  let 'mk a0 a1 a2 a3 a4 a5 _ a7 a8 a9 a10 a11 a12 a13 a14 a15 a16 a17 a18 a19 a20 := x in
  mk a0 a1 a2 a3 a4 a5 v a7 a8 a9 a10 a11 a12 a13 a14 a15 a16 a17 a18 a19 a20.
Definition set_assigned_agent (v : option string) (x : t) : t :=
  let 'mk a0 a1 a2 a3 a4 a5 a6 _ a8 a9 a10 a11 a12 a13 a14 a15 a16 a17 a18 a19 a20 := x in
  mk a0 a1 a2 a3 a4 a5 a6 v a8 a9 a10 a11 a12 a13 a14 a15 a16 a17 a18 a19 a20.
Definition set_updated_at (v : Z) (x : t) : t :=
  let 'mk a0 a1 a2 a3 a4 a5 a6 a7 a8 a9 _ a11 a12 a13 a14 a15 a16 a17 a18 a19 a20 := x in
  mk a0 a1 a2 a3 a4 a5 a6 a7 a8 a9 v a11 a12 a13 a14 a15 a16 a17 a18 a19 a20.
Definition set_started_at (v : option Z) (x : t) : t :=
  let 'mk a0 a1 a2 a3 a4 a5 a6 a7 a8 a9 a10 _ a12 a13 a14 a15 a16 a17 a18 a19 a20 := x in
  mk a0 a1 a2 a3 a4 a5 a6 a7 a8 a9 a10 v a12 a13 a14 a15 a16 a17 a18 a19 a20.
Definition set_completed_at (v : option Z) (x : t) : t :=
  let 'mk a0 a1 a2 a3 a4 a5 a6 a7 a8 a9 a10 a11 _ a13 a14 a15 a16 a17 a18 a19 a20 := x in
  mk a0 a1 a2 a3 a4 a5 a6 a7 a8 a9 a10 a11 v a13 a14 a15 a16 a17 a18 a19 a20.
Definition set_original_priority (v : option Z) (x : t) : t :=
  let 'mk a0 a1 a2 a3 a4 a5 a6 a7 a8 a9 a10 a11 a12 _ a14 a15 a16 a17 a18 a19 a20 := x in
  mk a0 a1 a2 a3 a4 a5 a6 a7 a8 a9 a10 a11 a12 v a14 a15 a16 a17 a18 a19 a20.
Definition set_boost_count (v : Z) (x : t) : t :=
  let 'mk a0 a1 a2 a3 a4 a5 a6 a7 a8 a9 a10 a11 a12 a13 _ a15 a16 a17 a18 a19 a20 := x in
  mk a0 a1 a2 a3 a4 a5 a6 a7 a8 a9 a10 a11 a12 a13 v a15 a16 a17 a18 a19 a20.
Definition set_batch_id (v : option string) (x : t) : t :=
  let 'mk a0 a1 a2 a3 a4 a5 a6 a7 a8 a9 a10 a11 a12 a13 a14 _ a16 a17 a18 a19 a20 := x in
  mk a0 a1 a2 a3 a4 a5 a6 a7 a8 a9 a10 a11 a12 a13 a14 v a16 a17 a18 a19 a20.
Definition set_retry_count (v : Z) (x : t) : t :=
  let 'mk a0 a1 a2 a3 a4 a5 a6 a7 a8 a9 a10 a11 a12 a13 a14 a15 a16 _ a18 a19 a20 := x in
  mk a0 a1 a2 a3 a4 a5 a6 a7 a8 a9 a10 a11 a12 a13 a14 a15 a16 v a18 a19 a20.

(** The generated [__lt__]: tuples of the [compare=True] fields,
    [(sort_priority, sort_timestamp)], compared lexicographically. *)
Definition lt (a b : t) : bool :=
  (sort_priority a <? sort_priority b)
  || ((sort_priority a =? sort_priority b) && (sort_timestamp a <? sort_timestamp b)).

(** [-datetime.fromisoformat(created_at).timestamp()].  Python holds the
    result as a float of seconds; the model holds the instant itself, in
    microseconds.  The two order instants alike as long as the floats of
    instants one microsecond apart differ, which is so below [2^33]
    seconds: [exact_instant]. *)
Definition neg_timestamp (created : Z) : Z := - created.

(** The instants, in microseconds since the epoch, whose [timestamp()]
    floats tell apart instants one microsecond apart: the doubles in
    [[2^32, 2^33)] are [2^-20] seconds apart, less than a microsecond, and
    from [2^33] seconds on (the year 2242) they are not. *)
Definition exact_instant (z : Z) : Prop := 0 <= z < 2 ^ 33 * 1000000.

Definition __post_init__ (self : t) : t :=
  let self :=
    if (sort_priority self =? 0) && Priority.truthy (priority self)
    then set_sort_priority (Priority.to_int (priority self)) self else self in
  let self :=
    if sort_timestamp self =? 0
    then set_sort_timestamp (neg_timestamp (created_at self)) self else self in
  match original_priority self with
  | None => set_original_priority (Some (Priority.to_int (priority self))) self
  | Some _ => self
  end.

(** [Task.create(task_id, description, priority, category)], with the
    remaining fields at their defaults. *)
Definition create (now : Z) (task_id description : string) (priority : Priority.t)
    (category : string) : t :=
  __post_init__
    {| sort_priority := Priority.to_int priority;
       sort_timestamp := neg_timestamp now;
       task_id := task_id;
       priority := priority;
       description := description;
       category := category;
       status := TaskStatus.PENDING;
       assigned_agent := None;
       verifier_agent := None;
       created_at := now;
       updated_at := now;
       started_at := None;
       completed_at := None;
       original_priority := Some (Priority.to_int priority);
       boost_count := 0;
       batch_id := None;
       metadata := PDict [];
       retry_count := 0;
       max_retries := 3;
       dependencies := PList [];
       tags := PList [] |}.

Definition of_opt_str (o : option string) : pyval :=
  match o with Some s => PStr s | None => PNone end.
Definition of_opt_time (o : option Z) : pyval :=
  match o with Some z => PTime z | None => PNone end.
Definition of_opt_int (o : option Z) : pyval :=
  match o with Some z => PInt z | None => PNone end.

Definition to_dict (self : t) : gmap string pyval :=
  list_to_map
    [ ("task_id", PStr (task_id self));
      ("priority", PStr (Priority.name (priority self)));
      ("priority_value", PInt (Priority.to_int (priority self)));
      ("description", PStr (description self));
      ("category", PStr (category self));
      ("status", PStr (status self));
      ("assigned_agent", of_opt_str (assigned_agent self));
      ("verifier_agent", of_opt_str (verifier_agent self));
      ("created_at", PTime (created_at self));
      ("updated_at", PTime (updated_at self));
      ("started_at", of_opt_time (started_at self));
      ("completed_at", of_opt_time (completed_at self));
      ("original_priority", of_opt_int (original_priority self));
      ("boost_count", PInt (boost_count self));
      ("batch_id", of_opt_str (batch_id self));
      ("metadata", metadata self);
      ("retry_count", PInt (retry_count self));
      ("max_retries", PInt (max_retries self));
      ("dependencies", dependencies self);
      ("tags", tags self) ].

(** Readers of one dictionary entry at the type the field has in the
    model.  Python stores whatever the dictionary holds; a value of
    another type is outside the typed record, and the model reports it as
    [TypeError] where Python goes on with it.  The model and the code agree
    on the dictionaries whose values have the types of the fields. *)
Definition get_or (data : gmap string pyval) (key : string) (dflt : pyval) : pyval :=
  default dflt (data !! key).

Definition as_str (key : string) (v : pyval) : result string :=
  match v with PStr s => Ok s | _ => Raise (TypeError key) end.
Definition as_int (key : string) (v : pyval) : result Z :=
  match v with PInt n => Ok n | _ => Raise (TypeError key) end.
Definition as_opt_str (key : string) (v : pyval) : result (option string) :=
  match v with PStr s => Ok (Some s) | PNone => Ok None | _ => Raise (TypeError key) end.
Definition as_opt_int (key : string) (v : pyval) : result (option Z) :=
  match v with PInt n => Ok (Some n) | PNone => Ok None | _ => Raise (TypeError key) end.
Definition as_opt_time (key : string) (v : pyval) : result (option Z) :=
  match v with PTime z => Ok (Some z) | PNone => Ok None | _ => Raise (TypeError key) end.

(** [datetime.fromisoformat(v)]; the message of the [ValueError] carries
    the text as it is, where Python writes its [repr]. *)
Definition fromisoformat (v : pyval) : result Z :=
  match v with
  | PTime z => Ok z
  | PStr s => Raise (ValueError ("Invalid isoformat string: " +:+ s))
  | _ => Raise (TypeError "fromisoformat: argument must be str")
  end.

(** [Priority.from_string(v)]: [v.upper()] needs a [str]. *)
Definition priority_from (v : pyval) : result Priority.t :=
  match v with
  | PStr s => Priority.from_string s
  | PTime _ => Raise (ValueError "Unknown priority")
  | _ => Raise (AttributeError "upper")
  end.

(** [Task.from_dict(data)].  The keyword arguments are evaluated in the
    order they are written, after the two leading assignments. *)
Definition from_dict (now : Z) (data : gmap string pyval) : result t :=
  result_bind (priority_from (get_or data "priority" (PStr "P2"))) (λ priority,
  let created_at := get_or data "created_at" (PTime now) in
  result_bind (as_int "priority_value"
                 (get_or data "priority_value" (PInt (Priority.to_int priority)))) (λ sort_priority,
  result_bind (fromisoformat created_at) (λ created,
  result_bind (match data !! "task_id" with
               | Some v => as_str "task_id" v
               | None => Raise (KeyError "task_id")
               end) (λ task_id,
  result_bind (as_str "description" (get_or data "description" (PStr ""))) (λ description,
  result_bind (as_str "category" (get_or data "category" (PStr TaskCategory.OTHER))) (λ category,
  result_bind (as_str "status" (get_or data "status" (PStr TaskStatus.PENDING))) (λ status,
  result_bind (as_opt_str "assigned_agent" (get_or data "assigned_agent" PNone)) (λ assigned_agent,
  result_bind (as_opt_str "verifier_agent" (get_or data "verifier_agent" PNone)) (λ verifier_agent,
  result_bind (fromisoformat (get_or data "updated_at" (PTime now))) (λ updated_at,
  result_bind (as_opt_time "started_at" (get_or data "started_at" PNone)) (λ started_at,
  result_bind (as_opt_time "completed_at" (get_or data "completed_at" PNone)) (λ completed_at,
  result_bind (as_opt_int "original_priority" (get_or data "original_priority" PNone)) (λ original_priority,
  result_bind (as_int "boost_count" (get_or data "boost_count" (PInt 0))) (λ boost_count,
  result_bind (as_opt_str "batch_id" (get_or data "batch_id" PNone)) (λ batch_id,
  result_bind (as_int "retry_count" (get_or data "retry_count" (PInt 0))) (λ retry_count,
  result_bind (as_int "max_retries" (get_or data "max_retries" (PInt 3))) (λ max_retries,
  Ok (__post_init__
        {| sort_priority := sort_priority;
           sort_timestamp := neg_timestamp created;
           task_id := task_id;
           priority := priority;
           description := description;
           category := category;
           status := status;
           assigned_agent := assigned_agent;
           verifier_agent := verifier_agent;
           created_at := created;
           updated_at := updated_at;
           started_at := started_at;
           completed_at := completed_at;
           original_priority := original_priority;
           boost_count := boost_count;
           batch_id := batch_id;
           metadata := get_or data "metadata" (PDict []);
           retry_count := retry_count;
           max_retries := max_retries;
           dependencies := get_or data "dependencies" (PList []);
           tags := get_or data "tags" (PList []) |})))))))))))))))))).

End Task.


(** ** Python's [heapq] on lists

    The list is the array of the binary heap; [lt] is the element type's
    [__lt__].  The two sifting loops run on a fuel that bounds their
    iterations ([pos] for [_siftdown], the length of the list for
    [_siftup]); an index outside the list, which raises [IndexError] in
    Python and is never reached from [heappush], [heappop] or [heapify],
    leaves the list as it is. *)

Module heapq.
Section Heap.

Context {T : Type} (lt : T → T → bool).

(** [heap[i] < heap[j]] *)
Definition lt_at (heap : list T) (i j : nat) : bool :=
  match heap !! i, heap !! j with
  | Some a, Some b => lt a b
  | _, _ => false
  end.

(** The [while pos > startpos] loop of [_siftdown], ending with
    [heap[pos] = newitem]. *)
Fixpoint _siftdown_loop (fuel : nat) (heap : list T) (newitem : T)
    (startpos pos : nat) : list T :=
  match fuel with
  | O => <[pos := newitem]> heap
  | S fuel' =>
      if (startpos <? pos)%nat then
        let parentpos := ((pos - 1) / 2)%nat in
        match heap !! parentpos with
        | Some parent =>
            if lt newitem parent
            then _siftdown_loop fuel' (<[pos := parent]> heap) newitem startpos parentpos
            else <[pos := newitem]> heap
        | None => <[pos := newitem]> heap
        end
      else <[pos := newitem]> heap
  end.

Definition _siftdown (heap : list T) (startpos pos : nat) : list T :=
  match heap !! pos with
  | Some newitem => _siftdown_loop pos heap newitem startpos pos
  | None => heap
  end.

(** The [while childpos < endpos] loop of [_siftup]: bubbles the smaller
    child up until a leaf is reached; returns the list and the leaf
    position. *)
Fixpoint _siftup_loop (fuel : nat) (heap : list T) (endpos pos childpos : nat)
    : list T * nat :=
  match fuel with
  | O => (heap, pos)
  | S fuel' =>
      if (childpos <? endpos)%nat then
        let rightpos := (childpos + 1)%nat in
        let childpos :=
          if (rightpos <? endpos)%nat && negb (lt_at heap childpos rightpos)
          then rightpos else childpos in
        match heap !! childpos with
        | Some child =>
            _siftup_loop fuel' (<[pos := child]> heap) endpos childpos (2 * childpos + 1)%nat
        | None => (heap, pos)
        end
      else (heap, pos)
  end.

Definition _siftup (heap : list T) (pos : nat) : list T :=
  match heap !! pos with
  | Some newitem =>
      let endpos := length heap in
      let '(heap', pos') := _siftup_loop endpos heap endpos pos (2 * pos + 1)%nat in
      _siftdown (<[pos' := newitem]> heap') pos pos'
  | None => heap
  end.

Definition heappush (heap : list T) (item : T) : list T :=
  let heap := heap ++ [item] in
  _siftdown heap 0 (length heap - 1).

(** [heappop(heap)]: [None] stands for the [IndexError] of popping an
    empty list. *)
Definition heappop (heap : list T) : option (T * list T) :=
  match last heap with
  | None => None
  | Some lastelt =>
      let heap := removelast heap in
      match heap with
      | [] => Some (lastelt, heap)
      | returnitem :: _ => Some (returnitem, _siftup (<[0%nat := lastelt]> heap) 0)
      end
  end.

(** [heapify(x)]: [for i in reversed(range(n//2)): _siftup(x, i)] *)
Definition heapify (x : list T) : list T :=
  foldl _siftup x (reverse (seq 0 (length x / 2))).

End Heap.
End heapq.

(** ** [@dataclass class Batch] *)

Module Batch.

Record t : Type := mk {
  batch_id : string;
  category : string;
  priority : Priority.t;
  tasks : list Task.t;
  created_at : Z;
  status : string
}.

Definition set_tasks (v : list Task.t) (b : t) : t :=
  mk (batch_id b) (category b) (priority b) v (created_at b) (status b).

(** [Batch(batch_id=..., category=..., priority=...)] *)
Definition new (now : Z) (batch_id category : string) (priority : Priority.t) : t :=
  mk batch_id category priority [] now TaskStatus.PENDING.

(** [add_task] mutates both objects: it returns the flag, the batch and
    the task as they are after the call. *)
Definition add_task (self : t) (task : Task.t) : bool * t * Task.t :=
  if (BATCH_SIZE_LIMIT <=? length (tasks self))%nat then (false, self, task)
  else if negb (String.eqb (Task.category task) (category self)) then (false, self, task)
  else
    let task := Task.set_batch_id (Some (batch_id self)) task in
    (true, set_tasks (tasks self ++ [task]) self, task).

End Batch.

(** ** The SQLite store

    The three tables this development uses; [queue_metrics] and the
    statistics queries are left out.  The [priority] column of [tasks]
    holds [int(task.priority)], written by [save_task] only, and is kept as
    the member it denotes.  The three JSON text columns hold what
    [json.dumps] wrote and are kept as the value [json.loads] reads back. *)

Module TasksRow.
Record t : Type := mk {
  task_id : string;
  priority : Priority.t;
  original_priority : option Z;
  description : string;
  category : string;
  status : string;
  assigned_agent : option string;
  verifier_agent : option string;
  created_at : Z;
  updated_at : Z;
  started_at : option Z;
  completed_at : option Z;
  boost_count : Z;
  batch_id : option string;
  metadata : pyval;
  retry_count : Z;
  max_retries : Z;
  dependencies : pyval;
  tags : pyval
}.
End TasksRow.

Module TaskHistoryRow.
Record t : Type := mk {
  task_id : string;
  action : string;
  old_value : option string;
  new_value : option string;
  timestamp : Z
}.
End TaskHistoryRow.

Module BatchesRow.
Record t : Type := mk {
  batch_id : string;
  category : string;
  priority : Z;
  created_at : Z;
  status : string
}.
End BatchesRow.

(** [ORDER BY]: a stable insertion sort for the order [le]. *)
Section OrderBy.
Context {A : Type} (le : A → A → bool).

Fixpoint order_insert (x : A) (l : list A) : list A :=
  match l with
  | [] => [x]
  | y :: l' => if le x y then x :: l else y :: order_insert x l'
  end.

Fixpoint order_by (l : list A) : list A :=
  match l with
  | [] => []
  | x :: l' => order_insert x (order_by l')
  end.
End OrderBy.

Module QueueDatabase.

Record t : Type := mk {
  tasks : list TasksRow.t;
  task_history : list TaskHistoryRow.t;
  batches : list BatchesRow.t
}.

(** The schema [_init_db] creates, with no rows. *)
Definition empty : t := mk [] [] [].

(** The [VALUES] tuple of [save_task]. *)
Definition row_of_task (task : Task.t) : TasksRow.t :=
  {| TasksRow.task_id := Task.task_id task;
     TasksRow.priority := Task.priority task;
     TasksRow.original_priority := Task.original_priority task;
     TasksRow.description := Task.description task;
     TasksRow.category := Task.category task;
     TasksRow.status := Task.status task;
     TasksRow.assigned_agent := Task.assigned_agent task;
     TasksRow.verifier_agent := Task.verifier_agent task;
     TasksRow.created_at := Task.created_at task;
     TasksRow.updated_at := Task.updated_at task;
     TasksRow.started_at := Task.started_at task;
     TasksRow.completed_at := Task.completed_at task;
     TasksRow.boost_count := Task.boost_count task;
     TasksRow.batch_id := Task.batch_id task;
     TasksRow.metadata := Task.metadata task;
     TasksRow.retry_count := Task.retry_count task;
     TasksRow.max_retries := Task.max_retries task;
     TasksRow.dependencies := Task.dependencies task;
     TasksRow.tags := Task.tags task |}.

Definition _row_to_task (row : TasksRow.t) : Task.t :=
  Task.__post_init__
    {| Task.sort_priority := Priority.to_int (TasksRow.priority row);
       Task.sort_timestamp := Task.neg_timestamp (TasksRow.created_at row);
       Task.task_id := TasksRow.task_id row;
       Task.priority := TasksRow.priority row;
       Task.description := TasksRow.description row;
       Task.category := TasksRow.category row;
       Task.status := TasksRow.status row;
       Task.assigned_agent := TasksRow.assigned_agent row;
       Task.verifier_agent := TasksRow.verifier_agent row;
       Task.created_at := TasksRow.created_at row;
       Task.updated_at := TasksRow.updated_at row;
       Task.started_at := TasksRow.started_at row;
       Task.completed_at := TasksRow.completed_at row;
       Task.original_priority := TasksRow.original_priority row;
       Task.boost_count := TasksRow.boost_count row;
       Task.batch_id := TasksRow.batch_id row;
       Task.metadata := TasksRow.metadata row;
       Task.retry_count := TasksRow.retry_count row;
       Task.max_retries := TasksRow.max_retries row;
       Task.dependencies := TasksRow.dependencies row;
       Task.tags := TasksRow.tags row |}.

(** [INSERT OR REPLACE INTO tasks]: [task_id] is the primary key. *)
Definition insert_or_replace (row : TasksRow.t) (rows : list TasksRow.t) : list TasksRow.t :=
  filter (λ r, TasksRow.task_id r ≠ TasksRow.task_id row) rows ++ [row].

Definition save_task (task : Task.t) (db : t) : t :=
  mk (insert_or_replace (row_of_task task) (tasks db)) (task_history db) (batches db).

(** [SELECT * FROM tasks WHERE task_id = ?], [fetchone()]. *)
Definition get_task (task_id : string) (db : t) : option Task.t :=
  _row_to_task <$> head (filter (λ r, TasksRow.task_id r = task_id) (tasks db)).

(** [ORDER BY priority ASC, created_at ASC] *)
Definition le_priority_created (a b : TasksRow.t) : bool :=
  (Priority.to_int (TasksRow.priority a) <? Priority.to_int (TasksRow.priority b))
  || ((Priority.to_int (TasksRow.priority a) =? Priority.to_int (TasksRow.priority b))
      && (TasksRow.created_at a <=? TasksRow.created_at b)).

(** [ORDER BY priority ASC] *)
Definition le_priority (a b : TasksRow.t) : bool :=
  Priority.to_int (TasksRow.priority a) <=? Priority.to_int (TasksRow.priority b).

Definition get_pending_tasks (db : t) : list Task.t :=
  _row_to_task <$>
    order_by le_priority_created (filter (λ r, TasksRow.status r = "pending") (tasks db)).

Definition get_tasks_by_status (status : string) (db : t) : list Task.t :=
  _row_to_task <$>
    order_by le_priority_created (filter (λ r, TasksRow.status r = status) (tasks db)).

(** [status] is [None] or a string; the empty string is falsy too, so
    [if status:] takes the second query for it. *)
Definition get_tasks_by_category (category : string) (status : option string) (db : t)
    : list Task.t :=
  match status with
  | Some st =>
      if decide (st = "") then
        _row_to_task <$>
          order_by le_priority (filter (λ r, TasksRow.category r = category) (tasks db))
      else
        _row_to_task <$>
          order_by le_priority
            (filter (λ r, TasksRow.category r = category ∧ TasksRow.status r = st) (tasks db))
  | None =>
      _row_to_task <$>
        order_by le_priority (filter (λ r, TasksRow.category r = category) (tasks db))
  end.

(** [DELETE FROM tasks WHERE task_id = ?]; returns [rowcount > 0]. *)
Definition delete_task (task_id : string) (db : t) : bool * t :=
  (bool_decide (Exists (λ r, TasksRow.task_id r = task_id) (tasks db)),
   mk (filter (λ r, TasksRow.task_id r ≠ task_id) (tasks db))
      (task_history db) (batches db)).

Definition record_history (now : Z) (task_id action : string)
    (old_value new_value : option string) (db : t) : t :=
  mk (tasks db)
     (task_history db ++ [TaskHistoryRow.mk task_id action old_value new_value now])
     (batches db).

Definition save_batch (batch : Batch.t) (db : t) : t :=
  let row :=
    BatchesRow.mk (Batch.batch_id batch) (Batch.category batch)
      (Priority.to_int (Batch.priority batch)) (Batch.created_at batch) (Batch.status batch) in
  mk (tasks db) (task_history db)
     (filter (λ r, BatchesRow.batch_id r ≠ BatchesRow.batch_id row) (batches db) ++ [row]).

End QueueDatabase.

(** ** Python's insertion-ordered [dict] with string keys *)

Module PyDict.

Abbreviation t V := (list (string * V)) (only parsing).

Section PyDict.
Context {V : Type}.

Definition get (k : string) (d : t V) : option V :=
  snd <$> head (filter (λ kv, kv.1 = k) d).

(** [k in d] *)
Definition contains (k : string) (d : t V) : bool :=
  bool_decide (k ∈ d.*1).

(** [d[k] = v]: a present key keeps its position. *)
Fixpoint set (k : string) (v : V) (d : t V) : t V :=
  match d with
  | [] => [(k, v)]
  | (k', v') :: d' => if decide (k' = k) then (k, v) :: d' else (k', v') :: set k v d'
  end.

(** [del d[k]] *)
Definition del (k : string) (d : t V) : t V :=
  filter (λ kv, kv.1 ≠ k) d.

(** [list(d.values())] *)
Definition values (d : t V) : list V := d.*2.

End PyDict.
End PyDict.

(** ** The state the classes share

    [db] is the committed content of [queue.db].  Every method of
    [QueueDatabase] opens its own connection and commits when its [with]
    block ends, so each writing method is one transaction; [journal] lists
    the content committed by each writing transaction, in commit order.
    [_heap] and [_task_map] belong to the [PriorityQueue], [_batch_counter]
    to the [BatchProcessor]; [files] is the set of task files under the
    queue directory. *)

Record World : Type := mkWorld {
  db : QueueDatabase.t;
  journal : list QueueDatabase.t;
  _heap : list Task.t;
  _task_map : PyDict.t Task.t;
  _batch_counter : Z;
  files : gset string
}.

Definition set_heap (h : list Task.t) (w : World) : World :=
  mkWorld (db w) (journal w) h (_task_map w) (_batch_counter w) (files w).
Definition set_task_map (m : PyDict.t Task.t) (w : World) : World :=
  mkWorld (db w) (journal w) (_heap w) m (_batch_counter w) (files w).
Definition set_batch_counter (n : Z) (w : World) : World :=
  mkWorld (db w) (journal w) (_heap w) (_task_map w) n (files w).
Definition set_files (f : gset string) (w : World) : World :=
  mkWorld (db w) (journal w) (_heap w) (_task_map w) (_batch_counter w) f.

(** A state monad over [World]. *)
Definition M (A : Type) : Type := World → A * World.

Global Instance M_ret : MRet M := λ A a w, (a, w).
Global Instance M_bind : MBind M := λ A B f m w, let '(a, w') := m w in f a w'.

Definition get_world : M World := λ w, (w, w).
Definition modify (f : World → World) : M unit := λ w, (tt, f w).

(** A read-only [with self._get_connection() as conn] block. *)
Definition db_query {A} (q : QueueDatabase.t → A) : M A := λ w, (q (db w), w).

(** A writing [with self._get_connection() as conn] block: the statement
    runs and [conn.commit()] makes its effect durable. *)
Definition db_commit (f : QueueDatabase.t → QueueDatabase.t) : M unit := λ w,
  let d := f (db w) in
  (tt, mkWorld d (journal w ++ [d]) (_heap w) (_task_map w) (_batch_counter w) (files w)).

(** [for x in l: body(x)] *)
Fixpoint for_each {A} (l : list A) (body : A → M unit) : M unit :=
  match l with
  | [] => mret tt
  | x :: l' => body x ;; for_each l' body
  end.

(** The world of a fresh process on an empty database. *)
Definition initial_world : World := mkWorld QueueDatabase.empty [] [] [] 0 ∅.

(** ** [class PriorityQueue] *)

Module PriorityQueue.

Definition map_set (task : Task.t) : M unit :=
  modify (λ w, set_task_map (PyDict.set (Task.task_id task) task (_task_map w)) w).

Definition heap_push (task : Task.t) : M unit :=
  modify (λ w, set_heap (heapq.heappush Task.lt (_heap w) task) w).

Definition _load_from_db : M unit :=
  modify (set_heap []) ;;
  modify (set_task_map []) ;;
  tasks ← db_query QueueDatabase.get_pending_tasks;
  for_each tasks (λ task, map_set task ;; heap_push task).

(** [PriorityQueue(db)]: a new instance over the same database. *)
Definition __init__ : M unit := _load_from_db.

(** [add] assigns to two attributes of the caller's object; the task as
    it is after the call is returned. *)
Definition add (now : Z) (task : Task.t) : M Task.t :=
  let task := Task.set_status TaskStatus.PENDING task in
  let task := Task.set_updated_at now task in
  db_commit (QueueDatabase.save_task task) ;;
  db_commit (QueueDatabase.record_history now (Task.task_id task) "created" None
               (Some (Priority.name (Task.priority task)))) ;;
  map_set task ;;
  heap_push task ;;
  mret task.

(** The [while self._heap] loop of [pop]; each iteration removes one
    entry, so the length of the heap bounds the iterations. *)
Fixpoint pop_loop (fuel : nat) : M (option Task.t) :=
  match fuel with
  | O => mret None
  | S fuel' =>
      w ← get_world;
      match heapq.heappop Task.lt (_heap w) with
      | None => mret None
      | Some (task, heap') =>
          modify (set_heap heap') ;;
          if PyDict.contains (Task.task_id task) (_task_map w) then
            current ← db_query (QueueDatabase.get_task (Task.task_id task));
            match current with
            | Some current =>
                if decide (Task.status current = TaskStatus.PENDING) then
                  modify (λ w, set_task_map (PyDict.del (Task.task_id task) (_task_map w)) w) ;;
                  mret (Some current)
                else pop_loop fuel'
            | None => pop_loop fuel'
            end
          else pop_loop fuel'
      end
  end.

Definition pop : M (option Task.t) := λ w, pop_loop (length (_heap w)) w.

(** The loop of [peek]: the root is returned when it is live, and
    discarded otherwise. *)
Fixpoint peek_loop (fuel : nat) : M (option Task.t) :=
  match fuel with
  | O => mret None
  | S fuel' =>
      w ← get_world;
      match _heap w with
      | [] => mret None
      | task :: _ =>
          let discard :=
            modify (λ w, set_heap (default [] (snd <$> heapq.heappop Task.lt (_heap w))) w) ;;
            peek_loop fuel' in
          if PyDict.contains (Task.task_id task) (_task_map w) then
            current ← db_query (QueueDatabase.get_task (Task.task_id task));
            match current with
            | Some current =>
                if decide (Task.status current = TaskStatus.PENDING) then mret (Some current)
                else discard
            | None => discard
            end
          else discard
      end
  end.

Definition peek : M (option Task.t) := λ w, peek_loop (length (_heap w)) w.

Definition _rebuild_heap : M unit :=
  modify (λ w, set_heap (heapq.heapify Task.lt (PyDict.values (_task_map w))) w).

Definition update_priority (now : Z) (task_id : string) (new_priority : Priority.t)
    (is_boost : bool) : M bool :=
  task ← db_query (QueueDatabase.get_task task_id);
  match task with
  | None => mret false
  | Some task =>
      let old_priority := Task.priority task in
      let task := Task.set_priority new_priority task in
      let task := Task.set_sort_priority (Priority.to_int new_priority) task in
      let task := Task.set_updated_at now task in
      task ←
        (if is_boost then
           let task := Task.set_boost_count (Task.boost_count task + 1) task in
           db_commit (QueueDatabase.record_history now task_id "priority_boost"
                        (Some (Priority.name old_priority))
                        (Some (Priority.name new_priority))) ;;
           mret task
         else
           db_commit (QueueDatabase.record_history now task_id "priority_change"
                        (Some (Priority.name old_priority))
                        (Some (Priority.name new_priority))) ;;
           mret task);
      db_commit (QueueDatabase.save_task task) ;;
      w ← get_world;
      (if PyDict.contains task_id (_task_map w) then
         modify (λ w, set_task_map (PyDict.set task_id task (_task_map w)) w) ;;
         _rebuild_heap
       else mret tt) ;;
      mret true
  end.

(** The [new_priority] the body of the loop of [apply_age_boosts]
    computes for one task: [age_hours >= threshold] on the age in
    microseconds. *)
Definition new_priority_for (now : Z) (task : Task.t) : option Priority.t :=
  let age := now - Task.created_at task in
  match Task.priority task with
  | Priority.P3_LOW =>
      if AGE_BOOST_P3_to_P2 * MICROSECONDS_PER_HOUR <=? age
      then Some Priority.P2_MEDIUM else None
  | Priority.P2_MEDIUM =>
      if AGE_BOOST_P2_to_P1 * MICROSECONDS_PER_HOUR <=? age
      then Some Priority.P1_HIGH else None
  | Priority.P1_HIGH =>
      if AGE_BOOST_P1_to_P0 * MICROSECONDS_PER_HOUR <=? age
      then Some Priority.P0_CRITICAL else None
  | Priority.P0_CRITICAL => None
  end.

(** [for task in pending_tasks], with the counter [boosted]. *)
Fixpoint boost_loop (now : Z) (pending_tasks : list Task.t) (boosted : Z) : M Z :=
  match pending_tasks with
  | [] => mret boosted
  | task :: rest =>
      match new_priority_for now task with
      | Some new_priority =>
          (* [if new_priority:] *)
          if Priority.truthy new_priority then
            update_priority now (Task.task_id task) new_priority true ;;
            boost_loop now rest (boosted + 1)
          else boost_loop now rest boosted
      | None => boost_loop now rest boosted
      end
  end.

Definition apply_age_boosts (now : Z) : M Z :=
  pending_tasks ← db_query QueueDatabase.get_pending_tasks;
  boost_loop now pending_tasks 0.

Definition size : M nat := λ w, (length (_task_map w), w).

Definition is_empty : M bool := n ← size; mret (n =? 0)%nat.

Definition get_by_priority (priority : Priority.t) : M (list Task.t) := λ w,
  (filter (λ t, Task.priority t = priority) (PyDict.values (_task_map w)), w).

End PriorityQueue.

(** ** [class BatchProcessor] *)

Module BatchProcessor.

(** [f"batch_{int(time.time())}_{self._batch_counter}"] *)
Definition _generate_batch_id (now : Z) : M string :=
  modify (λ w, set_batch_counter (_batch_counter w + 1) w) ;;
  w ← get_world;
  mret ("batch_" +:+ pretty (now ÷ 1000000) +:+ "_" +:+ pretty (_batch_counter w)).

(** The category list of [create_batches], in source order. *)
Definition categories : list string :=
  [ TaskCategory.SECURITY; TaskCategory.BACKEND; TaskCategory.FRONTEND;
    TaskCategory.TESTING; TaskCategory.DOCUMENTATION; TaskCategory.DEVOPS;
    TaskCategory.REFACTORING; TaskCategory.BUGFIX; TaskCategory.FEATURE;
    TaskCategory.OTHER ].

(** The local state of [create_batches]: the list [batches], and
    [current_batch], a reference to one of its elements, kept as the
    index of that element. *)
Definition locals : Type := list Batch.t * option nat.

(** [current_batch is None or len(current_batch.tasks) >= BATCH_SIZE_LIMIT] *)
Definition needs_new_batch (st : locals) : bool :=
  match st.2 with
  | None => true
  | Some i =>
      match st.1 !! i with
      | Some b => (BATCH_SIZE_LIMIT <=? length (Batch.tasks b))%nat
      | None => true
      end
  end.

(** One iteration of [for task in tasks]. *)
Definition pack_task (now : Z) (category : string) (priority : Priority.t)
    (st : locals) (task : Task.t) : M locals :=
  st ← (if needs_new_batch st then
          batch_id ← _generate_batch_id now;
          mret (st.1 ++ [Batch.new now batch_id category priority], Some (length st.1))
        else mret st);
  match st.2 with
  | Some i =>
      match st.1 !! i with
      | Some b =>
          let '(_, b, task) := Batch.add_task b task in
          db_commit (QueueDatabase.save_task task) ;;
          mret (<[i := b]> st.1, Some i)
      | None => mret st
      end
  | None => mret st
  end.

Fixpoint pack_tasks (now : Z) (category : string) (priority : Priority.t)
    (tasks : list Task.t) (st : locals) : M locals :=
  match tasks with
  | [] => mret st
  | task :: rest =>
      st ← pack_task now category priority st task;
      pack_tasks now category priority rest st
  end.

(** The body of the two nested [for] loops, for one priority and one
    category. *)
Definition batch_group (now : Z) (priority : Priority.t) (category : string)
    (batches : list Batch.t) : M (list Batch.t) :=
  tasks ← db_query (QueueDatabase.get_tasks_by_category category (Some TaskStatus.PENDING));
  let tasks := filter (λ t, Task.priority t = priority) tasks in
  match tasks with
  | [] => mret batches
  | _ =>
      st ← pack_tasks now category priority tasks (batches, None);
      match st.2 with
      | Some i =>
          match st.1 !! i with
          | Some current_batch =>
              db_commit (QueueDatabase.save_batch current_batch) ;; mret st.1
          | None => mret st.1
          end
      | None => mret st.1
      end
  end.

Fixpoint for_categories (now : Z) (priority : Priority.t) (cats : list string)
    (batches : list Batch.t) : M (list Batch.t) :=
  match cats with
  | [] => mret batches
  | category :: rest =>
      batches ← batch_group now priority category batches;
      for_categories now priority rest batches
  end.

Fixpoint for_priorities (now : Z) (prios : list Priority.t) (batches : list Batch.t)
    : M (list Batch.t) :=
  match prios with
  | [] => mret batches
  | priority :: rest =>
      batches ← for_categories now priority categories batches;
      for_priorities now rest batches
  end.

Definition create_batches (now : Z) : M (list Batch.t) :=
  for_priorities now Priority.members [].

End BatchProcessor.

(** ** [class QueueManager] *)

Module QueueManager.

Definition PENDING_DIR : string := "pending".
Definition RUNNING_DIR : string := "running".
Definition COMPLETED_DIR : string := "completed".
Definition FAILED_DIR : string := "failed".

(** [from_dir / f"{task_id}{ext}"], relative to the queue directory. *)
Definition path (dir task_id ext : string) : string :=
  dir +:+ "/" +:+ task_id +:+ ext.

Definition move_one (task_id from_dir to_dir ext : string) (f : gset string) : gset string :=
  if decide (path from_dir task_id ext ∈ f)
  then (f ∖ {[ path from_dir task_id ext ]}) ∪ {[ path to_dir task_id ext ]}
  else f.

Definition _move_task_file (task_id from_dir to_dir : string) : M unit :=
  modify (λ w, set_files
                 (move_one task_id from_dir to_dir ".json"
                    (move_one task_id from_dir to_dir ".txt" (files w))) w).

(** [add_task]; [pid] is [os.getpid()]. *)
Definition add_task (now pid : Z) (description priority category : string)
    : M (result Task.t) :=
  let task_id := "task_" +:+ pretty (now ÷ 1000000) +:+ "_" +:+ pretty pid in
  match Priority.from_string priority with
  | Raise e => mret (Raise e)
  | Ok p =>
      task ← PriorityQueue.add now (Task.create now task_id description p category);
      mret (Ok task)
  end.

Definition get_next_task (now : Z) : M (option Task.t) :=
  PriorityQueue.apply_age_boosts now ;;
  PriorityQueue.peek.

(** [if agent:] holds for a non-empty string. *)
Definition start_task (now : Z) (task_id : string) (agent : option string)
    : M (option Task.t) :=
  task ← db_query (QueueDatabase.get_task task_id);
  match task with
  | None => mret None
  | Some task =>
      let task := Task.set_status TaskStatus.RUNNING task in
      let task := Task.set_started_at (Some now) task in
      let task := Task.set_updated_at now task in
      let task :=
        match agent with
        | Some a => if decide (a = "") then task else Task.set_assigned_agent (Some a) task
        | None => task
        end in
      db_commit (QueueDatabase.save_task task) ;;
      db_commit (QueueDatabase.record_history now task_id "started"
                   (Some TaskStatus.PENDING) (Some TaskStatus.RUNNING)) ;;
      _move_task_file task_id PENDING_DIR RUNNING_DIR ;;
      mret (Some task)
  end.

Definition complete_task (now : Z) (task_id : string) (success : bool)
    : M (option Task.t) :=
  task ← db_query (QueueDatabase.get_task task_id);
  match task with
  | None => mret None
  | Some task =>
      let new_status := if success then TaskStatus.COMPLETED else TaskStatus.FAILED in
      let task := Task.set_status new_status task in
      let task := Task.set_completed_at (Some now) task in
      let task := Task.set_updated_at now task in
      db_commit (QueueDatabase.save_task task) ;;
      db_commit (QueueDatabase.record_history now task_id
                   (if success then "completed" else "failed")
                   (Some TaskStatus.RUNNING) (Some new_status)) ;;
      _move_task_file task_id RUNNING_DIR (if success then COMPLETED_DIR else FAILED_DIR) ;;
      mret (Some task)
  end.

Definition retry_task (now : Z) (task_id : string) : M (option Task.t) :=
  task ← db_query (QueueDatabase.get_task task_id);
  match task with
  | None => mret None
  | Some task =>
      if Task.max_retries task <=? Task.retry_count task then mret None
      else
        let task := Task.set_retry_count (Task.retry_count task + 1) task in
        let task := Task.set_status TaskStatus.PENDING task in
        let task := Task.set_started_at None task in
        let task := Task.set_completed_at None task in
        let task := Task.set_updated_at now task in
        db_commit (QueueDatabase.save_task task) ;;
        db_commit (QueueDatabase.record_history now task_id "retry"
                     (Some TaskStatus.FAILED) (Some TaskStatus.PENDING)) ;;
        PriorityQueue.map_set task ;;
        PriorityQueue.heap_push task ;;
        _move_task_file task_id FAILED_DIR PENDING_DIR ;;
        mret (Some task)
  end.

Definition set_priority (now : Z) (task_id priority : string) : M (result bool) :=
  match Priority.from_string priority with
  | Raise e => mret (Raise e)
  | Ok p => b ← PriorityQueue.update_priority now task_id p false; mret (Ok b)
  end.

Definition apply_boosts (now : Z) : M Z := PriorityQueue.apply_age_boosts now.

End QueueManager.

(** ** Further methods *)

(** [l[:n]] for an integer [n]: a negative [n] counts from the end. *)
Definition slice_to {A} (n : Z) (l : list A) : list A :=
  if 0 <=? n then take (Z.to_nat n) l
  else take (length l - Z.to_nat (- n)) l.

Module Queries.

(** The sort key of [get_next_batch]: [(int(b.priority), b.created_at)],
    compared as tuples. *)
Definition le_batch (a b : Batch.t) : bool :=
  (Priority.to_int (Batch.priority a) <? Priority.to_int (Batch.priority b))
  || ((Priority.to_int (Batch.priority a) =? Priority.to_int (Batch.priority b))
      && (Batch.created_at a <=? Batch.created_at b)).

(** [BatchProcessor.get_next_batch]; [list.sort] is stable. *)
Definition get_next_batch (now : Z) : M (option Batch.t) :=
  batches ← BatchProcessor.create_batches now;
  match batches with
  | [] => mret None
  | _ => mret (head (order_by le_batch batches))
  end.

(** [QueueManager.list_tasks(status, priority, limit)]; an empty string is
    falsy like [None]. *)
Definition list_tasks (status priority : option string) (limit : Z)
    : M (result (list Task.t)) :=
  tasks ← (match status with
           | Some st =>
               if decide (st = "") then db_query QueueDatabase.get_pending_tasks
               else db_query (QueueDatabase.get_tasks_by_status st)
           | None => db_query QueueDatabase.get_pending_tasks
           end);
  match priority with
  | Some ps =>
      if decide (ps = "") then mret (Ok (slice_to limit tasks))
      else
        match Priority.from_string ps with
        | Raise e => mret (Raise e)
        | Ok p => mret (Ok (slice_to limit (filter (λ t, Task.priority t = p) tasks)))
        end
  | None => mret (Ok (slice_to limit tasks))
  end.

End Queries.

(** ** The statements that write to the store *)

(** Everything written to the store goes through one of three statements,
    each in a transaction of its own. *)
Inductive store_step : QueueDatabase.t → QueueDatabase.t → Prop :=
  | step_save_task (t : Task.t) (d : QueueDatabase.t) :
      store_step d (QueueDatabase.save_task t d)
  | step_record_history (now : Z) (id action : string) (o n : option string)
      (d : QueueDatabase.t) :
      store_step d (QueueDatabase.record_history now id action o n d)
  | step_save_batch (b : Batch.t) (d : QueueDatabase.t) :
      store_step d (QueueDatabase.save_batch b d).


(** ** Sequences of calls *)

(** The calls of the queue, its batch processor and its manager. *)
Inductive call : Type :=
  | Add (task : Task.t)
  | Pop
  | Peek
  | UpdatePriority (task_id : string) (new_priority : Priority.t) (is_boost : bool)
  | ApplyAgeBoosts
  | LoadFromDb
  | CreateBatches
  | GetNextBatch
  | AddTask (pid : Z) (description priority category : string)
  | GetNextTask
  | StartTask (task_id : string) (agent : option string)
  | CompleteTask (task_id : string) (success : bool)
  | RetryTask (task_id : string)
  | SetPriority (task_id priority : string)
  | ListTasks (status priority : option string) (limit : Z).

(** The state after one call made at instant [now]. *)
Definition run (now : Z) (c : call) (w : World) : World :=
  match c with
  | Add task => (PriorityQueue.add now task w).2
  | Pop => (PriorityQueue.pop w).2
  | Peek => (PriorityQueue.peek w).2
  | UpdatePriority id p b => (PriorityQueue.update_priority now id p b w).2
  | ApplyAgeBoosts => (PriorityQueue.apply_age_boosts now w).2
  | LoadFromDb => (PriorityQueue._load_from_db w).2
  | CreateBatches => (BatchProcessor.create_batches now w).2
  | GetNextBatch => (Queries.get_next_batch now w).2
  | AddTask pid d p c => (QueueManager.add_task now pid d p c w).2
  | GetNextTask => (QueueManager.get_next_task now w).2
  | StartTask id agent => (QueueManager.start_task now id agent w).2
  | CompleteTask id s => (QueueManager.complete_task now id s w).2
  | RetryTask id => (QueueManager.retry_task now id w).2
  | SetPriority id p => (QueueManager.set_priority now id p w).2
  | ListTasks st p limit => (Queries.list_tasks st p limit w).2
  end.

(** The state after a sequence of calls, each with its instant. *)
Definition run_all (calls : list (Z * call)) (w : World) : World :=
  foldl (λ w nc, run nc.1 nc.2 w) w calls.


(** * Properties *)

(** ** Proof support *)

Ltac unfold_M :=
  unfold mbind, M_bind, mret, M_ret, get_world, modify, db_query, db_commit in *.

(** ** [str.upper], [str.strip] and [Priority.from_string] *)

Lemma from_string_name (p : Priority.t) :
  Priority.from_string (Priority.name p)
  = Raise (ValueError ("Unknown priority: " +:+ Priority.name p)).
Proof. destruct p; reflexivity. Qed.

Lemma from_string_aliases :
  Priority.from_string "p0" = Ok Priority.P0_CRITICAL
  ∧ Priority.from_string " High " = Ok Priority.P1_HIGH
  ∧ Priority.from_string "P2-MEDIUM" = Ok Priority.P2_MEDIUM
  ∧ Priority.from_string "low" = Ok Priority.P3_LOW.
Proof. repeat split; reflexivity. Qed.

Lemma to_dict_priority (t : Task.t) :
  Task.to_dict t !! "priority" = Some (PStr (Priority.name (Task.priority t))).
Proof. vm_compute. reflexivity. Qed.

(** ** [ORDER BY] *)

Section OrderByFacts.
Context {A : Type} (le : A → A → bool).

Lemma order_insert_perm (x : A) (l : list A) : order_insert le x l ≡ₚ x :: l.
Proof.
  induction l as [|y l IH]; simpl; [done|].
  destruct (le x y); [done|].
  rewrite IH. apply Permutation_swap.
Qed.

Lemma order_by_perm (l : list A) : order_by le l ≡ₚ l.
Proof.
  induction l as [|x l IH]; simpl; [done|].
  by rewrite order_insert_perm, IH.
Qed.

Lemma elem_of_order_by (x : A) (l : list A) : x ∈ order_by le l ↔ x ∈ l.
Proof. by rewrite order_by_perm. Qed.

Lemma length_order_by (l : list A) : length (order_by le l) = length l.
Proof. by rewrite order_by_perm. Qed.

Lemma Forall_order_by (P : A → Prop) (l : list A) :
  Forall P (order_by le l) ↔ Forall P l.
Proof. by rewrite order_by_perm. Qed.
End OrderByFacts.

(** ** The store *)

Lemma filter_none {A} (P : A → Prop) `{∀ x, Decision (P x)} (l : list A) :
  Forall (λ x, ¬ P x) l → filter P l = [].
Proof.
  induction 1 as [|x l Hx _ IH]; [done|].
  by rewrite filter_cons_False.
Qed.

Lemma filter_all {A} (P : A → Prop) `{∀ x, Decision (P x)} (l : list A) :
  Forall P l → filter P l = l.
Proof.
  induction 1 as [|x l Hx _ IH]; [done|].
  by rewrite filter_cons_True, IH.
Qed.

Lemma NoDup_fmap_filter {A B} (f : A → B) (P : A → Prop) `{∀ x, Decision (P x)}
    (l : list A) :
  NoDup (f <$> l) → NoDup (f <$> filter P l).
Proof.
  intros Hnd. eapply sublist_NoDup; [exact Hnd|].
  apply fmap_sublist, sublist_filter.
Qed.

(** The primary key of [tasks]. *)
Definition unique_ids (d : QueueDatabase.t) : Prop :=
  NoDup (TasksRow.task_id <$> QueueDatabase.tasks d).

Lemma row_to_task_id (r : TasksRow.t) :
  Task.task_id (QueueDatabase._row_to_task r) = TasksRow.task_id r.
Proof.
  unfold QueueDatabase._row_to_task, Task.__post_init__; simpl.
  repeat (case_match; simpl); reflexivity.
Qed.

Lemma row_to_task_status (r : TasksRow.t) :
  Task.status (QueueDatabase._row_to_task r) = TasksRow.status r.
Proof.
  unfold QueueDatabase._row_to_task, Task.__post_init__; simpl.
  repeat (case_match; simpl); reflexivity.
Qed.

Lemma row_to_task_priority (r : TasksRow.t) :
  Task.priority (QueueDatabase._row_to_task r) = TasksRow.priority r.
Proof.
  unfold QueueDatabase._row_to_task, Task.__post_init__; simpl.
  repeat (case_match; simpl); reflexivity.
Qed.

Lemma row_to_task_category (r : TasksRow.t) :
  Task.category (QueueDatabase._row_to_task r) = TasksRow.category r.
Proof.
  unfold QueueDatabase._row_to_task, Task.__post_init__; simpl.
  repeat (case_match; simpl); reflexivity.
Qed.

Lemma row_to_task_created_at (r : TasksRow.t) :
  Task.created_at (QueueDatabase._row_to_task r) = TasksRow.created_at r.
Proof.
  unfold QueueDatabase._row_to_task, Task.__post_init__; simpl.
  repeat (case_match; simpl); reflexivity.
Qed.


Lemma get_task_Some (task_id : string) (d : QueueDatabase.t) (t : Task.t) :
  QueueDatabase.get_task task_id d = Some t →
  ∃ r, r ∈ QueueDatabase.tasks d ∧ TasksRow.task_id r = task_id
       ∧ t = QueueDatabase._row_to_task r.
Proof.
  unfold QueueDatabase.get_task. intros H.
  destruct (head _) as [r|] eqn:Hh; simplify_eq/=.
  apply head_Some_elem_of in Hh. apply list_elem_of_filter in Hh as [? ?]. eauto.
Qed.

Lemma get_task_id (task_id : string) (d : QueueDatabase.t) (t : Task.t) :
  QueueDatabase.get_task task_id d = Some t → Task.task_id t = task_id.
Proof.
  intros (r & _ & <- & ->)%get_task_Some. apply row_to_task_id.
Qed.

(** With a primary key, the row of a given id is the one [get_task] finds. *)
Lemma head_filter_unique (rows : list TasksRow.t) (r : TasksRow.t) :
  NoDup (TasksRow.task_id <$> rows) → r ∈ rows →
  head (filter (λ r', TasksRow.task_id r' = TasksRow.task_id r) rows) = Some r.
Proof.
  induction rows as [|a rows IH]; intros Hnd Hin; [by apply elem_of_nil in Hin|].
  rewrite fmap_cons in Hnd. apply NoDup_cons in Hnd as [Hna Hnd].
  rewrite filter_cons. apply elem_of_cons in Hin as [->|Hin].
  - by rewrite decide_True.
  - rewrite decide_False; [by apply IH|].
    intros Heq. apply Hna. rewrite Heq. by apply list_elem_of_fmap_2.
Qed.

Lemma get_task_elem (d : QueueDatabase.t) (r : TasksRow.t) :
  unique_ids d → r ∈ QueueDatabase.tasks d →
  QueueDatabase.get_task (TasksRow.task_id r) d = Some (QueueDatabase._row_to_task r).
Proof.
  intros Hnd Hin. unfold QueueDatabase.get_task.
  by rewrite head_filter_unique.
Qed.

Lemma get_task_save_eq (t : Task.t) (d : QueueDatabase.t) :
  QueueDatabase.get_task (Task.task_id t) (QueueDatabase.save_task t d)
  = Some (QueueDatabase._row_to_task (QueueDatabase.row_of_task t)).
Proof.
  unfold QueueDatabase.get_task, QueueDatabase.save_task, QueueDatabase.insert_or_replace; simpl.
  rewrite filter_app, (filter_none _ (filter _ _)); [by rewrite filter_cons_True|].
  apply Forall_forall. by intros r [? ?]%list_elem_of_filter.
Qed.

Lemma get_task_save_ne (task_id : string) (t : Task.t) (d : QueueDatabase.t) :
  Task.task_id t ≠ task_id →
  QueueDatabase.get_task task_id (QueueDatabase.save_task t d)
  = QueueDatabase.get_task task_id d.
Proof.
  intros Hne.
  unfold QueueDatabase.get_task, QueueDatabase.save_task, QueueDatabase.insert_or_replace; simpl.
  rewrite filter_app, filter_cons, decide_False by done. simpl. rewrite app_nil_r.
  f_equal. f_equal. rewrite list_filter_filter. apply list_filter_iff.
  intros r. simpl. split; [tauto|]. intros <-. split; [done|]. congruence.
Qed.

Lemma get_task_record_history now id action o n task_id (d : QueueDatabase.t) :
  QueueDatabase.get_task task_id (QueueDatabase.record_history now id action o n d)
  = QueueDatabase.get_task task_id d.
Proof. reflexivity. Qed.

Lemma save_task_unique_ids (t : Task.t) (d : QueueDatabase.t) :
  unique_ids d → unique_ids (QueueDatabase.save_task t d).
Proof.
  unfold unique_ids, QueueDatabase.save_task, QueueDatabase.insert_or_replace; simpl.
  intros Hnd. rewrite fmap_app. apply NoDup_app. split; [|split].
  - by apply NoDup_fmap_filter.
  - intros x (r & -> & Hr)%list_elem_of_fmap Hx.
    apply list_elem_of_filter in Hr as [Hr _].
    by apply list_elem_of_singleton in Hx.
  - apply NoDup_singleton.
Qed.

(** ** [peek] and [pop] touch the heap and the index only *)

Lemma peek_loop_frame (fuel : nat) (w : World) :
  ∃ h, (PriorityQueue.peek_loop fuel w).2 = set_heap h w.
Proof.
  revert w. induction fuel as [|fuel IH]; intros w; simpl.
  - exists (_heap w). by destruct w.
  - unfold_M.
    assert (∀ h0, ∃ h, (PriorityQueue.peek_loop fuel (set_heap h0 w)).2 = set_heap h w)
      as Hdiscard.
    { intros h0. destruct (IH (set_heap h0 w)) as [h Hh]. exists h. rewrite Hh. by destruct w. }
    destruct (_heap w) as [|task rest] eqn:Hheap.
    { exists []. destruct w; simpl in *. by subst. }
    destruct (PyDict.contains _ _); [|apply Hdiscard].
    destruct (QueueDatabase.get_task _ _) as [current|]; [|apply Hdiscard].
    destruct (decide _); [|apply Hdiscard].
    exists (_heap w). by destruct w.
Qed.

Lemma peek_frame (w : World) : ∃ h, (PriorityQueue.peek w).2 = set_heap h w.
Proof. apply peek_loop_frame. Qed.

Lemma peek_db (w : World) : db (PriorityQueue.peek w).2 = db w.
Proof. destruct (peek_frame w) as [h ->]. reflexivity. Qed.

(** What [pop_loop] returns is a pending task read from the store. *)
Lemma pop_loop_spec (fuel : nat) (w : World) :
  ∃ h m, (PriorityQueue.pop_loop fuel w).2 = set_task_map m (set_heap h w)
         ∧ ∀ t, (PriorityQueue.pop_loop fuel w).1 = Some t →
                QueueDatabase.get_task (Task.task_id t) (db w) = Some t
                ∧ Task.status t = TaskStatus.PENDING.
Proof.
  revert w. induction fuel as [|fuel IH]; intros w; simpl.
  - exists (_heap w), (_task_map w). split; [by destruct w|]. intros t. discriminate.
  - unfold_M.
    destruct (heapq.heappop Task.lt (_heap w)) as [[task heap']|].
    2:{ exists (_heap w), (_task_map w). split; [by destruct w|]. intros t. discriminate. }
    assert (∃ h m, (PriorityQueue.pop_loop fuel (set_heap heap' w)).2
                   = set_task_map m (set_heap h w)
                   ∧ ∀ t, (PriorityQueue.pop_loop fuel (set_heap heap' w)).1 = Some t →
                          QueueDatabase.get_task (Task.task_id t) (db w) = Some t
                          ∧ Task.status t = TaskStatus.PENDING) as Hnext.
    { destruct (IH (set_heap heap' w)) as (h & m & Hw & Ht).
      exists h, m. split; [rewrite Hw; by destruct w|exact Ht]. }
    destruct (PyDict.contains _ _); [|exact Hnext].
    simpl. destruct (QueueDatabase.get_task _ _) as [current|] eqn:Hget; [|exact Hnext].
    destruct (decide _) as [Hst|]; [|exact Hnext].
    simpl. eexists _, _. split; [reflexivity|].
    intros t [= <-]. split; [|exact Hst].
    by rewrite (get_task_id _ _ _ Hget).
Qed.

(** ** [update_priority] and the aging pass *)

(** The task [update_priority] saves. *)
Definition reprioritized (now : Z) (new_priority : Priority.t) (is_boost : bool)
    (t : Task.t) : Task.t :=
  let t := Task.set_updated_at now
             (Task.set_sort_priority (Priority.to_int new_priority)
                (Task.set_priority new_priority t)) in
  if is_boost then Task.set_boost_count (Task.boost_count t + 1) t else t.

Lemma reprioritized_id now p b t :
  Task.task_id (reprioritized now p b t) = Task.task_id t.
Proof. by destruct t, b. Qed.



Lemma update_priority_missing now id p b (w : World) :
  QueueDatabase.get_task id (db w) = None →
  PriorityQueue.update_priority now id p b w = (false, w).
Proof. intros H. unfold PriorityQueue.update_priority. unfold_M. by rewrite H. Qed.

Lemma update_priority_db now id p b (w : World) (t : Task.t) :
  QueueDatabase.get_task id (db w) = Some t →
  (PriorityQueue.update_priority now id p b w).1 = true
  ∧ db (PriorityQueue.update_priority now id p b w).2
    = QueueDatabase.save_task (reprioritized now p b t)
        (QueueDatabase.record_history now id
           (if b then "priority_boost" else "priority_change")
           (Some (Priority.name (Task.priority t))) (Some (Priority.name p)) (db w)).
Proof.
  intros H. unfold PriorityQueue.update_priority, PriorityQueue._rebuild_heap.
  unfold_M. rewrite H.
  destruct b; simpl; destruct (PyDict.contains _ _); simpl; split; try reflexivity;
    by destruct t.
Qed.

Section Aging.
Variable now : Z.


(** A pass leaves alone every task for which it computes no truthy
    priority. *)
Lemma boost_loop_preserves (l : list Task.t) (n : Z) (w : World) (id : string) :
  Forall (λ t, Task.task_id t = id →
               ∀ p, PriorityQueue.new_priority_for now t = Some p →
                    Priority.truthy p = false) l →
  QueueDatabase.get_task id (db (PriorityQueue.boost_loop now l n w).2)
  = QueueDatabase.get_task id (db w).
Proof.
  intros Hl. revert n w. induction Hl as [|t l Ht _ IH]; intros n w; simpl; [done|].
  destruct (PriorityQueue.new_priority_for now t) as [p|] eqn:Hnew; [|by apply IH].
  destruct (Priority.truthy p) eqn:Htr; [|by apply IH].
  unfold_M.
  destruct (PriorityQueue.update_priority now (Task.task_id t) p true w)
    as [b w'] eqn:Hup.
  rewrite IH.
  destruct (QueueDatabase.get_task (Task.task_id t) (db w)) as [t0|] eqn:Hget.
  - destruct (update_priority_db now _ p true w t0 Hget) as [_ Hdb].
    rewrite Hup in Hdb. cbn [snd] in Hdb. rewrite Hdb.
    rewrite get_task_save_ne; [reflexivity|].
    rewrite reprioritized_id, (get_task_id _ _ _ Hget).
    intros Heq. specialize (Ht Heq p eq_refl). congruence.
  - rewrite update_priority_missing in Hup by done. by simplify_eq.
Qed.



(** A task whose computed priority is absent or falsy is skipped. *)
Lemma boost_loop_skip (l : list Task.t) (n : Z) (w : World) :
  Forall (λ t, ∀ p, PriorityQueue.new_priority_for now t = Some p →
                    Priority.truthy p = false) l →
  PriorityQueue.boost_loop now l n w = (n, w).
Proof.
  induction 1 as [|t l Ht _ IH]; simpl; [done|].
  destruct (PriorityQueue.new_priority_for now t) as [p|]; [|exact IH].
  by rewrite (Ht p eq_refl).
Qed.


End Aging.

(** ** The pending tasks of a store *)

Lemma pending_ids_NoDup (d : QueueDatabase.t) :
  unique_ids d → NoDup (Task.task_id <$> QueueDatabase.get_pending_tasks d).
Proof.
  intros Hnd. unfold QueueDatabase.get_pending_tasks.
  rewrite <-list_fmap_compose.
  rewrite (list_fmap_ext _ TasksRow.task_id) by (intros; apply row_to_task_id).
  rewrite order_by_perm. by apply NoDup_fmap_filter.
Qed.

Lemma elem_of_pending (d : QueueDatabase.t) (r : TasksRow.t) :
  r ∈ QueueDatabase.tasks d → TasksRow.status r = "pending" →
  QueueDatabase._row_to_task r ∈ QueueDatabase.get_pending_tasks d.
Proof.
  intros Hin Hst. unfold QueueDatabase.get_pending_tasks.
  apply list_elem_of_fmap_2. apply elem_of_order_by. by apply list_elem_of_filter.
Qed.

Lemma pending_inv (d : QueueDatabase.t) (t : Task.t) :
  t ∈ QueueDatabase.get_pending_tasks d →
  ∃ r, t = QueueDatabase._row_to_task r ∧ r ∈ QueueDatabase.tasks d
       ∧ TasksRow.status r = "pending".
Proof.
  unfold QueueDatabase.get_pending_tasks.
  intros (r & -> & Hr)%list_elem_of_fmap.
  apply elem_of_order_by, list_elem_of_filter in Hr as [? ?]. eauto.
Qed.

(** ** [heapq] keeps the elements *)

Section ListInsert.
Context {A : Type}.

Lemma insert_lookup_perm (l : list A) (i : nat) (x y : A) :
  l !! i = Some y → x :: l ≡ₚ y :: <[i := x]> l.
Proof.
  revert i. induction l as [|a l IH]; intros [|i] Hi; simplify_eq/=.
  - apply Permutation_swap.
  - rewrite (Permutation_swap a x l), (IH i Hi). apply Permutation_swap.
Qed.

(** Writing [y] over position [i] and then [x] over the position [j]
    that held [y] moves [y] from [j] to [i]. *)
Lemma insert_insert_move_perm (l : list A) (i j : nat) (x y z : A) :
  i ≠ j → l !! i = Some z → l !! j = Some y →
  <[j := x]> (<[i := y]> l) ≡ₚ <[i := x]> l.
Proof.
  intros Hne Hi Hj.
  assert ((<[i := y]> l) !! j = Some y) as Hj' by by rewrite list_lookup_insert_ne.
  pose proof (insert_lookup_perm _ _ x _ Hj') as H1.
  pose proof (insert_lookup_perm _ _ y _ Hi) as H2.
  pose proof (insert_lookup_perm _ _ x _ Hi) as H3.
  apply (Permutation_app_inv_l [z; y]). simpl.
  rewrite <-H1, (Permutation_swap x z), <-H2.
  rewrite (Permutation_swap y x), H3. apply Permutation_swap.
Qed.
End ListInsert.

Section HeapPerm.
Context {T : Type} (lt : T → T → bool).

Lemma _siftdown_loop_perm (fuel : nat) (heap : list T) (newitem : T)
    (startpos pos : nat) :
  is_Some (heap !! pos) →
  heapq._siftdown_loop lt fuel heap newitem startpos pos ≡ₚ <[pos := newitem]> heap.
Proof.
  revert heap pos.
  induction fuel as [|fuel IH]; intros heap pos [z Hz]; cbn [heapq._siftdown_loop].
  { reflexivity. }
  destruct (startpos <? pos)%nat eqn:Hlt; [|reflexivity].
  apply Nat.ltb_lt in Hlt.
  destruct (heap !! ((pos - 1) / 2)%nat) as [parent|] eqn:Hp; [|reflexivity].
  destruct (lt newitem parent); [|reflexivity].
  assert ((pos - 1) / 2 < pos)%nat as Hpp.
  { apply Nat.Div0.div_lt_upper_bound. lia. }
  rewrite IH.
  - apply (insert_insert_move_perm _ _ _ _ _ z); [lia|done|done].
  - rewrite list_lookup_insert_ne by lia. by eexists.
Qed.

Lemma _siftdown_perm (heap : list T) (startpos pos : nat) :
  heapq._siftdown lt heap startpos pos ≡ₚ heap.
Proof.
  unfold heapq._siftdown. destruct (heap !! pos) as [newitem|] eqn:Hpos; [|done].
  rewrite _siftdown_loop_perm by by eexists.
  by rewrite list_insert_id.
Qed.

Lemma heappush_perm (heap : list T) (item : T) :
  heapq.heappush lt heap item ≡ₚ item :: heap.
Proof.
  unfold heapq.heappush. rewrite _siftdown_perm.
  symmetry. apply Permutation_cons_append.
Qed.

Lemma _siftup_loop_perm (fuel : nat) (newitem : T) :
  ∀ (heap : list T) (endpos pos childpos : nat),
  is_Some (heap !! pos) → (pos < childpos)%nat →
  let r := heapq._siftup_loop lt fuel heap endpos pos childpos in
  is_Some (r.1 !! r.2) ∧ <[r.2 := newitem]> r.1 ≡ₚ <[pos := newitem]> heap.
Proof.
  induction fuel as [|fuel IH]; intros heap endpos pos childpos [z Hz] Hlt;
    cbn [heapq._siftup_loop]; cbn zeta.
  { split; [by eexists|done]. }
  destruct (childpos <? endpos)%nat; [|split; [by eexists|done]].
  set (c := if ((childpos + 1 <? endpos)%nat
                && negb (heapq.lt_at lt heap childpos (childpos + 1)))%bool
            then (childpos + 1)%nat else childpos).
  assert (pos < c)%nat as Hc by (unfold c; destruct (_ && _)%bool; lia).
  destruct (heap !! c) as [child|] eqn:Hchild; [|split; [by eexists|done]].
  destruct (IH (<[pos := child]> heap) endpos c (2 * c + 1)%nat) as [H1 H2];
    [rewrite list_lookup_insert_ne by lia; by eexists|lia|].
  split; [exact H1|]. cbn zeta in H2. rewrite H2.
  apply (insert_insert_move_perm _ _ _ _ _ z); [lia|done|done].
Qed.

Lemma _siftup_perm (heap : list T) (pos : nat) : heapq._siftup lt heap pos ≡ₚ heap.
Proof.
  unfold heapq._siftup. destruct (heap !! pos) as [newitem|] eqn:Hpos; [|done].
  destruct (_siftup_loop_perm (length heap) newitem heap (length heap) pos (2 * pos + 1))
    as [_ H]; [by eexists|lia|].
  cbn zeta in H. destruct (heapq._siftup_loop _ _ _ _ _ _) as [heap' pos'].
  cbn [fst snd] in H. rewrite _siftdown_perm, H. by rewrite list_insert_id.
Qed.

Lemma heappop_perm (heap heap' : list T) (x : T) :
  heapq.heappop lt heap = Some (x, heap') → heap ≡ₚ x :: heap'.
Proof.
  unfold heapq.heappop. destruct (last heap) as [lastelt|] eqn:Hlast; [|done].
  apply last_Some in Hlast as [l' ->]. rewrite removelast_last.
  destruct l' as [|y l']; intros [= <- <-]; [done|].
  rewrite _siftup_perm. cbn. by rewrite <-Permutation_cons_append.
Qed.

Lemma foldl_heappush_perm (l heap : list T) :
  foldl (heapq.heappush lt) heap l ≡ₚ heap ++ l.
Proof.
  revert heap. induction l as [|x l IH]; intros heap; simpl.
  - by rewrite app_nil_r.
  - rewrite IH, heappush_perm. simpl. apply Permutation_middle.
Qed.
End HeapPerm.

(** ** The dictionary *)

Section PyDictFacts.
Context {V : Type}.
Implicit Types d : PyDict.t V.

Lemma pydict_get_set_eq d k v : PyDict.get k (PyDict.set k v d) = Some v.
Proof.
  unfold PyDict.get. induction d as [|[k' v'] d IH]; cbn [PyDict.set].
  - by rewrite filter_cons_True.
  - destruct (decide (k' = k)).
    + by rewrite filter_cons_True.
    + by rewrite filter_cons_False.
Qed.

Lemma pydict_get_set_ne d k k' v :
  k ≠ k' → PyDict.get k' (PyDict.set k v d) = PyDict.get k' d.
Proof.
  intros Hne. unfold PyDict.get. induction d as [|[k0 v0] d IH]; cbn [PyDict.set].
  - by rewrite filter_cons_False.
  - destruct (decide (k0 = k)) as [->|].
    + by rewrite !filter_cons_False.
    + rewrite !filter_cons. cbn [fst]. destruct (decide (k0 = k')); [done|exact IH].
Qed.

Lemma pydict_contains_get d k :
  PyDict.contains k d = true ↔ is_Some (PyDict.get k d).
Proof.
  unfold PyDict.contains, PyDict.get. rewrite bool_decide_eq_true.
  induction d as [|[k0 v0] d IH].
  - split; [by intros ?%elem_of_nil|by intros [? ?]].
  - rewrite fmap_cons, filter_cons. cbn [fst].
    destruct (decide (k0 = k)) as [->|Hne].
    + split; [by eexists|]. intros _. apply list_elem_of_here.
    + rewrite elem_of_cons, IH. split; [intros [?|?]; [congruence|done]|by right].
Qed.
End PyDictFacts.

(** ** Loading the queue from the store *)

Definition index_tasks (m : PyDict.t Task.t) (l : list Task.t) : PyDict.t Task.t :=
  foldl (λ m t, PyDict.set (Task.task_id t) t m) m l.

Lemma index_tasks_other (l : list Task.t) (m : PyDict.t Task.t) (id : string) :
  id ∉ Task.task_id <$> l → PyDict.get id (index_tasks m l) = PyDict.get id m.
Proof.
  revert m. induction l as [|t l IH]; intros m Hid; [done|].
  rewrite fmap_cons in Hid. apply not_elem_of_cons in Hid as [Hne Hid].
  cbn [index_tasks foldl]. fold (index_tasks (PyDict.set (Task.task_id t) t m) l).
  rewrite IH by done. by apply pydict_get_set_ne.
Qed.

Lemma index_tasks_get (l : list Task.t) (m : PyDict.t Task.t) (t : Task.t) :
  NoDup (Task.task_id <$> l) → t ∈ l →
  PyDict.get (Task.task_id t) (index_tasks m l) = Some t.
Proof.
  revert m. induction l as [|a l IH]; intros m Hnd Hin; [by apply elem_of_nil in Hin|].
  rewrite fmap_cons in Hnd. apply NoDup_cons in Hnd as [Ha Hnd].
  cbn [index_tasks foldl]. fold (index_tasks (PyDict.set (Task.task_id a) a m) l).
  apply elem_of_cons in Hin as [->|Hin].
  - rewrite index_tasks_other by done. apply pydict_get_set_eq.
  - by apply IH.
Qed.

Lemma load_loop_spec (l : list Task.t) (w : World) :
  for_each l (λ task, PriorityQueue.map_set task ;; PriorityQueue.heap_push task) w
  = (tt, set_task_map (index_tasks (_task_map w) l)
           (set_heap (foldl (heapq.heappush Task.lt) (_heap w) l) w)).
Proof.
  revert w. induction l as [|t l IH]; intros w; cbn [for_each].
  - by destruct w.
  - unfold PriorityQueue.map_set, PriorityQueue.heap_push in *. unfold_M.
    rewrite IH. by destruct w.
Qed.

Lemma _load_from_db_spec (w : World) :
  PriorityQueue._load_from_db w
  = (tt, set_task_map (index_tasks [] (QueueDatabase.get_pending_tasks (db w)))
           (set_heap (foldl (heapq.heappush Task.lt) []
                        (QueueDatabase.get_pending_tasks (db w))) w)).
Proof.
  unfold PriorityQueue._load_from_db.
  unfold mbind, M_bind, modify, db_query.
  rewrite load_loop_spec. by destruct w.
Qed.

(** ** Batching *)

(** The identifier [_generate_batch_id] builds when the counter reaches
    [ctr]. *)
Definition batch_name (now ctr : Z) : string :=
  "batch_" +:+ pretty (now ÷ 1000000) +:+ "_" +:+ pretty ctr.

Lemma _generate_batch_id_spec (now : Z) (w : World) :
  BatchProcessor._generate_batch_id now w
  = (batch_name now (_batch_counter w + 1), set_batch_counter (_batch_counter w + 1) w).
Proof. reflexivity. Qed.

Section Packing.
Variables (now : Z) (category : string) (priority : Priority.t).

Definition tagged (b : Batch.t) (t : Task.t) : Task.t :=
  Task.set_batch_id (Some (Batch.batch_id b)) t.

Definition fresh_batch (ctr : Z) : Batch.t :=
  Batch.new now (batch_name now ctr) category priority.

(** What the packing loop computes, without the store: the closed
    batches [done], the open batch [cur], the counter; the result is the
    final list of batches, the final counter and the tasks saved, in the
    order they are saved. *)
Fixpoint packed (ts : list Task.t) (done : list Batch.t) (cur : option Batch.t) (ctr : Z)
    : list Batch.t * Z * list Task.t :=
  match ts with
  | [] => (done ++ option_list cur, ctr, [])
  | t :: ts' =>
      let '(done, b, ctr) :=
        match cur with
        | Some b =>
            if (BATCH_SIZE_LIMIT <=? length (Batch.tasks b))%nat
            then (done ++ [b], fresh_batch (ctr + 1), ctr + 1)
            else (done, b, ctr)
        | None => (done, fresh_batch (ctr + 1), ctr + 1)
        end in
      let t' := tagged b t in
      let '(bs, ctr', saved) :=
        packed ts' done (Some (Batch.set_tasks (Batch.tasks b ++ [t']) b)) ctr in
      (bs, ctr', t' :: saved)
  end.

Definition save_all (d : QueueDatabase.t) (saved : list Task.t) : QueueDatabase.t :=
  foldl (λ d t, QueueDatabase.save_task t d) d saved.

(** One iteration, on a state whose open batch is the last of the list. *)
Lemma pack_task_step (done : list Batch.t) (b : Batch.t) (t : Task.t) (w : World) :
  Batch.category b = category → Task.category t = category →
  (length (Batch.tasks b) < BATCH_SIZE_LIMIT)%nat →
  ∃ w', BatchProcessor.pack_task now category priority
          (done ++ [b], Some (length done)) t w
        = ((done ++ [Batch.set_tasks (Batch.tasks b ++ [tagged b t]) b], Some (length done)), w')
        ∧ db w' = QueueDatabase.save_task (tagged b t) (db w)
        ∧ _batch_counter w' = _batch_counter w
        ∧ _heap w' = _heap w ∧ _task_map w' = _task_map w ∧ files w' = files w.
Proof.
  intros Hb Ht Hlen. unfold BatchProcessor.pack_task, BatchProcessor.needs_new_batch.
  cbn [fst snd]. rewrite list_lookup_middle by done.
  destruct (Nat.leb_spec BATCH_SIZE_LIMIT (length (Batch.tasks b))) as [|_]; [lia|].
  unfold_M. cbn [fst snd]. rewrite list_lookup_middle by done.
  unfold Batch.add_task.
  destruct (Nat.leb_spec BATCH_SIZE_LIMIT (length (Batch.tasks b))) as [|_]; [lia|].
  rewrite Ht, Hb, String.eqb_refl. cbn [negb].
  rewrite insert_app_r_alt by done. rewrite Nat.sub_diag.
  eexists. split; [reflexivity|]. repeat split; reflexivity.
Qed.

(** An iteration that opens a batch continues as one on the state with
    the new batch. *)
Lemma pack_task_open (st : BatchProcessor.locals) (t : Task.t) (w : World) :
  BatchProcessor.needs_new_batch st = true →
  BatchProcessor.pack_task now category priority st t w
  = BatchProcessor.pack_task now category priority
      (st.1 ++ [fresh_batch (_batch_counter w + 1)], Some (length st.1)) t
      (set_batch_counter (_batch_counter w + 1) w).
Proof.
  intros Hnew. unfold BatchProcessor.pack_task. rewrite Hnew.
  assert (BatchProcessor.needs_new_batch
            (st.1 ++ [fresh_batch (_batch_counter w + 1)], Some (length st.1)) = false)
    as ->.
  { unfold BatchProcessor.needs_new_batch. cbn [fst snd].
    by rewrite list_lookup_middle. }
  reflexivity.
Qed.

Lemma pack_tasks_packed (ts : list Task.t) :
  ∀ (done : list Batch.t) (cur : option Batch.t) (w : World),
  Forall (λ t, Task.category t = category) ts →
  (∀ b, cur = Some b → Batch.category b = category) →
  let r := BatchProcessor.pack_tasks now category priority ts
             (done ++ option_list cur, (λ _, length done) <$> cur) w in
  r.1.1 = (packed ts done cur (_batch_counter w)).1.1
  ∧ _batch_counter r.2 = (packed ts done cur (_batch_counter w)).1.2
  ∧ db r.2 = save_all (db w) (packed ts done cur (_batch_counter w)).2
  ∧ _heap r.2 = _heap w ∧ _task_map r.2 = _task_map w ∧ files r.2 = files w.
Proof.
  induction ts as [|t ts IH]; intros done cur w Hts Hcur; cbn zeta.
  { repeat split; reflexivity. }
  apply Forall_cons in Hts as [Ht Hts].
  cbn [BatchProcessor.pack_tasks packed]. unfold mbind, M_bind.
  (* the state after opening a batch if one is needed *)
  assert (∃ done' b' w1,
    (match cur with
     | Some b =>
         if (BATCH_SIZE_LIMIT <=? length (Batch.tasks b))%nat
         then (done ++ [b], fresh_batch (_batch_counter w + 1), _batch_counter w + 1)
         else (done, b, _batch_counter w)
     | None => (done, fresh_batch (_batch_counter w + 1), _batch_counter w + 1)
     end) = (done', b', _batch_counter w1)
    ∧ BatchProcessor.pack_task now category priority
        (done ++ option_list cur, (λ _, length done) <$> cur) t w
      = BatchProcessor.pack_task now category priority
          (done' ++ [b'], Some (length done')) t w1
    ∧ Batch.category b' = category
    ∧ (length (Batch.tasks b') < BATCH_SIZE_LIMIT)%nat
    ∧ db w1 = db w ∧ _heap w1 = _heap w ∧ _task_map w1 = _task_map w
    ∧ files w1 = files w) as (done' & b' & w1 & -> & -> & Hb' & Hlen & Hdb1 & Hh1 & Hm1 & Hf1).
  { destruct cur as [b|]; cbn [fmap option_fmap option_map].
    - change (option_list (Some b)) with [b].
      destruct (Nat.leb_spec BATCH_SIZE_LIMIT (length (Batch.tasks b))) as [Hfull|Hroom].
      + exists (done ++ [b]), (fresh_batch (_batch_counter w + 1)),
          (set_batch_counter (_batch_counter w + 1) w).
        split; [reflexivity|]. split; [|repeat split; first [reflexivity | unfold BATCH_SIZE_LIMIT; cbn; lia]].
        rewrite pack_task_open; [reflexivity|].
        unfold BatchProcessor.needs_new_batch. cbn [fst snd].
        rewrite list_lookup_middle by done. by apply Nat.leb_le.
      + exists done, b, w. split; [reflexivity|]. split; [reflexivity|].
        split; [by apply Hcur|]. repeat split; done.
    - change (option_list None) with (@nil Batch.t). rewrite app_nil_r.
      exists done, (fresh_batch (_batch_counter w + 1)),
        (set_batch_counter (_batch_counter w + 1) w).
      split; [reflexivity|]. split; [|repeat split; first [reflexivity | unfold BATCH_SIZE_LIMIT; cbn; lia]].
      by rewrite pack_task_open. }
  destruct (pack_task_step done' b' t w1 Hb' Ht Hlen)
    as (w2 & -> & Hdb2 & Hc2 & Hh2 & Hm2 & Hf2).
  specialize (IH done' (Some (Batch.set_tasks (Batch.tasks b' ++ [tagged b' t]) b')) w2 Hts).
  cbn zeta in IH. cbn [fmap option_fmap option_map] in IH.
  change (option_list (Some ?x)) with [x] in IH.
  rewrite Hc2 in IH.
  destruct IH as (IH1 & IH2 & IH3 & IH4 & IH5 & IH6); [by intros ? [= <-]|].
  destruct (packed ts done' _ (_batch_counter w1)) as [[bs ctr'] saved].
  cbn [fst snd] in *. rewrite IH1, IH2, IH3, IH4, IH5, IH6, Hdb2, Hh2, Hm2, Hf2.
  rewrite Hdb1, Hh1, Hm1, Hf1. repeat split; reflexivity.
Qed.
End Packing.

Section PackedFacts.
Variables (now : Z) (category : string) (priority : Priority.t).

(** A batch as the loop builds it: of the group's category and tier,
    every member tagged with the batch's identifier. *)
Definition well_tagged (b : Batch.t) : Prop :=
  Batch.category b = category ∧ Batch.priority b = priority
  ∧ Forall (λ t, Task.batch_id t = Some (Batch.batch_id b)) (Batch.tasks b).

Lemma tagged_batch_id (b : Batch.t) (t : Task.t) :
  Task.batch_id (tagged b t) = Some (Batch.batch_id b).
Proof. by destruct t. Qed.

Lemma well_tagged_fresh (ctr : Z) : well_tagged (fresh_batch now category priority ctr).
Proof. repeat split. apply Forall_nil_2. Qed.

Lemma well_tagged_add (b : Batch.t) (t : Task.t) :
  well_tagged b → well_tagged (Batch.set_tasks (Batch.tasks b ++ [tagged b t]) b).
Proof.
  intros (Hc & Hp & Hts). repeat split; [done|done|]. cbn.
  apply Forall_app. split; [exact Hts|].
  apply Forall_singleton, tagged_batch_id.
Qed.

Lemma packed_well_tagged (ts : list Task.t) :
  ∀ done cur ctr,
  Forall well_tagged done → (∀ b, cur = Some b → well_tagged b) →
  Forall well_tagged (packed now category priority ts done cur ctr).1.1.
Proof.
  induction ts as [|t ts IH]; intros done cur ctr Hdone Hcur; cbn [packed].
  { cbn [fst]. apply Forall_app. split; [done|].
    destruct cur as [b|]; [apply Forall_singleton; by apply Hcur|apply Forall_nil_2]. }
  destruct cur as [b|]; [destruct (_ <=? _)%nat|].
  - specialize (IH (done ++ [b])
      (Some (Batch.set_tasks
               (Batch.tasks (fresh_batch now category priority (ctr + 1))
                ++ [tagged (fresh_batch now category priority (ctr + 1)) t])
               (fresh_batch now category priority (ctr + 1)))) (ctr + 1)).
    destruct (packed _ _ _ _ _ _ _) as [[bs c'] sv]. apply IH.
    + apply Forall_app. split; [done|]. apply Forall_singleton. by apply Hcur.
    + intros ? [= <-].
      apply (well_tagged_add (fresh_batch now category priority (ctr + 1)) t), well_tagged_fresh.
  - specialize (IH done (Some (Batch.set_tasks (Batch.tasks b ++ [tagged b t]) b)) ctr).
    destruct (packed _ _ _ _ _ _ _) as [[bs c'] sv]. apply IH; [done|].
    intros ? [= <-]. apply well_tagged_add. by apply Hcur.
  - specialize (IH done
      (Some (Batch.set_tasks
               (Batch.tasks (fresh_batch now category priority (ctr + 1))
                ++ [tagged (fresh_batch now category priority (ctr + 1)) t])
               (fresh_batch now category priority (ctr + 1)))) (ctr + 1)).
    destruct (packed _ _ _ _ _ _ _) as [[bs c'] sv]. apply IH; [done|].
    intros ? [= <-].
      apply (well_tagged_add (fresh_batch now category priority (ctr + 1)) t), well_tagged_fresh.
Qed.

(** The members of the batches are the members there were and the tasks
    saved, in order. *)
Lemma packed_concat (ts : list Task.t) :
  ∀ done cur ctr,
  concat (Batch.tasks <$> (packed now category priority ts done cur ctr).1.1)
  = concat (Batch.tasks <$> done) ++ from_option Batch.tasks [] cur
    ++ (packed now category priority ts done cur ctr).2.
Proof.
  induction ts as [|t ts IH]; intros done cur ctr; cbn [packed].
  { cbn [fst snd]. rewrite fmap_app, concat_app, app_nil_r.
    destruct cur; cbn; by rewrite ?app_nil_r. }
  destruct cur as [b|]; [destruct (_ <=? _)%nat|].
  - specialize (IH (done ++ [b])
      (Some (Batch.set_tasks
               (Batch.tasks (fresh_batch now category priority (ctr + 1))
                ++ [tagged (fresh_batch now category priority (ctr + 1)) t])
               (fresh_batch now category priority (ctr + 1)))) (ctr + 1)).
    destruct (packed _ _ _ _ _ _ _) as [[bs c'] sv]. cbn [fst snd] in *.
    rewrite IH, fmap_app, concat_app. cbn. by rewrite app_nil_r, <-app_assoc.
  - specialize (IH done (Some (Batch.set_tasks (Batch.tasks b ++ [tagged b t]) b)) ctr).
    destruct (packed _ _ _ _ _ _ _) as [[bs c'] sv]. cbn [fst snd] in *.
    rewrite IH. cbn. by rewrite <-app_assoc.
  - specialize (IH done
      (Some (Batch.set_tasks
               (Batch.tasks (fresh_batch now category priority (ctr + 1))
                ++ [tagged (fresh_batch now category priority (ctr + 1)) t])
               (fresh_batch now category priority (ctr + 1)))) (ctr + 1)).
    destruct (packed _ _ _ _ _ _ _) as [[bs c'] sv]. cbn [fst snd] in *.
    rewrite IH. reflexivity.
Qed.

(** Each task saved is a task of the list with its batch reference set. *)
Lemma packed_saved (ts : list Task.t) :
  ∀ done cur ctr,
  Forall2 (λ t t', ∃ bid, t' = Task.set_batch_id (Some bid) t) ts
    (packed now category priority ts done cur ctr).2.
Proof.
  induction ts as [|t ts IH]; intros done cur ctr; cbn [packed].
  { apply Forall2_nil_2. }
  destruct cur as [b|]; [destruct (_ <=? _)%nat|].
  - specialize (IH (done ++ [b])
      (Some (Batch.set_tasks
               (Batch.tasks (fresh_batch now category priority (ctr + 1))
                ++ [tagged (fresh_batch now category priority (ctr + 1)) t])
               (fresh_batch now category priority (ctr + 1)))) (ctr + 1)).
    destruct (packed _ _ _ _ _ _ _) as [[bs c'] sv]. cbn [fst snd] in *.
    constructor; [by eexists|exact IH].
  - specialize (IH done (Some (Batch.set_tasks (Batch.tasks b ++ [tagged b t]) b)) ctr).
    destruct (packed _ _ _ _ _ _ _) as [[bs c'] sv]. cbn [fst snd] in *.
    constructor; [by eexists|exact IH].
  - specialize (IH done
      (Some (Batch.set_tasks
               (Batch.tasks (fresh_batch now category priority (ctr + 1))
                ++ [tagged (fresh_batch now category priority (ctr + 1)) t])
               (fresh_batch now category priority (ctr + 1)))) (ctr + 1)).
    destruct (packed _ _ _ _ _ _ _) as [[bs c'] sv]. cbn [fst snd] in *.
    constructor; [by eexists|exact IH].
Qed.

Lemma packed_saved_ids (ts : list Task.t) done cur ctr :
  Task.task_id <$> (packed now category priority ts done cur ctr).2
  = Task.task_id <$> ts.
Proof.
  pose proof (packed_saved ts done cur ctr) as H.
  induction H as [|t t' l l' [bid ->] _ IH]; [done|].
  rewrite !fmap_cons, IH. by destruct t.
Qed.
End PackedFacts.

(** Saving a list of tasks. *)
Lemma get_task_tasks_eq (id : string) (d d' : QueueDatabase.t) :
  QueueDatabase.tasks d = QueueDatabase.tasks d' →
  QueueDatabase.get_task id d = QueueDatabase.get_task id d'.
Proof. unfold QueueDatabase.get_task. by intros ->. Qed.

Lemma get_task_save_all (saved : list Task.t) (d : QueueDatabase.t) (t : Task.t) :
  NoDup (Task.task_id <$> saved) → t ∈ saved →
  QueueDatabase.get_task (Task.task_id t) (save_all d saved)
  = Some (QueueDatabase._row_to_task (QueueDatabase.row_of_task t)).
Proof.
  revert d. induction saved as [|a saved IH]; intros d Hnd Hin;
    [by apply elem_of_nil in Hin|].
  rewrite fmap_cons in Hnd. apply NoDup_cons in Hnd as [Ha Hnd].
  cbn [save_all foldl]. fold (save_all (QueueDatabase.save_task a d) saved).
  apply elem_of_cons in Hin as [->|Hin]; [|by apply IH].
  clear IH. revert d. induction saved as [|b saved IH]; intros d.
  - apply get_task_save_eq.
  - rewrite fmap_cons in Ha, Hnd. apply not_elem_of_cons in Ha as [Hne Ha].
    apply NoDup_cons in Hnd as [_ Hnd].
    cbn [save_all foldl].
    fold (save_all (QueueDatabase.save_task b (QueueDatabase.save_task a d)) saved).
    assert (∀ d0, QueueDatabase.get_task (Task.task_id a) d0
                  = Some (QueueDatabase._row_to_task (QueueDatabase.row_of_task a)) →
                  QueueDatabase.get_task (Task.task_id a) (save_all d0 saved)
                  = Some (QueueDatabase._row_to_task (QueueDatabase.row_of_task a))) as Hkeep.
    { clear IH Hne. induction saved as [|c saved IHs]; intros d0 Hd0; [done|].
      rewrite fmap_cons in Ha, Hnd. apply not_elem_of_cons in Ha as [Hne Ha].
      apply NoDup_cons in Hnd as [_ Hnd].
      cbn [save_all foldl]. fold (save_all (QueueDatabase.save_task c d0) saved).
      apply IHs; [done|done|]. by rewrite get_task_save_ne. }
    apply Hkeep. rewrite get_task_save_ne by done. apply get_task_save_eq.
Qed.

Lemma row_round_trip_batch_id (t : Task.t) :
  Task.batch_id (QueueDatabase._row_to_task (QueueDatabase.row_of_task t)) = Task.batch_id t.
Proof.
  unfold QueueDatabase._row_to_task, Task.__post_init__; simpl.
  repeat (case_match; simpl); reflexivity.
Qed.

Section Grouping.
Variable now : Z.

(** The pending tasks of one category and one tier, as [create_batches]
    selects them. *)
Definition group_tasks (p : Priority.t) (c : string) (d : QueueDatabase.t) : list Task.t :=
  filter (λ t, Task.priority t = p)
    (QueueDatabase.get_tasks_by_category c (Some TaskStatus.PENDING) d).

Lemma group_tasks_rows (p : Priority.t) (c : string) (d : QueueDatabase.t) :
  group_tasks p c d
  = QueueDatabase._row_to_task <$>
      filter (λ r, TasksRow.priority r = p)
        (order_by QueueDatabase.le_priority
           (filter (λ r, TasksRow.category r = c ∧ TasksRow.status r = "pending")
              (QueueDatabase.tasks d))).
Proof.
  unfold group_tasks, QueueDatabase.get_tasks_by_category.
  destruct (decide (TaskStatus.PENDING = "")) as [?|_]; [done|].
  unfold TaskStatus.PENDING.
  generalize (order_by QueueDatabase.le_priority
                (filter (λ r, TasksRow.category r = c ∧ TasksRow.status r = "pending")
                   (QueueDatabase.tasks d))).
  intros l. induction l as [|r l IH]; [done|].
  rewrite fmap_cons, !filter_cons, row_to_task_priority.
  destruct (decide (TasksRow.priority r = p)); by rewrite ?fmap_cons, IH.
Qed.

Lemma group_tasks_inv (p : Priority.t) (c : string) (d : QueueDatabase.t) (t : Task.t) :
  t ∈ group_tasks p c d →
  ∃ r, r ∈ QueueDatabase.tasks d ∧ t = QueueDatabase._row_to_task r
       ∧ TasksRow.category r = c ∧ TasksRow.status r = "pending"
       ∧ TasksRow.priority r = p.
Proof.
  rewrite group_tasks_rows. intros (r & -> & Hr)%list_elem_of_fmap.
  apply list_elem_of_filter in Hr as [Hp Hr].
  apply elem_of_order_by, list_elem_of_filter in Hr as [[Hc Hs] Hr].
  by exists r.
Qed.

Lemma group_tasks_category (p : Priority.t) (c : string) (d : QueueDatabase.t) :
  Forall (λ t, Task.category t = c) (group_tasks p c d).
Proof.
  apply Forall_forall. intros t (r & _ & -> & Hc & _)%group_tasks_inv.
  by rewrite row_to_task_category.
Qed.

Lemma batch_group_skip (p : Priority.t) (c : string) (bs : list Batch.t) (w : World) :
  group_tasks p c (db w) = [] →
  BatchProcessor.batch_group now p c bs w = (bs, w).
Proof.
  intros H. unfold BatchProcessor.batch_group. unfold_M.
  fold (group_tasks p c (db w)). by rewrite H.
Qed.

Lemma batch_group_spec (p : Priority.t) (c : string) (bs : list Batch.t) (w : World) :
  let r := BatchProcessor.batch_group now p c bs w in
  let pk := packed now c p (group_tasks p c (db w)) bs None (_batch_counter w) in
  r.1 = pk.1.1
  ∧ QueueDatabase.tasks (db r.2) = QueueDatabase.tasks (save_all (db w) pk.2)
  ∧ QueueDatabase.task_history (db r.2) = QueueDatabase.task_history (save_all (db w) pk.2)
  ∧ _heap r.2 = _heap w ∧ _task_map r.2 = _task_map w ∧ files r.2 = files w.
Proof.
  cbn zeta.
  destruct (group_tasks p c (db w)) as [|t ts] eqn:Hg.
  { rewrite batch_group_skip by done. cbn. by rewrite app_nil_r. }
  pose proof (group_tasks_category p c (db w)) as Hcat. rewrite Hg in Hcat.
  destruct (pack_tasks_packed now c p (t :: ts) bs None w Hcat)
    as (H1 & H2 & H3 & H4 & H5 & H6); [done|].
  change (option_list None) with (@nil Batch.t) in *.
  rewrite app_nil_r in H1, H2, H3, H4, H5, H6.
  cbn [fmap option_fmap option_map] in *.
  destruct (BatchProcessor.batch_group now p c bs w) as [bs' w'] eqn:Hbg.
  unfold BatchProcessor.batch_group in Hbg.
  unfold mbind at 1, M_bind at 1, db_query at 1 in Hbg.
  fold (group_tasks p c (db w)) in Hbg. rewrite Hg in Hbg.
  unfold mbind, M_bind in Hbg.
  destruct (BatchProcessor.pack_tasks now c p (t :: ts) (bs, None) w) as [st w1].
  cbn [fst snd] in *.
  destruct st as [bs1 [i|]]; cbn [fst snd] in *;
    [destruct (bs1 !! i) as [b|]|];
    unfold db_commit, mret, M_ret in Hbg; injection Hbg as <- <-;
    rewrite <-H1, <-H3; repeat split; done.
Qed.

End Grouping.

(** Twenty-five tasks fill two batches and half of a third. *)
Lemma packed_sizes_25 (now : Z) (c : string) (p : Priority.t) (ts : list Task.t) (ctr : Z) :
  length ts = 25%nat →
  (length ∘ Batch.tasks) <$> (packed now c p ts [] None ctr).1.1 = [10; 10; 5]%nat.
Proof.
  intros Hlen.
  do 25 (destruct ts as [|? ts]; [discriminate Hlen|]).
  destruct ts; [|discriminate Hlen]. reflexivity.
Qed.

Lemma batch_name_inj (now a b : Z) : batch_name now a = batch_name now b → a = b.
Proof.
  unfold batch_name. intros H.
  do 3 apply (inj (String.app _)) in H. by apply (inj pretty) in H.
Qed.

Lemma packed_ids_25 (now : Z) (c : string) (p : Priority.t) (ts : list Task.t) (ctr : Z) :
  length ts = 25%nat →
  Batch.batch_id <$> (packed now c p ts [] None ctr).1.1
  = [batch_name now (ctr + 1); batch_name now (ctr + 1 + 1); batch_name now (ctr + 1 + 1 + 1)].
Proof.
  intros Hlen.
  do 25 (destruct ts as [|? ts]; [discriminate Hlen|]).
  destruct ts; [|discriminate Hlen]. reflexivity.
Qed.

(** ** Commits *)

(** The contents [js] are reached from [d] one statement at a time. *)
Fixpoint commits (d : QueueDatabase.t) (js : list QueueDatabase.t) : Prop :=
  match js with
  | [] => True
  | d' :: js' => store_step d d' ∧ commits d' js'
  end.

(** A computation whose commits are each one statement: what it appends to
    the journal is reached from the store one statement at a time and ends
    at the store it leaves. *)
Definition commits_by_steps {A} (m : M A) : Prop :=
  ∀ w, ∃ js, journal (m w).2 = journal w ++ js
             ∧ commits (db w) js
             ∧ db (m w).2 = default (db w) (last js).

Lemma last_cons_default (d d1 : QueueDatabase.t) (js : list QueueDatabase.t) :
  default d (last (d1 :: js)) = default d1 (last js).
Proof.
  destruct js as [|d2 js]; [done|]. rewrite last_cons.
  destruct (last (d2 :: js)) eqn:E; [done|]. by apply last_None in E.
Qed.

Lemma commits_app (d : QueueDatabase.t) (js1 js2 : list QueueDatabase.t) :
  commits d js1 → commits (default d (last js1)) js2 → commits d (js1 ++ js2).
Proof.
  revert d. induction js1 as [|d1 js1 IH]; intros d H1 H2; [exact H2|].
  destruct H1 as [Hs H1]. split; [exact Hs|]. apply IH; [exact H1|].
  by rewrite <-(last_cons_default d).
Qed.

Lemma last_app_default (d : QueueDatabase.t) (js1 js2 : list QueueDatabase.t) :
  default d (last (js1 ++ js2)) = default (default d (last js1)) (last js2).
Proof.
  destruct js2 as [|d2 js2 _] using rev_ind; [by rewrite app_nil_r|].
  by rewrite app_assoc, !last_snoc.
Qed.

Section CommitsBySteps.
Context {A B : Type}.

Lemma commits_state (f : World → A * World) :
  (∀ w, db (f w).2 = db w ∧ journal (f w).2 = journal w) → commits_by_steps (f : M A).
Proof.
  intros Hf w. destruct (Hf w) as [Hd Hj]. exists [].
  by rewrite app_nil_r.
Qed.

Lemma commits_ret (a : A) : commits_by_steps (mret a).
Proof. by apply commits_state. Qed.

Lemma commits_query (q : QueueDatabase.t → A) : commits_by_steps (db_query q).
Proof. by apply commits_state. Qed.

Lemma commits_bind (m : M A) (k : A → M B) :
  commits_by_steps m → (∀ a, commits_by_steps (k a)) → commits_by_steps (m ≫= k).
Proof.
  intros Hm Hk w. unfold mbind, M_bind.
  destruct (Hm w) as (js1 & Hj1 & Hc1 & Hd1). destruct (m w) as [a w1].
  cbn [snd] in *. destruct (Hk a w1) as (js2 & Hj2 & Hc2 & Hd2).
  exists (js1 ++ js2). split; [by rewrite Hj2, Hj1, app_assoc|]. split.
  - apply commits_app; [exact Hc1|]. by rewrite <-Hd1.
  - by rewrite Hd2, Hd1, last_app_default.
Qed.
End CommitsBySteps.

Lemma commits_get_world : commits_by_steps get_world.
Proof. by apply commits_state. Qed.

Lemma commits_modify (f : World → World) :
  (∀ w, db (f w) = db w ∧ journal (f w) = journal w) → commits_by_steps (modify f).
Proof. intros Hf. by apply commits_state. Qed.

Lemma commits_commit (f : QueueDatabase.t → QueueDatabase.t) :
  (∀ d, store_step d (f d)) → commits_by_steps (db_commit f).
Proof.
  intros Hf w. exists [f (db w)]. split; [reflexivity|]. split; [|reflexivity].
  split; [apply Hf|exact I].
Qed.

Create HintDb commits discriminated.
#[local] Hint Resolve commits_ret commits_query commits_get_world : commits.
#[local] Hint Extern 1 (commits_by_steps (_ ≫= _)) =>
  apply commits_bind; [|intros ?] : commits.
#[local] Hint Extern 1 (commits_by_steps (db_commit _)) =>
  apply commits_commit; intros ?; constructor : commits.
#[local] Hint Extern 1 (commits_by_steps (modify _)) =>
  apply commits_modify; intros []; split; reflexivity : commits.
#[local] Hint Extern 2 (commits_by_steps (match ?x with _ => _ end)) =>
  destruct x : commits.

Ltac solve_commits := repeat (progress auto with commits).

Lemma commits_add now task : commits_by_steps (PriorityQueue.add now task).
Proof.
  unfold PriorityQueue.add, PriorityQueue.map_set, PriorityQueue.heap_push. solve_commits.
Qed.

Lemma commits_pop : commits_by_steps PriorityQueue.pop.
Proof.
  apply commits_state. intros w. unfold PriorityQueue.pop.
  destruct (pop_loop_spec (length (_heap w)) w) as (h & m & -> & _). by split.
Qed.

Lemma commits_peek : commits_by_steps PriorityQueue.peek.
Proof.
  apply commits_state. intros w. destruct (peek_frame w) as [h ->]. by split.
Qed.

Lemma commits_update_priority now id p b :
  commits_by_steps (PriorityQueue.update_priority now id p b).
Proof.
  unfold PriorityQueue.update_priority, PriorityQueue._rebuild_heap.
  apply commits_bind; [solve_commits|]. intros [t|]; [|solve_commits].
  apply commits_bind; [destruct b; solve_commits|]. intros t'.
  apply commits_bind; [solve_commits|]. intros _.
  apply commits_bind; [solve_commits|]. intros w.
  apply commits_bind; [|solve_commits].
  destruct (PyDict.contains id (_task_map w)); solve_commits.
Qed.

Lemma commits_boost_loop now l n : commits_by_steps (PriorityQueue.boost_loop now l n).
Proof.
  revert n. induction l as [|t l IH]; intros n; cbn [PriorityQueue.boost_loop].
  - solve_commits.
  - destruct (PriorityQueue.new_priority_for now t) as [p|]; [|apply IH].
    destruct (Priority.truthy p); [|apply IH].
    apply commits_bind; [apply commits_update_priority|intros _; apply IH].
Qed.

Lemma commits_apply_age_boosts now :
  commits_by_steps (PriorityQueue.apply_age_boosts now).
Proof.
  unfold PriorityQueue.apply_age_boosts.
  apply commits_bind; [solve_commits|intros l; apply commits_boost_loop].
Qed.

Lemma commits__load_from_db : commits_by_steps PriorityQueue._load_from_db.
Proof. apply commits_state. intros w. rewrite _load_from_db_spec. by split. Qed.

Lemma commits_pack_task now c p st t :
  commits_by_steps (BatchProcessor.pack_task now c p st t).
Proof.
  unfold BatchProcessor.pack_task, BatchProcessor._generate_batch_id.
  apply commits_bind; [destruct (BatchProcessor.needs_new_batch st); solve_commits|].
  intros st'. destruct (st'.2) as [i|]; [|solve_commits].
  destruct (st'.1 !! i) as [b|]; [|solve_commits].
  destruct (Batch.add_task b t) as [[? ?] ?]. solve_commits.
Qed.

Lemma commits_pack_tasks now c p ts st :
  commits_by_steps (BatchProcessor.pack_tasks now c p ts st).
Proof.
  revert st. induction ts as [|t ts IH]; intros st; cbn [BatchProcessor.pack_tasks].
  - solve_commits.
  - apply commits_bind; [apply commits_pack_task|intros st'; apply IH].
Qed.

Lemma commits_batch_group now p c bs :
  commits_by_steps (BatchProcessor.batch_group now p c bs).
Proof.
  unfold BatchProcessor.batch_group. apply commits_bind; [solve_commits|]. intros l.
  destruct (filter _ l); [solve_commits|].
  apply commits_bind; [apply commits_pack_tasks|]. intros st.
  destruct (st.2) as [i|]; [|solve_commits]. destruct (st.1 !! i); solve_commits.
Qed.

Lemma commits_for_categories now p cs bs :
  commits_by_steps (BatchProcessor.for_categories now p cs bs).
Proof.
  revert bs. induction cs as [|c cs IH]; intros bs; cbn [BatchProcessor.for_categories].
  - solve_commits.
  - apply commits_bind; [apply commits_batch_group|intros bs'; apply IH].
Qed.

Lemma commits_for_priorities now ps bs :
  commits_by_steps (BatchProcessor.for_priorities now ps bs).
Proof.
  revert bs. induction ps as [|p ps IH]; intros bs; cbn [BatchProcessor.for_priorities].
  - solve_commits.
  - apply commits_bind; [apply commits_for_categories|intros bs'; apply IH].
Qed.

Lemma commits_create_batches now : commits_by_steps (BatchProcessor.create_batches now).
Proof. apply commits_for_priorities. Qed.

Lemma commits_start_task now id agent :
  commits_by_steps (QueueManager.start_task now id agent).
Proof. unfold QueueManager.start_task, QueueManager._move_task_file. solve_commits. Qed.

Lemma commits_complete_task now id s :
  commits_by_steps (QueueManager.complete_task now id s).
Proof. unfold QueueManager.complete_task, QueueManager._move_task_file. solve_commits. Qed.

Lemma commits_retry_task now id : commits_by_steps (QueueManager.retry_task now id).
Proof.
  unfold QueueManager.retry_task, QueueManager._move_task_file,
    PriorityQueue.map_set, PriorityQueue.heap_push.
  apply commits_bind; [solve_commits|]. intros [t|]; [|solve_commits].
  destruct (_ <=? _); solve_commits.
Qed.

Lemma commits_get_next_task now : commits_by_steps (QueueManager.get_next_task now).
Proof.
  unfold QueueManager.get_next_task.
  apply commits_bind; [apply commits_apply_age_boosts|intros _; apply commits_peek].
Qed.

(** Every call commits one statement at a time. *)
Lemma run_commits (now : Z) (c : call) (w : World) :
  ∃ js, journal (run now c w) = journal w ++ js
        ∧ commits (db w) js
        ∧ db (run now c w) = default (db w) (last js).
Proof.
  destruct c; cbn [run].
  - apply commits_add.
  - apply commits_pop.
  - apply commits_peek.
  - apply commits_update_priority.
  - apply commits_apply_age_boosts.
  - apply commits__load_from_db.
  - apply commits_create_batches.
  - unfold Queries.get_next_batch. revert w. apply commits_bind.
    + apply commits_create_batches.
    + intros [|b bs]; apply commits_ret.
  - unfold QueueManager.add_task. destruct (Priority.from_string priority).
    + revert w. apply commits_bind; [apply commits_add|intros ?; apply commits_ret].
    + exists []. by rewrite app_nil_r.
  - apply commits_get_next_task.
  - apply commits_start_task.
  - apply commits_complete_task.
  - apply commits_retry_task.
  - unfold QueueManager.set_priority. destruct (Priority.from_string priority).
    + revert w. apply commits_bind; [apply commits_update_priority|intros ?; apply commits_ret].
    + exists []. by rewrite app_nil_r.
  - unfold Queries.list_tasks. revert w. apply commits_bind.
    + destruct status as [st|]; [destruct (decide (st = ""))|]; apply commits_query.
    + intros l. destruct priority as [ps|]; [destruct (decide (ps = ""))|];
        [apply commits_ret| |apply commits_ret].
      destruct (Priority.from_string ps); apply commits_ret.
Qed.

(** A statement writes one table. *)
Lemma store_step_one_table (d d' : QueueDatabase.t) :
  store_step d d' →
  QueueDatabase.tasks d' = QueueDatabase.tasks d
  ∨ QueueDatabase.task_history d' = QueueDatabase.task_history d.
Proof. destruct 1; [by right|by left|by left]. Qed.

(** ** What [pop] takes off the heap *)

(** When [pop] returns a task, the heap it leaves is the heap it found
    without the entries discarded on the way and without the entry of the
    returned task. *)
Lemma pop_loop_heap (fuel : nat) :
  ∀ (w w' : World) (t : Task.t),
  PriorityQueue.pop_loop fuel w = (Some t, w') →
  ∃ stale e, _heap w ≡ₚ stale ++ e :: _heap w' ∧ Task.task_id e = Task.task_id t.
Proof.
  induction fuel as [|fuel IH]; intros w w' t Hpop; [discriminate|].
  cbn [PriorityQueue.pop_loop] in Hpop. unfold_M.
  destruct (heapq.heappop Task.lt (_heap w)) as [[task heap']|] eqn:Hheap; [|discriminate].
  apply heappop_perm in Hheap.
  assert (PriorityQueue.pop_loop fuel (set_heap heap' w) = (Some t, w') →
          ∃ stale e, _heap w ≡ₚ stale ++ e :: _heap w'
                     ∧ Task.task_id e = Task.task_id t) as Hnext.
  { intros Hn. destruct (IH _ _ _ Hn) as (stale & e & Hperm & Hid).
    exists (task :: stale), e. split; [|exact Hid].
    rewrite Hheap. cbn [_heap set_heap] in Hperm. by rewrite Hperm. }
  destruct (PyDict.contains (Task.task_id task) (_task_map w)); [|by apply Hnext].
  cbn beta in Hpop. cbn [db set_heap] in Hpop.
  destruct (QueueDatabase.get_task (Task.task_id task) (db w)) as [current|] eqn:Hget;
    [|by apply Hnext].
  destruct (decide (Task.status current = TaskStatus.PENDING)); [|by apply Hnext].
  simplify_eq/=. exists [], task. split; [by rewrite Hheap|].
  symmetry. by apply (get_task_id _ _ _ Hget).
Qed.

(** ** Groups of pending tasks *)

(** The columns that decide the group of a row, with its id. *)
Definition sig (r : TasksRow.t) : string * (string * string * Priority.t) :=
  (TasksRow.task_id r, (TasksRow.status r, TasksRow.category r, TasksRow.priority r)).

Definition sigs (d : QueueDatabase.t) : list (string * (string * string * Priority.t)) :=
  sig <$> QueueDatabase.tasks d.

(** The pending rows of one category and one tier. *)
Definition group_rows (c : string) (p : Priority.t) (d : QueueDatabase.t)
    : list TasksRow.t :=
  filter (λ r, TasksRow.status r = "pending" ∧ TasksRow.category r = c
               ∧ TasksRow.priority r = p) (QueueDatabase.tasks d).

Lemma filter_fmap_comm {A B} (f : A → B) (P : B → Prop) `{∀ x, Decision (P x)}
    (l : list A) :
  filter P (f <$> l) = f <$> filter (λ x, P (f x)) l.
Proof.
  induction l as [|a l IH]; [done|].
  rewrite fmap_cons, !filter_cons, IH. by destruct (decide (P (f a))).
Qed.

Lemma sigs_ids (d : QueueDatabase.t) :
  TasksRow.task_id <$> QueueDatabase.tasks d = (sigs d).*1.
Proof. unfold sigs. by rewrite <-list_fmap_compose. Qed.

Lemma sigs_unique_ids (d d' : QueueDatabase.t) :
  sigs d' ≡ₚ sigs d → unique_ids d → unique_ids d'.
Proof. unfold unique_ids. rewrite !sigs_ids. by intros ->. Qed.

Lemma sig_functional (d : QueueDatabase.t) (id : string) a b :
  unique_ids d → (id, a) ∈ sigs d → (id, b) ∈ sigs d → a = b.
Proof.
  unfold unique_ids. rewrite sigs_ids. generalize (sigs d). intros l.
  induction l as [|[k v] l IH]; intros Hnd Ha Hb; [by apply elem_of_nil in Ha|].
  rewrite fmap_cons in Hnd. apply NoDup_cons in Hnd as [Hk Hnd]. cbn in Hk.
  apply elem_of_cons in Ha as [Ha|Ha]; apply elem_of_cons in Hb as [Hb|Hb].
  - congruence.
  - injection Ha as -> ->. destruct Hk. apply list_elem_of_fmap. by exists (k, b).
  - injection Hb as -> ->. destruct Hk. apply list_elem_of_fmap. by exists (k, a).
  - by apply IH.
Qed.

Lemma group_rows_sigs (c : string) (p : Priority.t) (d : QueueDatabase.t) :
  TasksRow.task_id <$> group_rows c p d
  = (filter (λ s, s.2 = ("pending", c, p)) (sigs d)).*1.
Proof.
  unfold group_rows, sigs. rewrite filter_fmap_comm, <-list_fmap_compose.
  f_equal. apply list_filter_iff. intros r. unfold sig. cbn. split.
  - by intros (-> & -> & ->).
  - by intros [= -> -> ->].
Qed.

Lemma group_rows_perm (c : string) (p : Priority.t) (d d' : QueueDatabase.t) :
  sigs d' ≡ₚ sigs d →
  TasksRow.task_id <$> group_rows c p d' ≡ₚ TasksRow.task_id <$> group_rows c p d.
Proof. intros H. by rewrite !group_rows_sigs, H. Qed.

Lemma elem_of_group_rows_sigs (c : string) (p : Priority.t) (d : QueueDatabase.t)
    (id : string) :
  id ∈ TasksRow.task_id <$> group_rows c p d ↔ (id, ("pending", c, p)) ∈ sigs d.
Proof.
  rewrite group_rows_sigs. split.
  - intros ([k v] & -> & [Hv Hin]%list_elem_of_filter)%list_elem_of_fmap.
    cbn in Hv. by subst.
  - intros Hin. apply list_elem_of_fmap. exists (id, ("pending", c, p)).
    split; [done|]. by apply list_elem_of_filter.
Qed.

(** A unique id splits the table. *)
Lemma perm_split_unique (l : list TasksRow.t) (r : TasksRow.t) :
  NoDup (TasksRow.task_id <$> l) → r ∈ l →
  l ≡ₚ r :: filter (λ x, TasksRow.task_id x ≠ TasksRow.task_id r) l.
Proof.
  induction l as [|a l IH]; intros Hnd Hr; [by apply elem_of_nil in Hr|].
  rewrite fmap_cons in Hnd. apply NoDup_cons in Hnd as [Ha Hnd].
  rewrite filter_cons. apply elem_of_cons in Hr as [->|Hr].
  - rewrite decide_False by (by intros ?). constructor.
    rewrite filter_all; [done|]. apply Forall_forall. intros x Hx Heq.
    apply Ha. rewrite <-Heq. by apply list_elem_of_fmap_2.
  - rewrite decide_True.
    + rewrite (IH Hnd Hr) at 1. apply Permutation_swap.
    + intros Heq. apply Ha. rewrite Heq. by apply list_elem_of_fmap_2.
Qed.

(** Saving a task over a row of the same id and group keeps the ids and
    the groups. *)
Lemma save_task_sigs (t : Task.t) (d : QueueDatabase.t) :
  unique_ids d → sig (QueueDatabase.row_of_task t) ∈ sigs d →
  sigs (QueueDatabase.save_task t d) ≡ₚ sigs d.
Proof.
  intros Hnd (r & Hsig & Hr)%list_elem_of_fmap.
  unfold sigs, QueueDatabase.save_task, QueueDatabase.insert_or_replace.
  cbn [QueueDatabase.tasks].
  assert (TasksRow.task_id (QueueDatabase.row_of_task t) = TasksRow.task_id r) as Hid
    by by injection Hsig.
  rewrite fmap_app. cbn [fmap list_fmap]. rewrite Hsig, Hid.
  rewrite (perm_split_unique _ r Hnd Hr) at 2.
  rewrite fmap_cons. by rewrite <-Permutation_cons_append.
Qed.

Lemma save_all_sigs (saved : list Task.t) :
  ∀ d, unique_ids d →
  Forall (λ t, sig (QueueDatabase.row_of_task t) ∈ sigs d) saved →
  sigs (save_all d saved) ≡ₚ sigs d.
Proof.
  induction saved as [|t saved IH]; intros d Hnd Hs; [done|].
  apply Forall_cons in Hs as [Ht Hs]. cbn [save_all foldl].
  fold (save_all (QueueDatabase.save_task t d) saved).
  pose proof (save_task_sigs t d Hnd Ht) as H1.
  rewrite IH; [exact H1|by apply (sigs_unique_ids d)|].
  eapply Forall_impl; [exact Hs|]. intros t' Ht'. by rewrite H1.
Qed.

Lemma get_task_save_all_ne (saved : list Task.t) (id : string) :
  ∀ d, id ∉ Task.task_id <$> saved →
  QueueDatabase.get_task id (save_all d saved) = QueueDatabase.get_task id d.
Proof.
  induction saved as [|t saved IH]; intros d Hid; [done|].
  rewrite fmap_cons in Hid. apply not_elem_of_cons in Hid as [Hne Hid].
  cbn [save_all foldl]. fold (save_all (QueueDatabase.save_task t d) saved).
  rewrite IH by done. by apply get_task_save_ne.
Qed.

Lemma sig_tagged (bid : string) (r : TasksRow.t) :
  sig (QueueDatabase.row_of_task
         (Task.set_batch_id (Some bid) (QueueDatabase._row_to_task r)))
  = sig r.
Proof.
  unfold sig.
  assert (∀ t, TasksRow.task_id (QueueDatabase.row_of_task (Task.set_batch_id (Some bid) t))
               = Task.task_id t
             ∧ TasksRow.status (QueueDatabase.row_of_task (Task.set_batch_id (Some bid) t))
               = Task.status t
             ∧ TasksRow.category (QueueDatabase.row_of_task (Task.set_batch_id (Some bid) t))
               = Task.category t
             ∧ TasksRow.priority (QueueDatabase.row_of_task (Task.set_batch_id (Some bid) t))
               = Task.priority t) as H by (intros []; done).
  destruct (H (QueueDatabase._row_to_task r)) as (-> & -> & -> & ->).
  by rewrite row_to_task_id, row_to_task_status, row_to_task_category,
    row_to_task_priority.
Qed.

Lemma group_tasks_ids (p : Priority.t) (c : string) (d : QueueDatabase.t) :
  Task.task_id <$> group_tasks p c d ≡ₚ TasksRow.task_id <$> group_rows c p d.
Proof.
  rewrite group_tasks_rows, <-list_fmap_compose.
  rewrite (list_fmap_ext _ TasksRow.task_id) by (intros; apply row_to_task_id).
  rewrite order_by_perm, list_filter_filter. unfold group_rows.
  erewrite list_filter_iff; [reflexivity|]. intros r. cbn. tauto.
Qed.

(** The packing does not look at the batches it is given. *)
Lemma packed_done (now : Z) (c : string) (p : Priority.t) (ts : list Task.t) :
  ∀ pre cur ctr,
  packed now c p ts pre cur ctr
  = (pre ++ (packed now c p ts [] cur ctr).1.1,
     (packed now c p ts [] cur ctr).1.2,
     (packed now c p ts [] cur ctr).2).
Proof.
  induction ts as [|t ts IH]; intros pre cur ctr; cbn [packed]; [reflexivity|].
  destruct cur as [b|]; [destruct (_ <=? _)%nat|].
  - rewrite (IH (pre ++ [b])), (IH ([] ++ [b])).
    destruct (packed _ _ _ _ [] _ _) as [[bs c'] sv]. cbn. by rewrite <-app_assoc.
  - rewrite (IH pre).
    destruct (packed _ _ _ _ [] _ _) as [[bs c'] sv]. reflexivity.
  - rewrite (IH pre).
    destruct (packed _ _ _ _ [] _ _) as [[bs c'] sv]. reflexivity.
Qed.

Section GroupFrames.
Variable now : Z.

(** The tasks a group saves are rows of the group with a batch reference. *)
Lemma saved_sigs (p : Priority.t) (c : string) (d : QueueDatabase.t) (ctr : Z) :
  Forall (λ t, sig (QueueDatabase.row_of_task t) = (Task.task_id t, ("pending", c, p))
               ∧ sig (QueueDatabase.row_of_task t) ∈ sigs d)
    (packed now c p (group_tasks p c d) [] None ctr).2.
Proof.
  pose proof (packed_saved now c p (group_tasks p c d) [] None ctr) as Hsaved.
  apply Forall_forall. intros t' Ht'.
  apply list_elem_of_lookup in Ht' as [i Hi].
  destruct (Forall2_lookup_r _ _ _ _ _ Hsaved Hi) as (t & Hti & bid & ->).
  apply list_elem_of_lookup_2, group_tasks_inv in Hti as (r & Hr & -> & Hc & Hs & Hp).
  rewrite sig_tagged. split.
  - unfold sig. rewrite Hc, Hs, Hp. f_equal.
    transitivity (Task.task_id (QueueDatabase._row_to_task r));
      [by rewrite row_to_task_id|by destruct (QueueDatabase._row_to_task r)].
  - by apply list_elem_of_fmap_2.
Qed.

Lemma saved_ids_NoDup (p : Priority.t) (c : string) (d : QueueDatabase.t) (ctr : Z) :
  unique_ids d →
  NoDup (Task.task_id <$> (packed now c p (group_tasks p c d) [] None ctr).2).
Proof.
  intros Hnd. rewrite packed_saved_ids, group_tasks_ids. by apply NoDup_fmap_filter.
Qed.

(** What batching one group does. *)
Lemma batch_group_frame (p : Priority.t) (c : string) (bs : list Batch.t) (w : World) :
  unique_ids (db w) →
  (BatchProcessor.batch_group now p c bs w).1
  = bs ++ (packed now c p (group_tasks p c (db w)) [] None (_batch_counter w)).1.1
  ∧ sigs (db (BatchProcessor.batch_group now p c bs w).2) ≡ₚ sigs (db w)
  ∧ (∀ id, id ∉ TasksRow.task_id <$> group_rows c p (db w) →
       QueueDatabase.get_task id (db (BatchProcessor.batch_group now p c bs w).2)
       = QueueDatabase.get_task id (db w))
  ∧ (∀ t, t ∈ (packed now c p (group_tasks p c (db w)) [] None (_batch_counter w)).2 →
       QueueDatabase.get_task (Task.task_id t)
         (db (BatchProcessor.batch_group now p c bs w).2)
       = Some (QueueDatabase._row_to_task (QueueDatabase.row_of_task t))).
Proof.
  intros Hnd. destruct (batch_group_spec now p c bs w) as (Hbs & Htasks & _).
  rewrite packed_done in Hbs, Htasks. cbn [fst snd] in Hbs, Htasks.
  split; [exact Hbs|]. split; [|split].
  - unfold sigs at 1. rewrite Htasks. apply save_all_sigs; [done|].
    eapply Forall_impl; [apply saved_sigs|]. by intros t [_ ?].
  - intros id Hid. rewrite (get_task_tasks_eq _ _ _ Htasks).
    apply get_task_save_all_ne. by rewrite packed_saved_ids, group_tasks_ids.
  - intros t Ht. rewrite (get_task_tasks_eq _ _ _ Htasks).
    apply get_task_save_all; [by apply saved_ids_NoDup|done].
Qed.

Lemma batch_group_tagged (p : Priority.t) (c : string) (d : QueueDatabase.t) (ctr : Z) :
  Forall (well_tagged c p) (packed now c p (group_tasks p c d) [] None ctr).1.1.
Proof. apply packed_well_tagged; [apply Forall_nil_2|done]. Qed.

Lemma for_categories_frame (p : Priority.t) (cs : list string) :
  ∀ (bs : list Batch.t) (w : World),
  unique_ids (db w) →
  ∃ new, (BatchProcessor.for_categories now p cs bs w).1 = bs ++ new
    ∧ Forall (λ b, Batch.priority b = p ∧ Batch.category b ∈ cs) new
    ∧ sigs (db (BatchProcessor.for_categories now p cs bs w).2) ≡ₚ sigs (db w)
    ∧ (∀ id g, (id, g) ∈ sigs (db w) →
         (∀ c, c ∈ cs → g ≠ ("pending", c, p)) →
         QueueDatabase.get_task id (db (BatchProcessor.for_categories now p cs bs w).2)
         = QueueDatabase.get_task id (db w)).
Proof.
  induction cs as [|c cs IH]; intros bs w Hnd; cbn [BatchProcessor.for_categories].
  { exists []. rewrite app_nil_r. repeat split; try done; apply Forall_nil_2. }
  unfold mbind, M_bind.
  destruct (batch_group_frame p c bs w Hnd) as (Hbs & Hsig & Hframe & _).
  pose proof (batch_group_tagged p c (db w) (_batch_counter w)) as Htag.
  destruct (BatchProcessor.batch_group now p c bs w) as [bs1 w1]. cbn [fst snd] in *.
  destruct (IH bs1 w1) as (new & Hnew & Hall & Hsig2 & Hframe2);
    [by apply (sigs_unique_ids (db w))|].
  exists ((packed now c p (group_tasks p c (db w)) [] None (_batch_counter w)).1.1 ++ new).
  split; [by rewrite Hnew, Hbs, app_assoc|]. split; [|split].
  - apply Forall_app. split.
    + eapply Forall_impl; [exact Htag|]. intros b (Hc & Hp & _).
      split; [done|]. rewrite Hc. apply list_elem_of_here.
    + eapply Forall_impl; [exact Hall|]. intros b [Hp Hc]. split; [done|].
      by apply list_elem_of_further.
  - by rewrite Hsig2.
  - intros id g Hin Hg. rewrite (Hframe2 id g).
    + apply Hframe. intros Hid%elem_of_group_rows_sigs.
      apply (Hg c); [apply list_elem_of_here|].
      by apply (sig_functional (db w) id).
    + by rewrite Hsig.
    + intros c' Hc'. apply Hg. by apply list_elem_of_further.
Qed.

Lemma for_priorities_frame (ps : list Priority.t) :
  ∀ (bs : list Batch.t) (w : World),
  unique_ids (db w) →
  ∃ new, (BatchProcessor.for_priorities now ps bs w).1 = bs ++ new
    ∧ Forall (λ b, Batch.priority b ∈ ps) new
    ∧ sigs (db (BatchProcessor.for_priorities now ps bs w).2) ≡ₚ sigs (db w)
    ∧ (∀ id g, (id, g) ∈ sigs (db w) → g.2 ∉ ps →
         QueueDatabase.get_task id (db (BatchProcessor.for_priorities now ps bs w).2)
         = QueueDatabase.get_task id (db w)).
Proof.
  induction ps as [|p ps IH]; intros bs w Hnd; cbn [BatchProcessor.for_priorities].
  { exists []. rewrite app_nil_r. repeat split; try done; apply Forall_nil_2. }
  unfold mbind, M_bind.
  destruct (for_categories_frame p BatchProcessor.categories bs w Hnd)
    as (new1 & Hbs & Hall1 & Hsig & Hframe).
  destruct (BatchProcessor.for_categories now p BatchProcessor.categories bs w)
    as [bs1 w1]. cbn [fst snd] in *.
  destruct (IH bs1 w1) as (new & Hnew & Hall & Hsig2 & Hframe2);
    [by apply (sigs_unique_ids (db w))|].
  exists (new1 ++ new).
  split; [by rewrite Hnew, Hbs, app_assoc|]. split; [|split].
  - apply Forall_app. split.
    + eapply Forall_impl; [exact Hall1|]. intros b [-> _]. apply list_elem_of_here.
    + eapply Forall_impl; [exact Hall|]. intros b Hp. by apply list_elem_of_further.
  - by rewrite Hsig2.
  - intros id g Hin Hg. apply not_elem_of_cons in Hg as [Hne Hg].
    rewrite (Hframe2 id g); [|by rewrite Hsig|done].
    apply (Hframe id g Hin). intros c _ ->. done.
Qed.

Lemma for_categories_app (p : Priority.t) (cs1 cs2 : list string) :
  ∀ (bs : list Batch.t) (w : World),
  BatchProcessor.for_categories now p (cs1 ++ cs2) bs w
  = BatchProcessor.for_categories now p cs2
      (BatchProcessor.for_categories now p cs1 bs w).1
      (BatchProcessor.for_categories now p cs1 bs w).2.
Proof.
  induction cs1 as [|c cs1 IH]; intros bs w; [done|].
  cbn [app BatchProcessor.for_categories]. unfold mbind, M_bind.
  destruct (BatchProcessor.batch_group now p c bs w) as [bs1 w1]. apply IH.
Qed.

Lemma for_priorities_app (ps1 ps2 : list Priority.t) :
  ∀ (bs : list Batch.t) (w : World),
  BatchProcessor.for_priorities now (ps1 ++ ps2) bs w
  = BatchProcessor.for_priorities now ps2
      (BatchProcessor.for_priorities now ps1 bs w).1
      (BatchProcessor.for_priorities now ps1 bs w).2.
Proof.
  induction ps1 as [|p ps1 IH]; intros bs w; [done|].
  cbn [app BatchProcessor.for_priorities]. unfold mbind, M_bind.
  destruct (BatchProcessor.for_categories now p BatchProcessor.categories bs w)
    as [bs1 w1]. apply IH.
Qed.

Lemma for_categories_cons (p : Priority.t) (c : string) (cs : list string)
    (bs : list Batch.t) (w : World) :
  BatchProcessor.for_categories now p (c :: cs) bs w
  = BatchProcessor.for_categories now p cs
      (BatchProcessor.batch_group now p c bs w).1
      (BatchProcessor.batch_group now p c bs w).2.
Proof.
  cbn [BatchProcessor.for_categories]. unfold mbind, M_bind.
  by destruct (BatchProcessor.batch_group now p c bs w).
Qed.

Lemma for_priorities_cons (p : Priority.t) (ps : list Priority.t)
    (bs : list Batch.t) (w : World) :
  BatchProcessor.for_priorities now (p :: ps) bs w
  = BatchProcessor.for_priorities now ps
      (BatchProcessor.for_categories now p BatchProcessor.categories bs w).1
      (BatchProcessor.for_categories now p BatchProcessor.categories bs w).2.
Proof.
  cbn [BatchProcessor.for_priorities]. unfold mbind, M_bind.
  by destruct (BatchProcessor.for_categories now p BatchProcessor.categories bs w).
Qed.

Lemma split_unique {A} (x : A) (l : list A) :
  NoDup l → x ∈ l → ∃ l1 l2, l = l1 ++ x :: l2 ∧ (x ∉ l1) ∧ (x ∉ l2).
Proof.
  intros Hnd (l1 & l2 & ->)%list_elem_of_split. exists l1, l2.
  apply NoDup_app in Hnd as (_ & H1 & H2). apply NoDup_cons in H2 as [H2 _].
  split; [done|]. split; [|done]. intros Hi. apply (H1 _ Hi), list_elem_of_here.
Qed.

(** [create_batches] batches the group of a listed category and a tier
    once, on a store that has the ids and the groups of the store it
    started from; later groups leave the tasks it saved as they are. *)
Lemma create_batches_group (c : string) (p : Priority.t) (w : World) :
  c ∈ BatchProcessor.categories → unique_ids (db w) →
  ∃ w1 pre post,
    unique_ids (db w1) ∧ sigs (db w1) ≡ₚ sigs (db w)
    ∧ (BatchProcessor.create_batches now w).1
      = pre ++ (packed now c p (group_tasks p c (db w1)) [] None (_batch_counter w1)).1.1
            ++ post
    ∧ Forall (λ b, ¬ (Batch.category b = c ∧ Batch.priority b = p)) pre
    ∧ Forall (λ b, ¬ (Batch.category b = c ∧ Batch.priority b = p)) post
    ∧ ∀ t, t ∈ (packed now c p (group_tasks p c (db w1)) [] None (_batch_counter w1)).2 →
        QueueDatabase.get_task (Task.task_id t) (db (BatchProcessor.create_batches now w).2)
        = Some (QueueDatabase._row_to_task (QueueDatabase.row_of_task t)).
Proof.
  intros Hc Hnd.
  destruct (split_unique c BatchProcessor.categories) as (cs1 & cs2 & Hcs & Hcs1 & Hcs2);
    [apply (bool_decide_unpack _); by vm_compute|done|].
  destruct (split_unique p Priority.members) as (ps1 & ps2 & Hps & Hps1 & Hps2);
    [apply (bool_decide_unpack _); by vm_compute|
     unfold Priority.members; destruct p; rewrite !elem_of_cons; tauto|].
  unfold BatchProcessor.create_batches.
  rewrite Hps, for_priorities_app, for_priorities_cons, Hcs, for_categories_app,
    for_categories_cons.
  destruct (for_priorities_frame ps1 [] w Hnd) as (newA & HA & HallA & HsigA & _).
  set (rA := BatchProcessor.for_priorities now ps1 [] w) in *.
  assert (unique_ids (db rA.2)) as HndA by by apply (sigs_unique_ids (db w)).
  destruct (for_categories_frame p cs1 rA.1 rA.2 HndA) as (newB & HB & HallB & HsigB & _).
  set (rB := BatchProcessor.for_categories now p cs1 rA.1 rA.2) in *.
  assert (unique_ids (db rB.2)) as HndB by by apply (sigs_unique_ids (db rA.2)).
  destruct (batch_group_frame p c rB.1 rB.2 HndB) as (HC & HsigC & _ & HstoredC).
  pose proof (saved_sigs p c (db rB.2) (_batch_counter rB.2)) as Hsaved.
  set (pk := packed now c p (group_tasks p c (db rB.2)) [] None (_batch_counter rB.2)) in *.
  set (rC := BatchProcessor.batch_group now p c rB.1 rB.2) in *.
  assert (unique_ids (db rC.2)) as HndC by by apply (sigs_unique_ids (db rB.2)).
  destruct (for_categories_frame p cs2 rC.1 rC.2 HndC)
    as (newD & HD & HallD & HsigD & HframeD).
  set (rD := BatchProcessor.for_categories now p cs2 rC.1 rC.2) in *.
  assert (unique_ids (db rD.2)) as HndD by by apply (sigs_unique_ids (db rC.2)).
  destruct (for_priorities_frame ps2 rD.1 rD.2 HndD)
    as (newE & HE & HallE & HsigE & HframeE).
  set (rE := BatchProcessor.for_priorities now ps2 rD.1 rD.2) in *.
  exists rB.2, (newA ++ newB), (newD ++ newE).
  split; [exact HndB|]. split; [by rewrite HsigB, HsigA|]. split; [|split; [|split]].
  - rewrite HE, HD, HC, HB, HA. cbn [app]. by rewrite <-!app_assoc.
  - apply Forall_app. split.
    + eapply Forall_impl; [exact HallA|]. intros b Hb [_ Hp]. apply Hps1. by rewrite <-Hp.
    + eapply Forall_impl; [exact HallB|]. intros b [_ Hb] [Hcb _]. apply Hcs1.
      by rewrite <-Hcb.
  - apply Forall_app. split.
    + eapply Forall_impl; [exact HallD|]. intros b [_ Hb] [Hcb _]. apply Hcs2.
      by rewrite <-Hcb.
    + eapply Forall_impl; [exact HallE|]. intros b Hb [_ Hp]. apply Hps2. by rewrite <-Hp.
  - intros t Ht.
    destruct (proj1 (Forall_forall _ _) Hsaved t Ht) as [Hsig Hin]. rewrite Hsig in Hin.
    rewrite (HframeE (Task.task_id t) ("pending", c, p));
      [|by rewrite HsigD, HsigC|done].
    rewrite (HframeD (Task.task_id t) ("pending", c, p)); [by apply HstoredC|by rewrite HsigC|].
    intros c' Hc' [= <-]. done.
Qed.
End GroupFrames.

(** * The claims *)

(** ** Serialization round trip *)

(** C2.  Serializing a task with [to_dict] and reconstructing it with
    [from_dict] does not give the task back: [to_dict] writes the member
    name of the priority (with an underscore, as in [P2_MEDIUM]), which is
    not a key of the table [Priority.from_string] looks up, so [from_dict]
    raises [ValueError] for every task. *)
Theorem C2_from_dict_to_dict_raises (now : Z) (t : Task.t) :
  Task.from_dict now (Task.to_dict t)
  = Raise (ValueError ("Unknown priority: " +:+ Priority.name (Task.priority t))).
Proof.
  unfold Task.from_dict, Task.get_or.
  rewrite to_dict_priority.
  change (default (PStr "P2") (Some (PStr (Priority.name (Task.priority t)))))
    with (PStr (Priority.name (Task.priority t))).
  change (Task.priority_from (PStr (Priority.name (Task.priority t))))
    with (Priority.from_string (Priority.name (Task.priority t))).
  by rewrite from_string_name.
Qed.

(** ** Lifecycle operations *)

Section Lifecycle.
Variables (now : Z) (w : World) (task_id : string).

Lemma start_task_missing (agent : option string) :
  QueueDatabase.get_task task_id (db w) = None →
  QueueManager.start_task now task_id agent w = (None, w).
Proof. intros H. unfold QueueManager.start_task. unfold_M. by rewrite H. Qed.

Lemma complete_task_missing (success : bool) :
  QueueDatabase.get_task task_id (db w) = None →
  QueueManager.complete_task now task_id success w = (None, w).
Proof. intros H. unfold QueueManager.complete_task. unfold_M. by rewrite H. Qed.

Lemma retry_task_missing :
  QueueDatabase.get_task task_id (db w) = None →
  QueueManager.retry_task now task_id w = (None, w).
Proof. intros H. unfold QueueManager.retry_task. unfold_M. by rewrite H. Qed.

(** No operation looks at the status it leaves: on a task that exists,
    [start_task] always moves it to running, whatever it was. *)
Lemma start_task_ignores_status (agent : option string) (t : Task.t) :
  QueueDatabase.get_task task_id (db w) = Some t →
  ∃ t' w', QueueManager.start_task now task_id agent w = (Some t', w')
           ∧ Task.status t' = TaskStatus.RUNNING
           ∧ QueueDatabase.task_history (db w')
             = QueueDatabase.task_history (db w)
               ++ [TaskHistoryRow.mk task_id "started" (Some "pending") (Some "running") now].
Proof.
  intros H. unfold QueueManager.start_task. unfold_M. rewrite H. simpl.
  eexists _, _. split; [reflexivity|]. split; [|reflexivity].
  destruct agent as [a|]; [destruct (decide (a = ""))|]; by destruct t.
Qed.

Lemma complete_task_ignores_status (success : bool) (t : Task.t) :
  QueueDatabase.get_task task_id (db w) = Some t →
  ∃ t' w', QueueManager.complete_task now task_id success w = (Some t', w')
           ∧ Task.status t' = (if success then TaskStatus.COMPLETED else TaskStatus.FAILED)
           ∧ length (QueueDatabase.task_history (db w'))
             = S (length (QueueDatabase.task_history (db w))).
Proof.
  intros H. unfold QueueManager.complete_task. unfold_M. rewrite H. simpl.
  eexists _, _. split; [reflexivity|]. split; [by destruct t|].
  simpl. rewrite length_app. simpl. lia.
Qed.

Lemma retry_task_ignores_status (t : Task.t) :
  QueueDatabase.get_task task_id (db w) = Some t →
  Task.retry_count t < Task.max_retries t →
  ∃ t' w', QueueManager.retry_task now task_id w = (Some t', w')
           ∧ Task.status t' = TaskStatus.PENDING
           ∧ Task.retry_count t' = Task.retry_count t + 1
           ∧ length (QueueDatabase.task_history (db w'))
             = S (length (QueueDatabase.task_history (db w))).
Proof.
  intros H Hlt. unfold QueueManager.retry_task. unfold_M. rewrite H.
  destruct (Z.leb_spec (Task.max_retries t) (Task.retry_count t)); [lia|]. simpl.
  eexists _, _. split; [reflexivity|]. split; [by destruct t|]. split; [by destruct t|].
  simpl. rewrite length_app. simpl. lia.
Qed.
End Lifecycle.

(** A task that was added, started and completed. *)
Definition task_A : Task.t :=
  Task.create 100 "A" "write the report" Priority.P2_MEDIUM TaskCategory.BACKEND.

Definition world_A_completed : World :=
  snd ((PriorityQueue.add 100 task_A ;;
        QueueManager.start_task 200 "A" None ;;
        QueueManager.complete_task 300 "A" true) initial_world).

(** C3, as stated, fails: the task [A] is completed, so its status does
    not permit [start]; yet [start_task] is not rejected: it sets the
    status to running and appends a history event. *)
Lemma C3_start_completed_task_not_rejected :
  Task.status <$> QueueDatabase.get_task "A" (db world_A_completed) = Some "completed"
  ∧ Task.status <$> (QueueManager.start_task 400 "A" None world_A_completed).1
    = Some "running"
  ∧ Task.status <$>
      QueueDatabase.get_task "A" (db (QueueManager.start_task 400 "A" None world_A_completed).2)
    = Some "running"
  ∧ length (QueueDatabase.task_history
              (db (QueueManager.start_task 400 "A" None world_A_completed).2))
    = S (length (QueueDatabase.task_history (db world_A_completed))).
Proof. repeat split; by vm_compute. Qed.

(** C3, amended.  For every task id and each of start, complete and retry:
    when the task does not exist, the operation returns [None] and leaves
    the whole state as it was: no task changes and no history event is
    appended.  (The status of an existing task is not looked at.) *)
Theorem C3_missing_task_rejected (now : Z) (w : World) (task_id : string)
    (agent : option string) (success : bool) :
  QueueDatabase.get_task task_id (db w) = None →
  QueueManager.start_task now task_id agent w = (None, w)
  ∧ QueueManager.complete_task now task_id success w = (None, w)
  ∧ QueueManager.retry_task now task_id w = (None, w).
Proof.
  intros H. split; [|split].
  - by apply start_task_missing.
  - by apply complete_task_missing.
  - by apply retry_task_missing.
Qed.

Lemma C3_missing_task_rejected_witness :
  QueueDatabase.get_task "B" (db world_A_completed) = None
  ∧ QueueManager.start_task 400 "B" (Some "claude") world_A_completed
    = (None, world_A_completed)
  ∧ QueueManager.complete_task 400 "B" false world_A_completed = (None, world_A_completed)
  ∧ QueueManager.retry_task 400 "B" world_A_completed = (None, world_A_completed).
Proof.
  split; [by vm_compute|].
  apply (C3_missing_task_rejected 400 world_A_completed "B" (Some "claude") false).
  by vm_compute.
Defined.

(** A task that failed and has used up its retries. *)
Definition world_A_exhausted : World :=
  snd ((PriorityQueue.add 100 task_A ;;
        QueueManager.start_task 200 "A" None ;;
        QueueManager.complete_task 300 "A" false ;;
        QueueManager.retry_task 400 "A" ;;
        QueueManager.retry_task 500 "A" ;;
        QueueManager.retry_task 600 "A" ;;
        QueueManager.start_task 700 "A" None ;;
        QueueManager.complete_task 800 "A" false) initial_world).

(** C4.  For every existing task with [retry_count >= max_retries],
    [retry_task] returns [None] and leaves the whole state as it was: no
    field of any task changes and no history event is appended. *)
Theorem C4_retry_exhausted_is_noop (now : Z) (w : World) (task_id : string) (t : Task.t) :
  QueueDatabase.get_task task_id (db w) = Some t →
  Task.retry_count t >= Task.max_retries t →
  QueueManager.retry_task now task_id w = (None, w).
Proof.
  intros H Hge. unfold QueueManager.retry_task. unfold_M. rewrite H.
  destruct (Z.leb_spec (Task.max_retries t) (Task.retry_count t)); [done|lia].
Qed.

Lemma C4_retry_exhausted_is_noop_witness :
  ∃ t, QueueDatabase.get_task "A" (db world_A_exhausted) = Some t
       ∧ Task.retry_count t = 3 ∧ Task.max_retries t = 3
       ∧ QueueManager.retry_task 900 "A" world_A_exhausted = (None, world_A_exhausted).
Proof.
  exists (default task_A (QueueDatabase.get_task "A" (db world_A_exhausted))).
  split; [by vm_compute|]. split; [by vm_compute|]. split; [by vm_compute|].
  apply (C4_retry_exhausted_is_noop 900 world_A_exhausted "A"
           (default task_A (QueueDatabase.get_task "A" (db world_A_exhausted)))).
  - by vm_compute.
  - by vm_compute.
Defined.

(** ** Aging *)

Lemma rows_unique (d : QueueDatabase.t) (r r' : TasksRow.t) :
  unique_ids d → r ∈ QueueDatabase.tasks d → r' ∈ QueueDatabase.tasks d →
  TasksRow.task_id r = TasksRow.task_id r' → r = r'.
Proof.
  intros Hnd [i Hi]%list_elem_of_lookup [j Hj]%list_elem_of_lookup Heq.
  assert (i = j) as ->; [|congruence].
  eapply NoDup_lookup; [exact Hnd| |]; rewrite list_lookup_fmap.
  - by rewrite Hi.
  - rewrite Hj. simpl. by rewrite Heq.
Qed.

(** The promotion to the top tier is computed and then dropped: the member
    of value 0 is falsy in [if new_priority:]. *)
Lemma new_priority_for_P1_falsy (now : Z) (t : Task.t) (p : Priority.t) :
  Task.priority t = Priority.P1_HIGH →
  PriorityQueue.new_priority_for now t = Some p → Priority.truthy p = false.
Proof.
  unfold PriorityQueue.new_priority_for. intros ->.
  case_match; intros [= <-]; reflexivity.
Qed.

(** A pending [P1_HIGH] task created at instant 0. *)
Definition task_H : Task.t :=
  Task.create 0 "H" "rotate the keys" Priority.P1_HIGH TaskCategory.SECURITY.

Definition world_H : World := snd (PriorityQueue.add 0 task_H initial_world).

(** C5.  The code breaks the claim for the tier below the top one: a
    [P1_HIGH] task is never promoted by an aging pass, whatever its age;
    its stored record after the pass is its record before the pass. *)
Theorem C5_P1_HIGH_is_never_promoted (now : Z) (w : World) (r : TasksRow.t) :
  unique_ids (db w) →
  r ∈ QueueDatabase.tasks (db w) →
  TasksRow.priority r = Priority.P1_HIGH →
  QueueDatabase.get_task (TasksRow.task_id r) (db (PriorityQueue.apply_age_boosts now w).2)
  = Some (QueueDatabase._row_to_task r).
Proof.
  intros Hnd Hin Hp. unfold PriorityQueue.apply_age_boosts. unfold_M.
  rewrite boost_loop_preserves; [by apply get_task_elem|].
  apply Forall_forall. intros t (r' & -> & Hr' & _)%pending_inv Hid p.
  rewrite row_to_task_id in Hid.
  rewrite (rows_unique _ _ _ Hnd Hr' Hin Hid).
  apply new_priority_for_P1_falsy. by rewrite row_to_task_priority.
Qed.

(** The failing input: [H] is pending and 25 hours old, past the 24 hours
    of its tier; the pass promotes nothing and returns 0. *)
Lemma C5_P1_HIGH_is_never_promoted_witness :
  let now := 25 * MICROSECONDS_PER_HOUR in
  let r := QueueDatabase.row_of_task task_H in
  (TasksRow.status r = "pending"
   ∧ now - TasksRow.created_at r > AGE_BOOST_P1_to_P0 * MICROSECONDS_PER_HOUR)
  ∧ PriorityQueue.apply_age_boosts now world_H = (0, world_H)
  ∧ QueueDatabase.get_task "H" (db (PriorityQueue.apply_age_boosts now world_H).2)
    = Some (QueueDatabase._row_to_task r).
Proof.
  intros now r. split; [split; [reflexivity|reflexivity]|]. split; [reflexivity|].
  apply (C5_P1_HIGH_is_never_promoted now world_H r).
  - unfold unique_ids. simpl. apply NoDup_singleton.
  - simpl. apply list_elem_of_here.
  - reflexivity.
Defined.


(** ** The next task *)





(** ** Popping *)

(** Two pending tasks in the queue. *)
Definition task_B : Task.t :=
  Task.create 200 "B" "review the patch" Priority.P0_CRITICAL TaskCategory.TESTING.

Definition world_AB : World :=
  snd ((PriorityQueue.add 100 task_A ;; PriorityQueue.add 200 task_B) initial_world).

(** C10.  [pop] changes the heap and the index only: the store and its
    journal of commits are as before.  The entry of the returned task is
    taken off the heap, with the stale entries discarded before it, so the
    heap is shorter and, when it held one entry for each id, holds none
    for the id of the returned task; the task is gone from the index; and
    its stored record is still the pending task that was returned.  A
    queue built anew over the store ([_load_from_db] on empty heap and
    index) therefore holds the popped task again, in its index and in its
    heap. *)
Theorem C10_pop_leaves_the_store (w w' : World) (t : Task.t) :
  unique_ids (db w) →
  PriorityQueue.pop w = (Some t, w') →
  db w' = db w ∧ journal w' = journal w ∧ files w' = files w
  ∧ PyDict.contains (Task.task_id t) (_task_map w') = false
  ∧ (∃ stale e, _heap w ≡ₚ stale ++ e :: _heap w' ∧ Task.task_id e = Task.task_id t)
  ∧ (length (_heap w') < length (_heap w))%nat
  ∧ (NoDup (Task.task_id <$> _heap w) → Task.task_id t ∉ (Task.task_id <$> _heap w'))
  ∧ Task.status t = TaskStatus.PENDING
  ∧ QueueDatabase.get_task (Task.task_id t) (db w') = Some t
  ∧ let w'' := (PriorityQueue.__init__ w').2 in
    db w'' = db w
    ∧ PyDict.get (Task.task_id t) (_task_map w'') = Some t
    ∧ t ∈ _heap w''.
Proof.
  intros Hnd Hpop. unfold PriorityQueue.pop in Hpop.
  destruct (pop_loop_spec (length (_heap w)) w) as (h & m & Hw & Ht).
  rewrite Hpop in Hw, Ht. cbn [fst snd] in Hw, Ht.
  destruct (Ht t eq_refl) as [Hget Hst]. clear Ht.
  assert (db w' = db w) as Hdb by by rewrite Hw.
  split; [exact Hdb|]. split; [by rewrite Hw|]. split; [by rewrite Hw|].
  destruct (pop_loop_heap _ _ _ _ Hpop) as (stale & e & Hperm & Heid).
  split; [|split; [by exists stale, e|split; [|split; [|split;
    [exact Hst|split; [by rewrite Hdb|]]]]]].
  2:{ rewrite Hperm, length_app. cbn. lia. }
  2:{ rewrite Hperm, fmap_app, fmap_cons, Heid. intros Hnd'.
      apply NoDup_app in Hnd' as (_ & _ & Hnd'). by apply NoDup_cons in Hnd' as [? _]. }
  - (* the index entry is deleted before the task is returned *)
    clear Hw h m Hget Hst Hdb Hnd Hperm Heid stale e.
    revert Hpop. generalize (length (_heap w)) as fuel. intros fuel. revert w.
    induction fuel as [|fuel IH]; intros w Hpop; [discriminate|].
    cbn [PriorityQueue.pop_loop] in Hpop. unfold_M.
    destruct (heapq.heappop Task.lt (_heap w)) as [[task heap']|]; [|discriminate].
    assert (PriorityQueue.pop_loop fuel (set_heap heap' w) = (Some t, w') →
            PyDict.contains (Task.task_id t) (_task_map w') = false) as Hnext.
    { intros Hn. by apply (IH (set_heap heap' w)). }
    destruct (PyDict.contains (Task.task_id task) (_task_map w)); [|by apply Hnext].
    cbn beta in Hpop. cbn [db set_heap] in Hpop.
    destruct (QueueDatabase.get_task (Task.task_id task) (db w)) as [current|] eqn:Hget;
      [|by apply Hnext].
    destruct (decide (Task.status current = TaskStatus.PENDING)); [|by apply Hnext].
    simplify_eq/=. rewrite (get_task_id _ _ _ Hget).
    unfold PyDict.contains, PyDict.del. apply bool_decide_eq_false.
    intros ([k v] & Hk & Hin)%list_elem_of_fmap.
    apply list_elem_of_filter in Hin as [Hne _]. simpl in *. congruence.
  - cbn zeta. unfold PriorityQueue.__init__. rewrite _load_from_db_spec. cbn [snd].
    destruct (get_task_Some _ _ _ Hget) as (r & Hr & Hid & ->).
    rewrite row_to_task_status in Hst.
    assert (QueueDatabase._row_to_task r ∈ QueueDatabase.get_pending_tasks (db w')) as Hin.
    { rewrite Hdb. by apply elem_of_pending. }
    split; [exact Hdb|]. split.
    + cbn [_task_map set_task_map]. apply index_tasks_get; [|done].
      apply pending_ids_NoDup. by rewrite Hdb.
    + cbn [_heap set_task_map set_heap].
      rewrite foldl_heappush_perm. by rewrite app_nil_l.
Qed.

Lemma C10_pop_leaves_the_store_witness :
  let t := default task_B (PriorityQueue.pop world_AB).1 in
  let w' := (PriorityQueue.pop world_AB).2 in
  PriorityQueue.pop world_AB = (Some t, w')
  ∧ Task.task_id t = "B"
  ∧ db w' = db world_AB
  ∧ Task.task_id <$> _heap world_AB = ["B"; "A"]
  ∧ ("B" ∉ Task.task_id <$> _heap w')
  ∧ t ∈ _heap (PriorityQueue.__init__ w').2.
Proof.
  intros t w'. split; [by vm_compute|]. split; [by vm_compute|].
  destruct (C10_pop_leaves_the_store world_AB w' t)
    as (Hdb & _ & _ & _ & _ & _ & Hgone & _ & _ & _ & _ & Hin).
  - apply (bool_decide_unpack _). by vm_compute.
  - by vm_compute.
  - split; [exact Hdb|]. split; [by vm_compute|]. split; [|exact Hin].
    apply Hgone. apply (bool_decide_unpack _). by vm_compute.
Defined.

(** ** Heap order *)

(** Two pending tasks of the same tier; [A] was created first. *)
Definition task_A2 : Task.t :=
  Task.create 200 "A2" "second of the tier" Priority.P2_MEDIUM TaskCategory.BACKEND.

Definition world_A_A2 : World :=
  snd ((PriorityQueue.add 100 task_A ;; PriorityQueue.add 200 task_A2) initial_world).

(** C1.  The code breaks the claim within a tier: [sort_timestamp] is the
    negated creation time, so the minimum of the heap is the newest task of
    the tier.  With [A] (created at 100) and [A2] (created at 200) pending
    in the same tier, whichever is added first, [peek] and [pop] return
    [A2], while the store lists [A] first. *)
Theorem C1_peek_returns_newest_of_tier :
  Task.priority task_A = Task.priority task_A2
  ∧ Task.created_at task_A < Task.created_at task_A2
  ∧ Task.task_id <$> (PriorityQueue.peek world_A_A2).1 = Some "A2"
  ∧ Task.task_id <$> (PriorityQueue.pop world_A_A2).1 = Some "A2"
  ∧ Task.task_id <$>
      ((PriorityQueue.add 200 task_A2 ;; PriorityQueue.add 300 task_A ;;
        PriorityQueue.peek) initial_world).1 = Some "A2"
  ∧ Task.task_id <$> QueueDatabase.get_pending_tasks (db world_A_A2) = ["A"; "A2"].
Proof. repeat split; reflexivity. Qed.

(** ** Transactions *)

(** C6, as stated, fails: [start_task] commits the task update and the
    history event in two transactions.  After the first commit the store
    holds [A] as running and no [started] event: its history is the
    history before the call. *)
Lemma C6_task_update_committed_without_history :
  ∃ d, d ∈ journal (QueueManager.start_task 300 "A" None world_AB).2
       ∧ (d ∉ journal world_AB)
       ∧ Task.status <$> QueueDatabase.get_task "A" d = Some "running"
       ∧ Task.status <$> QueueDatabase.get_task "A" (db world_AB) = Some "pending"
       ∧ QueueDatabase.task_history d = QueueDatabase.task_history (db world_AB).
Proof.
  exists (QueueDatabase.save_task
            (Task.set_updated_at 300
               (Task.set_started_at (Some 300)
                  (Task.set_status "running" (Task.set_updated_at 100 task_A))))
            (db world_AB)).
  split; [|split; [|repeat split; reflexivity]].
  - simpl. set_solver.
  - simpl. intros H. repeat (apply elem_of_cons in H as [H|H]; [discriminate H|]).
    by apply elem_of_nil in H.
Qed.

(** C6, amended.  No operation joins a task update and its history
    event in one transaction.  Every commit made by a call of the queue,
    the batch processor or the manager is one statement: a [save_task], a
    [record_history] or a [save_batch], each atomic on its own.  [add],
    and [start_task], [complete_task] and [retry_task] on an existing
    task, commit the task first, so the store between their two commits
    has the update and not the event; [update_priority] commits the event
    first, so there the store has the event and not the update.  After the
    second commit both are in the store. *)
Theorem C6_task_and_history_commit_separately (now : Z) (w : World) (task_id : string)
    (t : Task.t) :
  (∀ c, ∃ js, journal (run now c w) = journal w ++ js
              ∧ commits (db w) js
              ∧ db (run now c w) = default (db w) (last js))
  ∧ (∀ task, ∃ t' ev,
     let w' := (PriorityQueue.add now task w).2 in
     journal w' = journal w ++ [QueueDatabase.save_task t' (db w); db w']
     ∧ db w' = QueueDatabase.mk (QueueDatabase.tasks (QueueDatabase.save_task t' (db w)))
                 (QueueDatabase.task_history (db w) ++ [ev])
                 (QueueDatabase.batches (db w))
     ∧ Task.status t' = TaskStatus.PENDING)
  ∧ (QueueDatabase.get_task task_id (db w) = Some t →
  (∀ agent, ∃ t' ev,
     let w' := (QueueManager.start_task now task_id agent w).2 in
     journal w' = journal w ++ [QueueDatabase.save_task t' (db w); db w']
     ∧ db w' = QueueDatabase.mk (QueueDatabase.tasks (QueueDatabase.save_task t' (db w)))
                 (QueueDatabase.task_history (db w) ++ [ev])
                 (QueueDatabase.batches (db w))
     ∧ Task.status t' = TaskStatus.RUNNING)
  ∧ (∀ success, ∃ t' ev,
     let w' := (QueueManager.complete_task now task_id success w).2 in
     journal w' = journal w ++ [QueueDatabase.save_task t' (db w); db w']
     ∧ db w' = QueueDatabase.mk (QueueDatabase.tasks (QueueDatabase.save_task t' (db w)))
                 (QueueDatabase.task_history (db w) ++ [ev])
                 (QueueDatabase.batches (db w))
     ∧ Task.status t' = (if success then TaskStatus.COMPLETED else TaskStatus.FAILED))
  ∧ (Task.retry_count t < Task.max_retries t → ∃ t' ev,
     let w' := (QueueManager.retry_task now task_id w).2 in
     journal w' = journal w ++ [QueueDatabase.save_task t' (db w); db w']
     ∧ db w' = QueueDatabase.mk (QueueDatabase.tasks (QueueDatabase.save_task t' (db w)))
                 (QueueDatabase.task_history (db w) ++ [ev])
                 (QueueDatabase.batches (db w))
     ∧ Task.retry_count t' = Task.retry_count t + 1)
  ∧ (∀ new_priority is_boost, ∃ ev,
     let w' := (PriorityQueue.update_priority now task_id new_priority is_boost w).2 in
     let d1 := QueueDatabase.mk (QueueDatabase.tasks (db w))
                 (QueueDatabase.task_history (db w) ++ [ev])
                 (QueueDatabase.batches (db w)) in
     journal w' = journal w ++ [d1; db w']
     ∧ db w' = QueueDatabase.save_task (reprioritized now new_priority is_boost t) d1)).
Proof.
  split; [intros c; apply run_commits|]. split.
  { intros task. unfold PriorityQueue.add, PriorityQueue.map_set, PriorityQueue.heap_push.
    unfold_M. cbn zeta. eexists _, _. cbn [snd journal db set_task_map set_heap].
    rewrite <-app_assoc. split; [reflexivity|]. split; [reflexivity|]. by destruct task. }
  intros Hget. repeat split.
  - intros agent. unfold QueueManager.start_task, QueueManager._move_task_file.
    unfold_M. rewrite Hget. cbn zeta. eexists _, _. cbn [snd journal db].
    rewrite <-app_assoc. split; [reflexivity|]. split; [reflexivity|].
    destruct agent as [a|]; [destruct (decide (a = ""))|]; by destruct t.
  - intros success. unfold QueueManager.complete_task, QueueManager._move_task_file.
    unfold_M. rewrite Hget. cbn zeta. eexists _, _. cbn [snd journal db].
    rewrite <-app_assoc. split; [reflexivity|]. split; [reflexivity|]. by destruct t.
  - intros Hlt. unfold QueueManager.retry_task, QueueManager._move_task_file,
      PriorityQueue.map_set, PriorityQueue.heap_push.
    unfold_M. rewrite Hget.
    destruct (Z.leb_spec (Task.max_retries t) (Task.retry_count t)); [lia|].
    cbn zeta. eexists _, _. cbn [snd journal db set_task_map set_heap].
    rewrite <-app_assoc. split; [reflexivity|]. split; [reflexivity|]. by destruct t.
  - intros p b. unfold PriorityQueue.update_priority, PriorityQueue._rebuild_heap.
    unfold_M. rewrite Hget. cbn zeta.
    exists (TaskHistoryRow.mk task_id (if b then "priority_boost" else "priority_change")
              (Some (Priority.name (Task.priority t))) (Some (Priority.name p)) now).
    destruct b; cbn [snd journal db]; destruct (PyDict.contains _ _);
      cbn [snd journal db set_task_map set_heap]; rewrite <-app_assoc;
      (split; [reflexivity|]); by destruct t.
Qed.

Lemma C6_task_and_history_commit_separately_witness :
  let w' := (QueueManager.start_task 300 "A" None world_AB).2 in
  ∃ t', journal w' = journal world_AB ++ [QueueDatabase.save_task t' (db world_AB); db w']
        ∧ Task.status t' = "running".
Proof.
  cbn zeta.
  destruct (C6_task_and_history_commit_separately 300 world_AB "A"
              (Task.set_updated_at 100 task_A)) as (_ & _ & Hops).
  destruct (Hops eq_refl) as (Hstart & _).
  destruct (Hstart None) as (t' & ev & Hj & _ & Hst).
  exists t'. split; [exact Hj|exact Hst].
Defined.

(** ** Listing by category *)

(** [A] is added in the lowest tier at instant 0 and [B] one tier up an
    hour later, both in the same category; five hours after [A] was
    created the aging pass promotes [A] into the tier of [B], which saves
    its row again. *)
Definition task_old : Task.t :=
  Task.create 0 "A" "older task" Priority.P3_LOW TaskCategory.BACKEND.
Definition task_young : Task.t :=
  Task.create MICROSECONDS_PER_HOUR "B" "younger task" Priority.P2_MEDIUM TaskCategory.BACKEND.

Definition world_aged : World :=
  snd ((PriorityQueue.add 0 task_old ;;
        PriorityQueue.add MICROSECONDS_PER_HOUR task_young ;;
        PriorityQueue.apply_age_boosts (5 * MICROSECONDS_PER_HOUR)) initial_world).

Definition id_priority_created (t : Task.t) : string * Priority.t * Z :=
  (Task.task_id t, Task.priority t, Task.created_at t).

(** C7.  The code breaks the claim: the two queries of
    [get_tasks_by_category] order by priority only.  With [A] and [B]
    pending in one category and one tier and [A] the older one, both forms
    of the query list [B] before [A], while [get_pending_tasks] and
    [get_tasks_by_status] list [A] first. *)
Theorem C7_by_category_ignores_created_at :
  id_priority_created <$>
    QueueDatabase.get_tasks_by_category "backend" (Some "pending") (db world_aged)
  = [ ("B", Priority.P2_MEDIUM, MICROSECONDS_PER_HOUR); ("A", Priority.P2_MEDIUM, 0) ]
  ∧ id_priority_created <$>
      QueueDatabase.get_tasks_by_category "backend" None (db world_aged)
    = [ ("B", Priority.P2_MEDIUM, MICROSECONDS_PER_HOUR); ("A", Priority.P2_MEDIUM, 0) ]
  ∧ id_priority_created <$> QueueDatabase.get_pending_tasks (db world_aged)
    = [ ("A", Priority.P2_MEDIUM, 0); ("B", Priority.P2_MEDIUM, MICROSECONDS_PER_HOUR) ]
  ∧ id_priority_created <$> QueueDatabase.get_tasks_by_status "pending" (db world_aged)
    = [ ("A", Priority.P2_MEDIUM, 0); ("B", Priority.P2_MEDIUM, MICROSECONDS_PER_HOUR) ].
Proof. repeat split; reflexivity. Qed.

(** ** Batches *)

(** Twenty-five pending tasks of one tier, all of a category that is not
    in the list [create_batches] walks. *)
Definition tasks_x : list Task.t :=
  (λ i, Task.create i ("t" +:+ pretty i) "work item" Priority.P2_MEDIUM "x") <$> seqZ 1 25.

Definition world_x : World :=
  foldl (λ w t, (PriorityQueue.add (Task.created_at t) t w).2) initial_world tasks_x.

(** C8, as stated, fails: the category of a task is any text, and
    [create_batches] looks at ten fixed categories only.  Twenty-five
    pending tasks of category [x] and one tier give no batch at all. *)
Lemma C8_unlisted_category_gives_no_batch :
  length (QueueDatabase.get_pending_tasks (db world_x)) = 25%nat
  ∧ Forall (λ t, Task.category t = "x" ∧ Task.priority t = Priority.P2_MEDIUM)
      (QueueDatabase.get_pending_tasks (db world_x))
  ∧ (BatchProcessor.create_batches 1000000 world_x).1 = [].
Proof.
  split; [by vm_compute|]. split; [|by vm_compute].
  apply Forall_forall. intros t (r & -> & Hr & _)%pending_inv.
  rewrite row_to_task_category, row_to_task_priority.
  revert r Hr. apply Forall_forall.
  apply (bool_decide_unpack _). by vm_compute.
Qed.

(** C8, amended.  Given 25 pending tasks of one priority and of one
    category, which is one of the ten categories of [TaskCategory] that
    [create_batches] walks, and whatever else the store holds,
    [create_batches] returns exactly 3 batches for that (priority,
    category) pair, with 10, 10 and 5 tasks and distinct identifiers; the
    tasks of these batches are the 25 tasks, and the batch reference of
    each, in the batch and in the store, is the identifier of the batch
    that holds it. *)
Theorem C8_twenty_five_tasks_three_batches (now : Z) (w : World) (c : string)
    (p : Priority.t) :
  c ∈ BatchProcessor.categories →
  unique_ids (db w) →
  length (group_rows c p (db w)) = 25%nat →
  let bs := filter (λ b, Batch.category b = c ∧ Batch.priority b = p)
              (BatchProcessor.create_batches now w).1 in
  let w' := (BatchProcessor.create_batches now w).2 in
  (length ∘ Batch.tasks) <$> bs = [10; 10; 5]%nat
  ∧ NoDup (Batch.batch_id <$> bs)
  ∧ Forall (λ b, Forall (λ t, Task.batch_id t = Some (Batch.batch_id b)
                              ∧ Task.batch_id <$>
                                  QueueDatabase.get_task (Task.task_id t) (db w')
                                = Some (Some (Batch.batch_id b)))
                   (Batch.tasks b)) bs
  ∧ Task.task_id <$> concat (Batch.tasks <$> bs)
    ≡ₚ TasksRow.task_id <$> group_rows c p (db w).
Proof.
  intros Hc Hnd Hlen. cbn zeta.
  destruct (create_batches_group now c p w Hc Hnd)
    as (w1 & pre & post & Hnd1 & Hsig & Hbs & Hpre & Hpost & Hstored).
  set (ts := group_tasks p c (db w1)) in *.
  pose proof (packed_concat now c p ts [] None (_batch_counter w1)) as Hconcat.
  pose proof (packed_saved_ids now c p ts [] None (_batch_counter w1)) as Hsaved.
  pose proof (packed_well_tagged now c p ts [] None (_batch_counter w1)
                (Forall_nil_2 _) ltac:(done)) as Htag.
  cbn [fmap list_fmap concat from_option app] in Hconcat.
  (* the batches of the pair are the batches of the group *)
  assert (filter (λ b, Batch.category b = c ∧ Batch.priority b = p)
            (BatchProcessor.create_batches now w).1
          = (packed now c p ts [] None (_batch_counter w1)).1.1) as ->.
  { rewrite Hbs, !filter_app, (filter_none _ pre), (filter_none _ post) by done.
    rewrite app_nil_r. cbn [app]. apply filter_all.
    eapply Forall_impl; [exact Htag|]. by intros b (? & ? & _). }
  assert (Task.task_id <$> ts ≡ₚ TasksRow.task_id <$> group_rows c p (db w)) as Hids.
  { unfold ts. rewrite group_tasks_ids. by apply group_rows_perm. }
  assert (length ts = 25%nat) as Hlents.
  { rewrite <-Hlen, <-(length_fmap Task.task_id ts), Hids. by rewrite length_fmap. }
  split; [|split; [|split]].
  - by apply packed_sizes_25.
  - rewrite packed_ids_25 by done.
    repeat (apply NoDup_cons; split;
            [rewrite ?not_elem_of_cons; repeat split;
             try (intros ?%batch_name_inj; lia); apply not_elem_of_nil|]).
    apply NoDup_nil_2.
  - apply Forall_forall. intros b Hb.
    destruct (proj1 (Forall_forall _ _) Htag b Hb) as (_ & _ & Hbt).
    apply Forall_forall. intros t Ht.
    pose proof (proj1 (Forall_forall _ _) Hbt t Ht) as Hid. split; [done|].
    assert (t ∈ (packed now c p ts [] None (_batch_counter w1)).2) as Hin.
    { rewrite <-Hconcat. apply list_elem_of_In, in_concat. exists (Batch.tasks b).
      split; apply list_elem_of_In; [by apply list_elem_of_fmap_2|done]. }
    rewrite (Hstored t Hin). cbn. by rewrite row_round_trip_batch_id, Hid.
  - by rewrite Hconcat, Hsaved.
Qed.

(** Twenty-five pending tasks of category [frontend] and one tier, in a
    store that holds two other pending tasks, one of them of the same
    tier. *)
Definition tasks_frontend : list Task.t :=
  (λ i, Task.create i ("t" +:+ pretty i) "work item" Priority.P2_MEDIUM TaskCategory.FRONTEND)
    <$> seqZ 1 25.

Definition world_mixed : World :=
  foldl (λ w t, (PriorityQueue.add (Task.created_at t) t w).2) world_AB tasks_frontend.

Lemma C8_twenty_five_tasks_three_batches_witness :
  length (QueueDatabase.get_pending_tasks (db world_mixed)) = 27%nat
  ∧ (length ∘ Batch.tasks) <$>
      filter (λ b, Batch.category b = TaskCategory.FRONTEND
                   ∧ Batch.priority b = Priority.P2_MEDIUM)
        (BatchProcessor.create_batches 1000000 world_mixed).1
    = [10; 10; 5]%nat.
Proof.
  split; [by vm_compute|].
  destruct (C8_twenty_five_tasks_three_batches 1000000 world_mixed
              TaskCategory.FRONTEND Priority.P2_MEDIUM) as (Hsizes & _).
  - apply (bool_decide_unpack _). by vm_compute.
  - apply (bool_decide_unpack _). by vm_compute.
  - by vm_compute.
  - exact Hsizes.
Defined.

(** * Further properties *)

(** ** Everything written to the store goes through three statements *)

(** A computation that takes the store from its content to a content
    reached by such statements, whatever the state it starts in. *)
Definition writes_by_steps {A} (m : M A) : Prop :=
  ∀ w, rtc store_step (db w) (db (m w).2).

Section WritesBySteps.
Context {A B : Type}.

Lemma writes_ret (a : A) : writes_by_steps (mret a).
Proof. intros w. reflexivity. Qed.

Lemma writes_bind (m : M A) (k : A → M B) :
  writes_by_steps m → (∀ a, writes_by_steps (k a)) → writes_by_steps (m ≫= k).
Proof.
  intros Hm Hk w. unfold mbind, M_bind. specialize (Hm w).
  destruct (m w) as [a w1]. etrans; [exact Hm|]. apply Hk.
Qed.

Lemma writes_query (q : QueueDatabase.t → A) : writes_by_steps (db_query q).
Proof. intros w. reflexivity. Qed.

Lemma writes_state (f : World → A * World) :
  (∀ w, db (f w).2 = db w) → writes_by_steps (f : M A).
Proof. intros Hf w. rewrite Hf. reflexivity. Qed.
End WritesBySteps.

Lemma writes_get_world : writes_by_steps get_world.
Proof. intros w. reflexivity. Qed.

Lemma writes_modify (f : World → World) :
  (∀ w, db (f w) = db w) → writes_by_steps (modify f).
Proof. intros Hf w. cbn. rewrite Hf. reflexivity. Qed.

Lemma writes_commit (f : QueueDatabase.t → QueueDatabase.t) :
  (∀ d, store_step d (f d)) → writes_by_steps (db_commit f).
Proof. intros Hf w. apply rtc_once, Hf. Qed.

Create HintDb writes discriminated.
#[local] Hint Resolve writes_ret writes_query writes_get_world : writes.
#[local] Hint Extern 1 (writes_by_steps (_ ≫= _)) =>
  apply writes_bind; [|intros ?] : writes.
#[local] Hint Extern 1 (writes_by_steps (db_commit _)) =>
  apply writes_commit; intros ?; constructor : writes.
#[local] Hint Extern 1 (writes_by_steps (modify _)) =>
  apply writes_modify; intros []; reflexivity : writes.
#[local] Hint Extern 2 (writes_by_steps (match ?x with _ => _ end)) =>
  destruct x : writes.

Ltac solve_writes := repeat (progress auto with writes).

Lemma writes_add now task : writes_by_steps (PriorityQueue.add now task).
Proof.
  unfold PriorityQueue.add, PriorityQueue.map_set, PriorityQueue.heap_push. solve_writes.
Qed.

Lemma writes_pop_loop fuel : writes_by_steps (PriorityQueue.pop_loop fuel).
Proof.
  intros w. destruct (pop_loop_spec fuel w) as (h & m & -> & _). reflexivity.
Qed.

Lemma writes_pop : writes_by_steps PriorityQueue.pop.
Proof. intros w. apply writes_pop_loop. Qed.

Lemma writes_peek : writes_by_steps PriorityQueue.peek.
Proof. intros w. rewrite peek_db. reflexivity. Qed.

Lemma writes_update_priority now id p b :
  writes_by_steps (PriorityQueue.update_priority now id p b).
Proof.
  unfold PriorityQueue.update_priority, PriorityQueue._rebuild_heap.
  apply writes_bind; [solve_writes|]. intros [t|]; [|solve_writes].
  apply writes_bind; [destruct b; solve_writes|]. intros t'.
  apply writes_bind; [solve_writes|]. intros _.
  apply writes_bind; [solve_writes|]. intros w.
  apply writes_bind; [|solve_writes].
  destruct (PyDict.contains id (_task_map w)); solve_writes.
Qed.

Lemma writes_boost_loop now l n : writes_by_steps (PriorityQueue.boost_loop now l n).
Proof.
  revert n. induction l as [|t l IH]; intros n; cbn [PriorityQueue.boost_loop].
  - solve_writes.
  - destruct (PriorityQueue.new_priority_for now t) as [p|]; [|apply IH].
    destruct (Priority.truthy p); [|apply IH].
    apply writes_bind; [apply writes_update_priority|intros _; apply IH].
Qed.

Lemma writes_apply_age_boosts now : writes_by_steps (PriorityQueue.apply_age_boosts now).
Proof.
  unfold PriorityQueue.apply_age_boosts.
  apply writes_bind; [solve_writes|intros l; apply writes_boost_loop].
Qed.

Lemma writes__load_from_db : writes_by_steps PriorityQueue._load_from_db.
Proof. intros w. rewrite _load_from_db_spec. reflexivity. Qed.

Lemma writes_pack_task now c p st t : writes_by_steps (BatchProcessor.pack_task now c p st t).
Proof.
  unfold BatchProcessor.pack_task, BatchProcessor._generate_batch_id.
  apply writes_bind; [destruct (BatchProcessor.needs_new_batch st); solve_writes|].
  intros st'. destruct (st'.2) as [i|]; [|solve_writes].
  destruct (st'.1 !! i) as [b|]; [|solve_writes].
  destruct (Batch.add_task b t) as [[? ?] ?]. solve_writes.
Qed.

Lemma writes_pack_tasks now c p ts st :
  writes_by_steps (BatchProcessor.pack_tasks now c p ts st).
Proof.
  revert st. induction ts as [|t ts IH]; intros st; cbn [BatchProcessor.pack_tasks].
  - solve_writes.
  - apply writes_bind; [apply writes_pack_task|intros st'; apply IH].
Qed.

Lemma writes_batch_group now p c bs : writes_by_steps (BatchProcessor.batch_group now p c bs).
Proof.
  unfold BatchProcessor.batch_group. apply writes_bind; [solve_writes|]. intros l.
  destruct (filter _ l); [solve_writes|].
  apply writes_bind; [apply writes_pack_tasks|]. intros st.
  destruct (st.2) as [i|]; [|solve_writes]. destruct (st.1 !! i); solve_writes.
Qed.

Lemma writes_for_categories now p cs bs :
  writes_by_steps (BatchProcessor.for_categories now p cs bs).
Proof.
  revert bs. induction cs as [|c cs IH]; intros bs; cbn [BatchProcessor.for_categories].
  - solve_writes.
  - apply writes_bind; [apply writes_batch_group|intros bs'; apply IH].
Qed.

Lemma writes_for_priorities now ps bs :
  writes_by_steps (BatchProcessor.for_priorities now ps bs).
Proof.
  revert bs. induction ps as [|p ps IH]; intros bs; cbn [BatchProcessor.for_priorities].
  - solve_writes.
  - apply writes_bind; [apply writes_for_categories|intros bs'; apply IH].
Qed.

Lemma writes_create_batches now : writes_by_steps (BatchProcessor.create_batches now).
Proof. apply writes_for_priorities. Qed.

Lemma writes_start_task now id agent : writes_by_steps (QueueManager.start_task now id agent).
Proof. unfold QueueManager.start_task, QueueManager._move_task_file. solve_writes. Qed.

Lemma writes_complete_task now id s : writes_by_steps (QueueManager.complete_task now id s).
Proof. unfold QueueManager.complete_task, QueueManager._move_task_file. solve_writes. Qed.

Lemma writes_retry_task now id : writes_by_steps (QueueManager.retry_task now id).
Proof.
  unfold QueueManager.retry_task, QueueManager._move_task_file,
    PriorityQueue.map_set, PriorityQueue.heap_push.
  apply writes_bind; [solve_writes|]. intros [t|]; [|solve_writes].
  destruct (_ <=? _); solve_writes.
Qed.

Lemma writes_get_next_task now : writes_by_steps (QueueManager.get_next_task now).
Proof.
  unfold QueueManager.get_next_task.
  apply writes_bind; [apply writes_apply_age_boosts|intros _; apply writes_peek].
Qed.

Lemma run_steps (now : Z) (c : call) (w : World) :
  rtc store_step (db w) (db (run now c w)).
Proof.
  destruct c; cbn [run].
  - apply writes_add.
  - apply writes_pop.
  - apply writes_peek.
  - apply writes_update_priority.
  - apply writes_apply_age_boosts.
  - apply writes__load_from_db.
  - apply writes_create_batches.
  - unfold Queries.get_next_batch. revert w. apply writes_bind.
    + apply writes_create_batches.
    + intros [|b bs]; apply writes_ret.
  - unfold QueueManager.add_task. destruct (Priority.from_string priority).
    + revert w. apply writes_bind; [apply writes_add|intros ?; apply writes_ret].
    + reflexivity.
  - apply writes_get_next_task.
  - apply writes_start_task.
  - apply writes_complete_task.
  - apply writes_retry_task.
  - unfold QueueManager.set_priority. destruct (Priority.from_string priority).
    + revert w. apply writes_bind; [apply writes_update_priority|intros ?; apply writes_ret].
    + reflexivity.
  - unfold Queries.list_tasks. revert w. apply writes_bind.
    + destruct status as [st|]; [destruct (decide (st = ""))|]; apply writes_query.
    + intros l. destruct priority as [ps|]; [destruct (decide (ps = ""))|];
        [apply writes_ret| |apply writes_ret].
      destruct (Priority.from_string ps); apply writes_ret.
Qed.

Lemma run_all_steps (calls : list (Z * call)) (w : World) :
  rtc store_step (db w) (db (run_all calls w)).
Proof.
  revert w. induction calls as [|[now c] calls IH]; intros w; [reflexivity|].
  cbn [run_all foldl]. etrans; [apply (run_steps now c w)|apply IH].
Qed.

(** What the three statements keep. *)
Lemma store_step_unique_ids d d' : store_step d d' → unique_ids d → unique_ids d'.
Proof. destruct 1; [apply save_task_unique_ids|done|done]. Qed.

Lemma store_step_history d d' :
  store_step d d' → QueueDatabase.task_history d `prefix_of` QueueDatabase.task_history d'.
Proof. destruct 1; cbn; [done| |done]. by eexists. Qed.

Lemma get_task_save_is_Some (id : string) (t : Task.t) (d : QueueDatabase.t) :
  is_Some (QueueDatabase.get_task id d) →
  is_Some (QueueDatabase.get_task id (QueueDatabase.save_task t d)).
Proof.
  intros H. destruct (decide (Task.task_id t = id)) as [<-|Hne].
  - rewrite get_task_save_eq. by eexists.
  - by rewrite get_task_save_ne.
Qed.

Lemma store_step_keeps_tasks d d' (id : string) :
  store_step d d' →
  is_Some (QueueDatabase.get_task id d) → is_Some (QueueDatabase.get_task id d').
Proof. destruct 1; [apply get_task_save_is_Some|done|done]. Qed.

(** X1.  The primary key holds through every sequence of calls: when the
    task ids of the store are pairwise distinct, they are so after any
    sequence of queue, batch and manager calls. *)
Theorem unique_ids_preserved (calls : list (Z * call)) (w : World) :
  unique_ids (db w) → unique_ids (db (run_all calls w)).
Proof.
  intros H. induction (run_all_steps calls w) as [|d1 d2 d3 Hstep _ IH]; [done|].
  apply IH. by eapply store_step_unique_ids.
Qed.

Lemma unique_ids_preserved_witness :
  unique_ids (db (run_all [(1000000, AddTask 7 "write the report" "high" "backend");
                           (2000000, AddTask 7 "review the patch" "P3" "testing");
                           (3000000, StartTask "task_1_7" None);
                           (4000000, CreateBatches)] initial_world)).
Proof.
  apply unique_ids_preserved. apply NoDup_nil_2.
Defined.

(** X2.  The history is append-only: after any sequence of calls, the
    history of the store begins with the history it had before. *)
Theorem history_append_only (calls : list (Z * call)) (w : World) :
  QueueDatabase.task_history (db w)
  `prefix_of` QueueDatabase.task_history (db (run_all calls w)).
Proof.
  induction (run_all_steps calls w) as [|d1 d2 d3 Hstep _ IH]; [done|].
  etrans; [by apply store_step_history|exact IH].
Qed.

(** X3.  No call removes a task: a task id that the store holds is still
    held after any sequence of calls. *)
Theorem tasks_never_removed (calls : list (Z * call)) (w : World) (id : string) :
  is_Some (QueueDatabase.get_task id (db w)) →
  is_Some (QueueDatabase.get_task id (db (run_all calls w))).
Proof.
  intros H. induction (run_all_steps calls w) as [|d1 d2 d3 Hstep _ IH]; [done|].
  apply IH. by eapply store_step_keeps_tasks.
Qed.

Lemma tasks_never_removed_witness :
  is_Some (QueueDatabase.get_task "A"
             (db (run_all [(400, StartTask "A" (Some "claude"));
                           (500, CompleteTask "A" false);
                           (600, RetryTask "A"); (700, Pop)] world_AB))).
Proof.
  apply tasks_never_removed. vm_compute. by eexists.
Defined.

(** ** The store: rows in, rows out *)

Lemma row_round_trip (t : Task.t) :
  is_Some (Task.original_priority t) →
  QueueDatabase.row_of_task (QueueDatabase._row_to_task (QueueDatabase.row_of_task t))
  = QueueDatabase.row_of_task t.
Proof.
  intros [o Ho]. destruct t as [sp st id p]; cbn in Ho; subst.
  unfold QueueDatabase._row_to_task, QueueDatabase.row_of_task, Task.__post_init__.
  cbn. destruct p; cbn; destruct (_ =? 0); reflexivity.
Qed.

Lemma row_to_task_sort_key (r : TasksRow.t) :
  Task.sort_priority (QueueDatabase._row_to_task r) = Priority.to_int (TasksRow.priority r)
  ∧ Task.sort_timestamp (QueueDatabase._row_to_task r) = - TasksRow.created_at r.
Proof.
  destruct r as [id p o]. unfold QueueDatabase._row_to_task, Task.__post_init__,
    Task.neg_timestamp. cbn.
  destruct p, o; cbn; destruct (Z.eqb_spec (- created_at) 0); cbn; split; lia.
Qed.

(** X4.  What is saved is what is read: after [save_task t], [get_task]
    on the id of [t] finds a task with the columns of [t] (every field but
    the two sort fields) and with the sort key [(int(priority),
    -created_at)]; the task stored under any other id is as it was. *)
Theorem save_task_then_get_task (t : Task.t) (d : QueueDatabase.t) :
  is_Some (Task.original_priority t) →
  (∃ t', QueueDatabase.get_task (Task.task_id t) (QueueDatabase.save_task t d) = Some t'
         ∧ QueueDatabase.row_of_task t' = QueueDatabase.row_of_task t
         ∧ Task.sort_priority t' = Priority.to_int (Task.priority t)
         ∧ Task.sort_timestamp t' = - Task.created_at t)
  ∧ ∀ id, id ≠ Task.task_id t →
          QueueDatabase.get_task id (QueueDatabase.save_task t d)
          = QueueDatabase.get_task id d.
Proof.
  intros Ho. split.
  - eexists. split; [apply get_task_save_eq|]. split; [by apply row_round_trip|].
    apply (row_to_task_sort_key (QueueDatabase.row_of_task t)).
  - intros id Hne. by apply get_task_save_ne.
Qed.

Lemma save_task_then_get_task_witness :
  ∃ t', QueueDatabase.get_task "A" (QueueDatabase.save_task task_A (db world_AB)) = Some t'
        ∧ QueueDatabase.row_of_task t' = QueueDatabase.row_of_task task_A.
Proof.
  destruct (save_task_then_get_task task_A (db world_AB)) as [(t' & Hget & Hrow & _) _].
  - by eexists.
  - exists t'. split; [exact Hget|exact Hrow].
Defined.

(** X5.  [delete_task] reports whether a row had the id, leaves no task
    under it, leaves every other task and the history as they were. *)
Theorem delete_task_spec (id : string) (d : QueueDatabase.t) :
  ((QueueDatabase.delete_task id d).1 = true ↔ is_Some (QueueDatabase.get_task id d))
  ∧ QueueDatabase.get_task id (QueueDatabase.delete_task id d).2 = None
  ∧ (∀ id', id' ≠ id →
       QueueDatabase.get_task id' (QueueDatabase.delete_task id d).2
       = QueueDatabase.get_task id' d)
  ∧ QueueDatabase.task_history (QueueDatabase.delete_task id d).2
    = QueueDatabase.task_history d.
Proof.
  unfold QueueDatabase.delete_task, QueueDatabase.get_task. cbn [fst snd QueueDatabase.tasks].
  split; [|split; [|split; [|reflexivity]]].
  - rewrite bool_decide_eq_true, Exists_exists. split.
    + intros (r & Hr & Hid).
      destruct (filter _ (QueueDatabase.tasks d)) as [|r' l] eqn:Hf; [|by eexists].
      assert (r ∈ filter (λ r, TasksRow.task_id r = id) (QueueDatabase.tasks d)) as Hin
        by by apply list_elem_of_filter.
      rewrite Hf in Hin. by apply elem_of_nil in Hin.
    + intros [t Ht]. destruct (head _) as [r|] eqn:Hh; [|done].
      apply head_Some_elem_of, list_elem_of_filter in Hh as [? ?]. by exists r.
  - rewrite list_filter_filter, filter_none; [done|].
    apply Forall_forall. intros r _ [? ?]. done.
  - intros id' Hne. rewrite list_filter_filter. f_equal. f_equal.
    apply list_filter_iff. intros r. split; [by intros [? ?]|]. intros <-. done.
Qed.

(** ** The order of the listings *)

Section OrderBySorted.
Context {A : Type} (le : A → A → bool).
Hypothesis le_total : ∀ a b, le a b = true ∨ le b a = true.
Hypothesis le_trans : ∀ a b c, le a b = true → le b c = true → le a c = true.

Lemma order_insert_sorted (x : A) (l : list A) :
  StronglySorted (λ a b, le a b = true) l →
  StronglySorted (λ a b, le a b = true) (order_insert le x l).
Proof.
  induction 1 as [|y l Hl IH Hy]; cbn [order_insert].
  - repeat constructor.
  - destruct (le x y) eqn:Hxy.
    + constructor; [by constructor|]. constructor; [done|].
      eapply Forall_impl; [exact Hy|]. intros z Hz. by eapply le_trans.
    + constructor; [exact IH|].
      rewrite order_insert_perm. constructor; [|exact Hy].
      destruct (le_total x y); congruence.
Qed.

Lemma order_by_sorted (l : list A) :
  StronglySorted (λ a b, le a b = true) (order_by le l).
Proof.
  induction l as [|x l IH]; cbn [order_by]; [constructor|].
  by apply order_insert_sorted.
Qed.
End OrderBySorted.

Lemma StronglySorted_weaken {A} (R S : A → A → Prop) (l : list A) :
  (∀ a b, R a b → S a b) → StronglySorted R l → StronglySorted S l.
Proof.
  intros HRS. induction 1 as [|x l _ IH Hx]; constructor; [exact IH|].
  eapply Forall_impl; [exact Hx|]. intros y. apply HRS.
Qed.

Lemma StronglySorted_fmap {A B} (f : A → B) (R : B → B → Prop) (l : list A) :
  StronglySorted (λ a b, R (f a) (f b)) l → StronglySorted R (f <$> l).
Proof.
  induction 1 as [|x l _ IH Hx]; [constructor|].
  rewrite fmap_cons. constructor; [exact IH|]. by apply Forall_fmap.
Qed.

(** The two orders the queries ask for, on tasks. *)
Definition by_priority_then_created (a b : Task.t) : Prop :=
  Priority.to_int (Task.priority a) < Priority.to_int (Task.priority b)
  ∨ (Task.priority a = Task.priority b ∧ Task.created_at a <= Task.created_at b).

Definition by_priority (a b : Task.t) : Prop :=
  Priority.to_int (Task.priority a) <= Priority.to_int (Task.priority b).

Lemma to_int_inj (p q : Priority.t) : Priority.to_int p = Priority.to_int q → p = q.
Proof. by destruct p, q. Qed.

Lemma sorted_priority_created (rows : list TasksRow.t) :
  StronglySorted by_priority_then_created
    (QueueDatabase._row_to_task <$> order_by QueueDatabase.le_priority_created rows).
Proof.
  apply StronglySorted_fmap.
  eapply StronglySorted_weaken; [|apply order_by_sorted].
  - intros a b. unfold QueueDatabase.le_priority_created, by_priority_then_created.
    rewrite !row_to_task_priority, !row_to_task_created_at.
    intros [?%Z.ltb_lt|[?%Z.eqb_eq ?%Z.leb_le]%andb_true_iff]%orb_true_iff;
      [by left|right]. split; [by apply to_int_inj|done].
  - intros a b. unfold QueueDatabase.le_priority_created.
    destruct (Z.ltb_spec (Priority.to_int (TasksRow.priority a))
                (Priority.to_int (TasksRow.priority b))),
             (Z.ltb_spec (Priority.to_int (TasksRow.priority b))
                (Priority.to_int (TasksRow.priority a))),
             (Z.eqb_spec (Priority.to_int (TasksRow.priority a))
                (Priority.to_int (TasksRow.priority b))),
             (Z.eqb_spec (Priority.to_int (TasksRow.priority b))
                (Priority.to_int (TasksRow.priority a))),
             (Z.leb_spec (TasksRow.created_at a) (TasksRow.created_at b)),
             (Z.leb_spec (TasksRow.created_at b) (TasksRow.created_at a));
      cbn; auto; lia.
  - intros a b c. unfold QueueDatabase.le_priority_created.
    rewrite !orb_true_iff, !andb_true_iff, !Z.ltb_lt, !Z.eqb_eq, !Z.leb_le. lia.
Qed.

Lemma sorted_priority (rows : list TasksRow.t) :
  StronglySorted by_priority
    (QueueDatabase._row_to_task <$> order_by QueueDatabase.le_priority rows).
Proof.
  apply StronglySorted_fmap.
  eapply StronglySorted_weaken; [|apply order_by_sorted].
  - intros a b. unfold QueueDatabase.le_priority, by_priority.
    rewrite !row_to_task_priority. by intros ?%Z.leb_le.
  - intros a b. unfold QueueDatabase.le_priority. rewrite !Z.leb_le. lia.
  - intros a b c. unfold QueueDatabase.le_priority. rewrite !Z.leb_le. lia.
Qed.

(** X6.  [get_tasks_by_status] (and [get_pending_tasks], its instance for
    the pending status) returns the tasks of that status, each row once,
    ordered by priority and, within a priority, by creation time. *)
Theorem get_tasks_by_status_spec (status : string) (d : QueueDatabase.t) :
  QueueDatabase.get_tasks_by_status status d
  ≡ₚ QueueDatabase._row_to_task <$>
       filter (λ r, TasksRow.status r = status) (QueueDatabase.tasks d)
  ∧ StronglySorted by_priority_then_created (QueueDatabase.get_tasks_by_status status d)
  ∧ QueueDatabase.get_pending_tasks d = QueueDatabase.get_tasks_by_status "pending" d.
Proof.
  unfold QueueDatabase.get_tasks_by_status. split; [|split; [|reflexivity]].
  - by rewrite order_by_perm.
  - apply sorted_priority_created.
Qed.

(** The status filter of [get_tasks_by_category]: none when the argument
    is [None] or the empty string. *)
Definition status_matches (status : option string) (r : TasksRow.t) : Prop :=
  match status with
  | Some st => st = "" ∨ TasksRow.status r = st
  | None => True
  end.

Global Instance status_matches_dec status r : Decision (status_matches status r).
Proof. destruct status; apply _. Defined.

(** X7.  [get_tasks_by_category] returns the tasks of the category, and of
    the status when one is given, each row once, ordered by priority; a
    status that is the empty string counts as no status. *)
Theorem get_tasks_by_category_spec (category : string) (status : option string)
    (d : QueueDatabase.t) :
  QueueDatabase.get_tasks_by_category category status d
  ≡ₚ QueueDatabase._row_to_task <$>
       filter (λ r, TasksRow.category r = category ∧ status_matches status r)
         (QueueDatabase.tasks d)
  ∧ StronglySorted by_priority (QueueDatabase.get_tasks_by_category category status d).
Proof.
  unfold QueueDatabase.get_tasks_by_category.
  destruct status as [st|]; [destruct (decide (st = "")) as [->|Hne]|];
    (split; [rewrite order_by_perm|apply sorted_priority]);
    (erewrite list_filter_iff; [reflexivity|]); intros r; cbn.
  - split; [intros ->; split; [done|by left]|by intros [? _]].
  - split; [intros [-> ->]; split; [done|by right]|].
    intros [-> [?|?]]; done.
  - split; [by intros ->|by intros [? _]].
Qed.

(** ** The queue: what [pop] and [peek] return *)

Section HeapLength.
Context {T : Type} (lt : T → T → bool).

Lemma _siftdown_loop_length fuel (heap : list T) newitem startpos pos :
  length (heapq._siftdown_loop lt fuel heap newitem startpos pos) = length heap.
Proof.
  revert heap pos. induction fuel as [|fuel IH]; intros heap pos;
    cbn [heapq._siftdown_loop]; [by rewrite length_insert|].
  destruct (startpos <? pos)%nat; [|by rewrite length_insert].
  destruct (heap !! _) as [parent|]; [|by rewrite length_insert].
  destruct (lt newitem parent); [|by rewrite length_insert].
  by rewrite IH, length_insert.
Qed.

Lemma _siftdown_length (heap : list T) startpos pos :
  length (heapq._siftdown lt heap startpos pos) = length heap.
Proof.
  unfold heapq._siftdown. destruct (heap !! pos); [|done].
  apply _siftdown_loop_length.
Qed.

Lemma _siftup_loop_length fuel (heap : list T) endpos pos childpos :
  length (heapq._siftup_loop lt fuel heap endpos pos childpos).1 = length heap.
Proof.
  revert heap pos childpos. induction fuel as [|fuel IH]; intros heap pos childpos;
    cbn [heapq._siftup_loop]; [done|].
  destruct (childpos <? endpos)%nat; [|done].
  destruct (heap !! _) as [child|]; [|done].
  by rewrite IH, length_insert.
Qed.

Lemma _siftup_length (heap : list T) pos :
  length (heapq._siftup lt heap pos) = length heap.
Proof.
  unfold heapq._siftup. destruct (heap !! pos) as [newitem|]; [|done].
  pose proof (_siftup_loop_length (length heap) heap (length heap) pos (2 * pos + 1)) as H.
  destruct (heapq._siftup_loop _ _ _ _ _ _) as [heap' pos'].
  by rewrite _siftdown_length, length_insert.
Qed.

Lemma heappush_length (heap : list T) (item : T) :
  length (heapq.heappush lt heap item) = S (length heap).
Proof.
  unfold heapq.heappush. rewrite _siftdown_length, length_app. cbn. lia.
Qed.

Lemma heappop_length (heap heap' : list T) (x : T) :
  heapq.heappop lt heap = Some (x, heap') → length heap = S (length heap').
Proof.
  unfold heapq.heappop. destruct (last heap) as [lastelt|] eqn:Hlast; [|done].
  apply last_Some in Hlast as [l' ->]. rewrite removelast_last, length_app.
  destruct l' as [|y l']; intros [= <- <-]; [done|].
  rewrite _siftup_length. cbn. lia.
Qed.

Lemma heappop_None (heap : list T) : heapq.heappop lt heap = None ↔ heap = [].
Proof.
  unfold heapq.heappop. split; [|by intros ->].
  destruct (last heap) as [lastelt|] eqn:Hlast.
  - by destruct (removelast heap).
  - intros _. by apply last_None.
Qed.
End HeapLength.

(** What [peek_loop] returns is a pending task read from the store. *)
Lemma peek_loop_spec (fuel : nat) (w : World) (t : Task.t) :
  (PriorityQueue.peek_loop fuel w).1 = Some t →
  QueueDatabase.get_task (Task.task_id t) (db w) = Some t
  ∧ Task.status t = TaskStatus.PENDING.
Proof.
  revert w. induction fuel as [|fuel IH]; intros w; cbn [PriorityQueue.peek_loop]; [done|].
  unfold_M.
  assert (∀ h0, (PriorityQueue.peek_loop fuel (set_heap h0 w)).1 = Some t →
                QueueDatabase.get_task (Task.task_id t) (db w) = Some t
                ∧ Task.status t = TaskStatus.PENDING) as Hdiscard.
  { intros h0 H. by apply (IH (set_heap h0 w)). }
  destruct (_heap w) as [|task rest]; [done|].
  destruct (PyDict.contains _ _); [|apply Hdiscard].
  destruct (QueueDatabase.get_task (Task.task_id task) (db w)) as [current|] eqn:Hget;
    [|apply Hdiscard].
  destruct (decide (Task.status current = TaskStatus.PENDING)) as [Hst|]; [|apply Hdiscard].
  intros [= <-]. split; [|exact Hst]. by rewrite (get_task_id _ _ _ Hget).
Qed.

(** X8.  [pop] and [peek] never hand out a stale entry: the task either
    returns is the task the store holds under that id, and its stored
    status is pending. *)
Theorem pop_peek_return_stored_pending (w : World) (t : Task.t) :
  (PriorityQueue.pop w).1 = Some t ∨ (PriorityQueue.peek w).1 = Some t →
  QueueDatabase.get_task (Task.task_id t) (db w) = Some t
  ∧ Task.status t = "pending".
Proof.
  intros [H|H].
  - destruct (pop_loop_spec (length (_heap w)) w) as (_ & _ & _ & Ht). by apply Ht.
  - by apply (peek_loop_spec (length (_heap w)) w).
Qed.

(** A world whose heap holds an entry for [A], started meanwhile, above
    the entry for [B]. *)
Definition world_stale : World :=
  run_all [(100, Add task_B); (200, Add task_A); (300, StartTask "B" None)] initial_world.

Lemma pop_peek_return_stored_pending_witness :
  Task.task_id <$> (PriorityQueue.pop world_stale).1 = Some "A"
  ∧ Task.status <$> QueueDatabase.get_task "B" (db world_stale) = Some "running"
  ∧ Task.status <$> (PriorityQueue.pop world_stale).1 = Some "pending".
Proof.
  split; [by vm_compute|]. split; [by vm_compute|].
  destruct (PriorityQueue.pop world_stale).1 as [t|] eqn:Hpop; [|by vm_compute in Hpop].
  destruct (pop_peek_return_stored_pending world_stale t) as [_ Hst]; [by left|].
  cbn. by rewrite Hst.
Defined.

(** The loops run to their end on the fuel they are given. *)
Lemma pop_loop_None (fuel : nat) (w : World) :
  (length (_heap w) ≤ fuel)%nat →
  (PriorityQueue.pop_loop fuel w).1 = None → _heap (PriorityQueue.pop_loop fuel w).2 = [].
Proof.
  revert w. induction fuel as [|fuel IH]; intros w Hlen; cbn [PriorityQueue.pop_loop].
  { intros _. cbn. destruct (_heap w); [done|cbn in Hlen; lia]. }
  unfold_M.
  destruct (heapq.heappop Task.lt (_heap w)) as [[task heap']|] eqn:Hpop.
  2:{ intros _. cbn. by apply heappop_None in Hpop. }
  apply heappop_length in Hpop.
  assert ((PriorityQueue.pop_loop fuel (set_heap heap' w)).1 = None →
          _heap (PriorityQueue.pop_loop fuel (set_heap heap' w)).2 = []) as Hnext.
  { apply IH. cbn. lia. }
  destruct (PyDict.contains _ _); [|exact Hnext].
  cbn [db set_heap].
  destruct (QueueDatabase.get_task _ _) as [current|]; [|exact Hnext].
  destruct (decide _); [done|exact Hnext].
Qed.

Lemma peek_loop_None (fuel : nat) (w : World) :
  (length (_heap w) ≤ fuel)%nat →
  (PriorityQueue.peek_loop fuel w).1 = None → _heap (PriorityQueue.peek_loop fuel w).2 = [].
Proof.
  revert w. induction fuel as [|fuel IH]; intros w Hlen; cbn [PriorityQueue.peek_loop].
  { intros _. cbn. destruct (_heap w); [done|cbn in Hlen; lia]. }
  unfold_M.
  assert (∀ h0, (length h0 ≤ fuel)%nat →
            (PriorityQueue.peek_loop fuel (set_heap h0 w)).1 = None →
            _heap (PriorityQueue.peek_loop fuel (set_heap h0 w)).2 = []) as Hnext.
  { intros h0 Hh0. by apply IH. }
  assert (length (default [] (snd <$> heapq.heappop Task.lt (_heap w))) ≤ fuel)%nat as Hl.
  { destruct (heapq.heappop Task.lt (_heap w)) as [[x h']|] eqn:Hpop; cbn; [|lia].
    apply heappop_length in Hpop. lia. }
  cbv beta.
  destruct (_heap w) as [|task rest] eqn:Hheap; [done|].
  destruct (PyDict.contains _ _); [|cbv beta; rewrite Hheap; by apply Hnext].
  destruct (QueueDatabase.get_task _ _) as [current|];
    [|cbv beta; rewrite Hheap; by apply Hnext].
  destruct (decide _); [done|cbv beta; rewrite Hheap; by apply Hnext].
Qed.

(** X9.  [pop] and [peek] give up only on an empty heap: when either
    returns [None], every entry of the heap has been examined and removed,
    and the heap is empty afterwards. *)
Theorem pop_peek_None_empties_heap (w : World) :
  ((PriorityQueue.pop w).1 = None → _heap (PriorityQueue.pop w).2 = [])
  ∧ ((PriorityQueue.peek w).1 = None → _heap (PriorityQueue.peek w).2 = []).
Proof.
  split; [by apply pop_loop_None|by apply peek_loop_None].
Qed.

(** ** Aging: what a pass promotes and what it leaves *)

(** A task the pass promotes: in one of the two lower tiers and at least
    as old as the threshold of its tier. *)
Definition due (now : Z) (t : Task.t) : Prop :=
  (Task.priority t = Priority.P3_LOW
   ∧ AGE_BOOST_P3_to_P2 * MICROSECONDS_PER_HOUR <= now - Task.created_at t)
  ∨ (Task.priority t = Priority.P2_MEDIUM
     ∧ AGE_BOOST_P2_to_P1 * MICROSECONDS_PER_HOUR <= now - Task.created_at t).

Global Instance due_dec now t : Decision (due now t).
Proof. unfold due. apply _. Defined.

Lemma due_iff (now : Z) (t : Task.t) :
  due now t ↔ ∃ p, PriorityQueue.new_priority_for now t = Some p ∧ Priority.truthy p = true.
Proof.
  unfold due, PriorityQueue.new_priority_for. split.
  - intros [[-> H]|[-> H]]; apply Z.leb_le in H; rewrite H; by eexists.
  - intros (p & Hp & Htr).
    destruct (Task.priority t); [done| | |].
    + destruct (_ <=? _); [|done]. by simplify_eq.
    + destruct (Z.leb_spec (AGE_BOOST_P2_to_P1 * MICROSECONDS_PER_HOUR)
                  (now - Task.created_at t)); [by right|done].
    + destruct (Z.leb_spec (AGE_BOOST_P3_to_P2 * MICROSECONDS_PER_HOUR)
                  (now - Task.created_at t)); [by left|done].
Qed.

Lemma boost_loop_count (now : Z) (l : list Task.t) (n : Z) (w : World) :
  (PriorityQueue.boost_loop now l n w).1 = n + Z.of_nat (length (filter (due now) l)).
Proof.
  revert n w. induction l as [|t l IH]; intros n w; cbn [PriorityQueue.boost_loop].
  { cbn. lia. }
  rewrite filter_cons.
  destruct (decide (due now t)) as [Hd|Hd].
  - apply due_iff in Hd as (p & -> & ->). unfold_M.
    destruct (PriorityQueue.update_priority _ _ _ _ _) as [b w1].
    rewrite IH. cbn [length]. lia.
  - destruct (PriorityQueue.new_priority_for now t) as [p|] eqn:Hp; [|apply IH].
    destruct (Priority.truthy p) eqn:Htr; [|apply IH].
    destruct Hd. apply due_iff. by exists p.
Qed.

(** X10.  The number [apply_age_boosts] returns is the number of pending
    tasks that are due: those of the lowest tier pending for 4 hours or
    more and those of the next tier pending for 8 hours or more.  Tasks of
    the two upper tiers are never counted. *)
Theorem apply_age_boosts_count (now : Z) (w : World) :
  (PriorityQueue.apply_age_boosts now w).1
  = Z.of_nat (length (filter (due now) (QueueDatabase.get_pending_tasks (db w)))).
Proof.
  unfold PriorityQueue.apply_age_boosts. unfold_M. by rewrite boost_loop_count.
Qed.

(** X11.  A pass changes due pending tasks only: the stored record of a
    task that is not pending, or is pending and not due, is after the pass
    what it was before. *)
Theorem apply_age_boosts_leaves_the_rest (now : Z) (w : World) (r : TasksRow.t) :
  unique_ids (db w) →
  r ∈ QueueDatabase.tasks (db w) →
  TasksRow.status r ≠ "pending" ∨ ¬ due now (QueueDatabase._row_to_task r) →
  QueueDatabase.get_task (TasksRow.task_id r) (db (PriorityQueue.apply_age_boosts now w).2)
  = Some (QueueDatabase._row_to_task r).
Proof.
  intros Hnd Hin Hr. unfold PriorityQueue.apply_age_boosts. unfold_M.
  rewrite boost_loop_preserves; [by apply get_task_elem|].
  apply Forall_forall. intros t (r' & -> & Hr' & Hst)%pending_inv Hid p Hp.
  rewrite row_to_task_id in Hid.
  rewrite (rows_unique _ _ _ Hnd Hr' Hin Hid) in *.
  destruct Hr as [?|Hnd']; [done|].
  destruct (Priority.truthy p) eqn:Htr; [|done].
  destruct Hnd'. apply due_iff. by exists p.
Qed.

Lemma apply_age_boosts_leaves_the_rest_witness :
  let now := 5 * MICROSECONDS_PER_HOUR in
  let r := QueueDatabase.row_of_task
             (default task_young (QueueDatabase.get_task "B" (db world_aged))) in
  TasksRow.task_id r = "B"
  ∧ QueueDatabase.get_task (TasksRow.task_id r)
      (db (PriorityQueue.apply_age_boosts now world_aged).2)
    = Some (QueueDatabase._row_to_task r).
Proof.
  intros now r. split; [by vm_compute|].
  apply (apply_age_boosts_leaves_the_rest now world_aged r).
  - apply (bool_decide_unpack _). by vm_compute.
  - vm_compute. apply list_elem_of_here.
  - right. apply (bool_decide_unpack _). by vm_compute.
Defined.

(** ** [update_priority] and [add] *)

(** X12.  [update_priority] on a task that exists returns [True]; the
    stored task gets the new priority and the instant of the call as its
    update time, one more boost if the change is a boost, and keeps its
    original priority, status, creation time and retry count; one history
    event is appended, naming the old and the new priority.  On a task
    that does not exist it returns [False] and changes nothing. *)
Theorem update_priority_spec (now : Z) (id : string) (p : Priority.t) (is_boost : bool)
    (w : World) :
  match QueueDatabase.get_task id (db w) with
  | None => PriorityQueue.update_priority now id p is_boost w = (false, w)
  | Some t =>
      (PriorityQueue.update_priority now id p is_boost w).1 = true
      ∧ (∃ t', QueueDatabase.get_task id
                 (db (PriorityQueue.update_priority now id p is_boost w).2) = Some t'
               ∧ Task.priority t' = p
               ∧ Task.updated_at t' = now
               ∧ Task.boost_count t' = Task.boost_count t + (if is_boost then 1 else 0)
               ∧ Task.original_priority t' = Task.original_priority t
               ∧ Task.status t' = Task.status t
               ∧ Task.created_at t' = Task.created_at t
               ∧ Task.retry_count t' = Task.retry_count t)
      ∧ QueueDatabase.task_history
          (db (PriorityQueue.update_priority now id p is_boost w).2)
        = QueueDatabase.task_history (db w)
          ++ [TaskHistoryRow.mk id (if is_boost then "priority_boost" else "priority_change")
                (Some (Priority.name (Task.priority t))) (Some (Priority.name p)) now]
  end.
Proof.
  destruct (QueueDatabase.get_task id (db w)) as [t|] eqn:Hget;
    [|by apply update_priority_missing].
  destruct (update_priority_db now id p is_boost w t Hget) as [Htrue Hdb].
  split; [exact Htrue|]. rewrite Hdb. split; [|reflexivity].
  pose proof (get_task_id _ _ _ Hget) as Hid.
  destruct (get_task_Some _ _ _ Hget) as (r & _ & _ & ->).
  set (t := QueueDatabase._row_to_task r) in *.
  exists (QueueDatabase._row_to_task
            (QueueDatabase.row_of_task (reprioritized now p is_boost t))).
  split.
  { rewrite <-Hid at 1. rewrite <-(reprioritized_id now p is_boost t) at 1.
    apply get_task_save_eq. }
  assert (is_Some (Task.original_priority t)) as [o Ho].
  { unfold t, QueueDatabase._row_to_task, Task.__post_init__. cbn.
    repeat (case_match; cbn); by eexists. }
  assert (QueueDatabase.row_of_task
            (QueueDatabase._row_to_task
               (QueueDatabase.row_of_task (reprioritized now p is_boost t)))
          = QueueDatabase.row_of_task (reprioritized now p is_boost t)) as Hrow.
  { apply row_round_trip. exists o. destruct t, is_boost; cbn in *; done. }
  generalize dependent (QueueDatabase._row_to_task
                          (QueueDatabase.row_of_task (reprioritized now p is_boost t))).
  intros t' Hrow.
  assert (∀ {X} (f : TasksRow.t → X), f (QueueDatabase.row_of_task t')
            = f (QueueDatabase.row_of_task (reprioritized now p is_boost t))) as Hf
    by (intros; by rewrite Hrow).
  pose proof (Hf _ TasksRow.priority) as H1.
  pose proof (Hf _ TasksRow.updated_at) as H2.
  pose proof (Hf _ TasksRow.boost_count) as H3.
  pose proof (Hf _ TasksRow.original_priority) as H4.
  pose proof (Hf _ TasksRow.status) as H5.
  pose proof (Hf _ TasksRow.created_at) as H6.
  pose proof (Hf _ TasksRow.retry_count) as H7.
  cbn [QueueDatabase.row_of_task TasksRow.priority TasksRow.updated_at
       TasksRow.boost_count TasksRow.original_priority TasksRow.status
       TasksRow.created_at TasksRow.retry_count] in H1, H2, H3, H4, H5, H6, H7.
  rewrite H1, H2, H3, H4, H5, H6, H7.
  clear. destruct t, is_boost; cbn; repeat split; lia.
Qed.


Lemma elem_of_heappush (heap : list Task.t) (t : Task.t) :
  t ∈ heapq.heappush Task.lt heap t.
Proof. rewrite heappush_perm. apply list_elem_of_here. Qed.

(** What one [add] does to the store, the index and the heap. *)
Lemma add_effect (now : Z) (task : Task.t) (w : World) :
  let t := (PriorityQueue.add now task w).1 in
  let w' := (PriorityQueue.add now task w).2 in
  t = Task.set_updated_at now (Task.set_status "pending" task)
  ∧ QueueDatabase.get_task (Task.task_id task) (db w')
    = Some (QueueDatabase._row_to_task (QueueDatabase.row_of_task t))
  ∧ Task.status <$> QueueDatabase.get_task (Task.task_id task) (db w') = Some "pending"
  ∧ QueueDatabase.task_history (db w')
    = QueueDatabase.task_history (db w)
      ++ [TaskHistoryRow.mk (Task.task_id task) "created" None
            (Some (Priority.name (Task.priority task))) now]
  ∧ PyDict.get (Task.task_id task) (_task_map w') = Some t
  ∧ t ∈ _heap w'
  ∧ length (_heap w') = S (length (_heap w)).
Proof.
  cbn zeta. unfold PriorityQueue.add, PriorityQueue.map_set, PriorityQueue.heap_push.
  unfold_M. cbn [fst snd db _task_map _heap set_task_map set_heap].
  assert (Task.task_id (Task.set_updated_at now (Task.set_status TaskStatus.PENDING task))
          = Task.task_id task) as Hid by by destruct task.
  assert (Task.priority (Task.set_updated_at now (Task.set_status TaskStatus.PENDING task))
          = Task.priority task) as Hp by by destruct task.
  rewrite Hid, Hp. split; [reflexivity|].
  assert (QueueDatabase.get_task (Task.task_id task)
            (QueueDatabase.record_history now (Task.task_id task) "created" None
               (Some (Priority.name (Task.priority task)))
               (QueueDatabase.save_task
                  (Task.set_updated_at now (Task.set_status TaskStatus.PENDING task)) (db w)))
          = Some (QueueDatabase._row_to_task
                    (QueueDatabase.row_of_task
                       (Task.set_updated_at now
                          (Task.set_status TaskStatus.PENDING task))))) as Hget.
  { rewrite get_task_record_history, <-Hid. apply get_task_save_eq. }
  split; [exact Hget|]. split.
  { rewrite Hget. cbn [fmap option_fmap option_map]. rewrite row_to_task_status.
    by destruct task. }
  split; [reflexivity|]. split; [apply pydict_get_set_eq|].
  split; [apply elem_of_heappush|apply heappush_length].
Qed.






(** ** Batches: bounds and membership *)

(** X16.  [Batch.add_task] accepts a task exactly when the batch holds
    fewer than [BATCH_SIZE_LIMIT] tasks and the task is of the category of
    the batch; it then appends the task, tagged with the identifier of the
    batch.  A refused task and the batch are left as they are.  A batch
    within the limit stays within it. *)
Theorem Batch_add_task_spec (b : Batch.t) (t : Task.t) :
  let '(ok, b', t') := Batch.add_task b t in
  (ok = true ↔ (length (Batch.tasks b) < BATCH_SIZE_LIMIT)%nat
               ∧ Task.category t = Batch.category b)
  ∧ (ok = false → b' = b ∧ t' = t)
  ∧ (ok = true → t' = Task.set_batch_id (Some (Batch.batch_id b)) t
                 ∧ Batch.tasks b' = Batch.tasks b ++ [t'])
  ∧ Batch.batch_id b' = Batch.batch_id b ∧ Batch.category b' = Batch.category b
  ∧ ((length (Batch.tasks b) ≤ BATCH_SIZE_LIMIT)%nat →
     (length (Batch.tasks b') ≤ BATCH_SIZE_LIMIT)%nat).
Proof.
  unfold Batch.add_task.
  destruct (Nat.leb_spec BATCH_SIZE_LIMIT (length (Batch.tasks b))) as [Hfull|Hroom].
  { repeat split; try done; try lia; try (intros [? _]; lia). }
  destruct (String.eqb_spec (Task.category t) (Batch.category b)) as [Hc|Hc]; cbn [negb].
  - repeat split; try done; try (intros _; cbn; rewrite length_app; cbn; lia).
  - repeat split; try done; try (by intros [_ ?]).
Qed.

Section BatchShape.
Variable now : Z.

(** A batch as [create_batches] returns it. *)
Definition batch_ok (b : Batch.t) : Prop :=
  (1 ≤ length (Batch.tasks b) ≤ BATCH_SIZE_LIMIT)%nat
  ∧ Forall (λ t, Task.batch_id t = Some (Batch.batch_id b)
                 ∧ Task.category t = Batch.category b
                 ∧ Task.priority t = Batch.priority b
                 ∧ Task.status t = "pending") (Batch.tasks b).

Lemma batch_ok_first (c : string) (p : Priority.t) (ctr : Z) (t : Task.t) :
  Task.category t = c → Task.priority t = p → Task.status t = "pending" →
  batch_ok (Batch.set_tasks
              (Batch.tasks (fresh_batch now c p ctr) ++ [tagged (fresh_batch now c p ctr) t])
              (fresh_batch now c p ctr)).
Proof.
  intros Hc Hp Hs. split; [cbn; unfold BATCH_SIZE_LIMIT; lia|].
  apply Forall_singleton. cbn. by destruct t.
Qed.

Lemma batch_ok_more (b : Batch.t) (t : Task.t) :
  batch_ok b → (length (Batch.tasks b) < BATCH_SIZE_LIMIT)%nat →
  Task.category t = Batch.category b → Task.priority t = Batch.priority b →
  Task.status t = "pending" →
  batch_ok (Batch.set_tasks (Batch.tasks b ++ [tagged b t]) b).
Proof.
  intros [Hlen Hts] Hroom Hc Hp Hs. split.
  - cbn. rewrite length_app. cbn. lia.
  - cbn. apply Forall_app. split; [exact Hts|].
    apply Forall_singleton. by destruct t.
Qed.

Lemma packed_batch_ok (c : string) (p : Priority.t) (ts : list Task.t) :
  ∀ done cur ctr,
  Forall (λ t, Task.category t = c ∧ Task.priority t = p ∧ Task.status t = "pending") ts →
  Forall batch_ok done →
  (∀ b, cur = Some b → batch_ok b ∧ Batch.category b = c ∧ Batch.priority b = p) →
  Forall batch_ok (packed now c p ts done cur ctr).1.1.
Proof.
  induction ts as [|t ts IH]; intros done cur ctr Hts Hdone Hcur; cbn [packed].
  { cbn [fst]. apply Forall_app. split; [done|].
    destruct cur as [b|]; [apply Forall_singleton; by apply Hcur|apply Forall_nil_2]. }
  apply Forall_cons in Hts as [(Hc & Hp & Hs) Hts].
  destruct cur as [b|];
    [destruct (Nat.leb_spec BATCH_SIZE_LIMIT (length (Batch.tasks b))) as [Hfull|Hroom]|].
  - specialize (IH (done ++ [b])
      (Some (Batch.set_tasks
               (Batch.tasks (fresh_batch now c p (ctr + 1))
                ++ [tagged (fresh_batch now c p (ctr + 1)) t])
               (fresh_batch now c p (ctr + 1)))) (ctr + 1) Hts).
    destruct (packed _ _ _ _ _ _ _) as [[bs c'] sv]. apply IH.
    + apply Forall_app. split; [done|]. apply Forall_singleton. by apply Hcur.
    + intros ? [= <-]. split; [by apply batch_ok_first|done].
  - specialize (IH done (Some (Batch.set_tasks (Batch.tasks b ++ [tagged b t]) b)) ctr Hts).
    destruct (packed _ _ _ _ _ _ _) as [[bs c'] sv]. apply IH; [done|].
    destruct (Hcur b eq_refl) as (Hb & Hbc & Hbp).
    intros ? [= <-]. split; [|done]. apply batch_ok_more; congruence.
  - specialize (IH done
      (Some (Batch.set_tasks
               (Batch.tasks (fresh_batch now c p (ctr + 1))
                ++ [tagged (fresh_batch now c p (ctr + 1)) t])
               (fresh_batch now c p (ctr + 1)))) (ctr + 1) Hts).
    destruct (packed _ _ _ _ _ _ _) as [[bs c'] sv]. apply IH; [done|].
    intros ? [= <-]. split; [by apply batch_ok_first|done].
Qed.

Lemma save_all_history (d : QueueDatabase.t) (saved : list Task.t) :
  QueueDatabase.task_history (save_all d saved) = QueueDatabase.task_history d.
Proof. revert d. induction saved as [|t saved IH]; intros d; [done|]. cbn. by rewrite IH. Qed.

(** What one group adds, and what it leaves. *)
Definition group_frame (w w' : World) : Prop :=
  QueueDatabase.task_history (db w') = QueueDatabase.task_history (db w)
  ∧ _heap w' = _heap w ∧ _task_map w' = _task_map w ∧ files w' = files w.

Lemma batch_group_ok (p : Priority.t) (c : string) (bs : list Batch.t) (w : World) :
  Forall batch_ok bs →
  Forall batch_ok (BatchProcessor.batch_group now p c bs w).1
  ∧ group_frame w (BatchProcessor.batch_group now p c bs w).2.
Proof.
  intros Hbs. destruct (batch_group_spec now p c bs w) as (-> & _ & Hh & Hhp & Hm & Hf).
  split.
  - apply packed_batch_ok; [|done|done].
    apply Forall_forall. intros t (r & _ & -> & Hc & Hs & Hp)%group_tasks_inv.
    by rewrite row_to_task_category, row_to_task_priority, row_to_task_status.
  - split; [|done]. by rewrite Hh, save_all_history.
Qed.

Lemma for_categories_ok (p : Priority.t) (cs : list string) (bs : list Batch.t) (w : World) :
  Forall batch_ok bs →
  Forall batch_ok (BatchProcessor.for_categories now p cs bs w).1
  ∧ group_frame w (BatchProcessor.for_categories now p cs bs w).2.
Proof.
  revert bs w. induction cs as [|c cs IH]; intros bs w Hbs;
    cbn [BatchProcessor.for_categories].
  { by split. }
  unfold mbind, M_bind. destruct (batch_group_ok p c bs w Hbs) as [H1 (F1 & F2 & F3 & F4)].
  destruct (BatchProcessor.batch_group now p c bs w) as [bs1 w1]. cbn [fst snd] in *.
  destruct (IH bs1 w1 H1) as [H2 (G1 & G2 & G3 & G4)]. split; [exact H2|].
  split; [congruence|]. split; [congruence|]. split; congruence.
Qed.

Lemma for_priorities_ok (ps : list Priority.t) (bs : list Batch.t) (w : World) :
  Forall batch_ok bs →
  Forall batch_ok (BatchProcessor.for_priorities now ps bs w).1
  ∧ group_frame w (BatchProcessor.for_priorities now ps bs w).2.
Proof.
  revert bs w. induction ps as [|p ps IH]; intros bs w Hbs;
    cbn [BatchProcessor.for_priorities].
  { by split. }
  unfold mbind, M_bind.
  destruct (for_categories_ok p BatchProcessor.categories bs w Hbs)
    as [H1 (F1 & F2 & F3 & F4)].
  destruct (BatchProcessor.for_categories now p BatchProcessor.categories bs w)
    as [bs1 w1]. cbn [fst snd] in *.
  destruct (IH bs1 w1 H1) as [H2 (G1 & G2 & G3 & G4)]. split; [exact H2|].
  split; [congruence|]. split; [congruence|]. split; congruence.
Qed.

(** X17.  Whatever the store holds, every batch [create_batches] returns
    has between 1 and [BATCH_SIZE_LIMIT] tasks, all pending, of the
    category and the priority of the batch and tagged with its
    identifier; the call appends nothing to the history and leaves the
    heap, the index and the files as they are. *)
Theorem create_batches_shape (w : World) :
  Forall batch_ok (BatchProcessor.create_batches now w).1
  ∧ QueueDatabase.task_history (db (BatchProcessor.create_batches now w).2)
    = QueueDatabase.task_history (db w)
  ∧ _heap (BatchProcessor.create_batches now w).2 = _heap w
  ∧ _task_map (BatchProcessor.create_batches now w).2 = _task_map w
  ∧ files (BatchProcessor.create_batches now w).2 = files w.
Proof. apply for_priorities_ok. apply Forall_nil_2. Qed.

(** The sort of [get_next_batch]. *)
Lemma le_batch_total (a b : Batch.t) :
  Queries.le_batch a b = true ∨ Queries.le_batch b a = true.
Proof.
  unfold Queries.le_batch.
  rewrite !orb_true_iff, !andb_true_iff, !Z.ltb_lt, !Z.eqb_eq, !Z.leb_le. lia.
Qed.

Lemma le_batch_trans (a b c : Batch.t) :
  Queries.le_batch a b = true → Queries.le_batch b c = true → Queries.le_batch a c = true.
Proof.
  unfold Queries.le_batch.
  rewrite !orb_true_iff, !andb_true_iff, !Z.ltb_lt, !Z.eqb_eq, !Z.leb_le. lia.
Qed.

(** X18.  [get_next_batch] returns [None] exactly when [create_batches]
    finds nothing to batch; otherwise it returns one of the batches of
    [create_batches], and no batch of that call has a priority value below
    the one returned. *)
Theorem get_next_batch_spec (w : World) :
  let bs := (BatchProcessor.create_batches now w).1 in
  match (Queries.get_next_batch now w).1 with
  | None => bs = []
  | Some b =>
      b ∈ bs ∧ batch_ok b
      ∧ Forall (λ b', Priority.to_int (Batch.priority b)
                      <= Priority.to_int (Batch.priority b')) bs
  end.
Proof.
  cbn zeta. unfold Queries.get_next_batch. unfold mbind, M_bind.
  assert (Forall batch_ok (BatchProcessor.create_batches now w).1) as Hok
    by (apply for_priorities_ok; apply Forall_nil_2).
  destruct (BatchProcessor.create_batches now w) as [bs w1]. cbn [fst snd] in *.
  destruct bs as [|b0 bs0] eqn:Hbs; [done|]. rewrite <-Hbs in *.
  unfold mret, M_ret. cbn [fst].
  pose proof (order_by_sorted Queries.le_batch le_batch_total le_batch_trans bs) as Hsorted.
  pose proof (order_by_perm Queries.le_batch bs) as Hperm.
  destruct (order_by Queries.le_batch bs) as [|b sorted] eqn:Hs.
  { apply Permutation_nil_l in Hperm. subst. done. }
  cbn [head]. apply StronglySorted_inv in Hsorted as [_ Hb].
  assert (b ∈ bs) as Hin by (rewrite <-Hperm; apply list_elem_of_here).
  split; [exact Hin|]. split; [by apply (proj1 (Forall_forall _ _) Hok)|].
  rewrite <-Hperm. constructor; [lia|].
  eapply Forall_impl; [exact Hb|]. intros b'. unfold Queries.le_batch.
  rewrite orb_true_iff, andb_true_iff, Z.ltb_lt, Z.eqb_eq. lia.
Qed.
End BatchShape.

(** ** Dictionaries *)






Section TypedReaders.
Variables (data : gmap string pyval) (k : string).






End TypedReaders.




(** X20.  The round trip through a dictionary works once the priority is
    written in a spelling [from_string] accepts: for a task whose sort key
    is the one its priority and creation time give, [from_dict] of the
    dictionary of [to_dict], with ["priority"] replaced by such a spelling,
    returns the task, with [original_priority] filled in where it was
    [None]. *)
Theorem from_dict_to_dict_accepted_spelling (now : Z) (t : Task.t) (spelling : string) :
  Priority.from_string spelling = Ok (Task.priority t) →
  Task.sort_priority t = Priority.to_int (Task.priority t) →
  Task.sort_timestamp t = Task.neg_timestamp (Task.created_at t) →
  Task.from_dict now (<["priority" := PStr spelling]> (Task.to_dict t))
  = Ok (Task.__post_init__ t).
Proof.
  intros Hp Hsp Hst. unfold Task.from_dict.
  replace (Task.get_or (<["priority" := PStr spelling]> (Task.to_dict t)) "priority" (PStr "P2"))
    with (PStr spelling) by (unfold Task.get_or; by rewrite lookup_insert).
  cbn [Task.priority_from]. rewrite Hp. cbn [result_bind].
  unfold Task.get_or. rewrite !lookup_insert_ne by done.
  destruct t as [sp st id p d c s aa va ca ua sa coa op bc bi md rc mr deps tg].
  cbn [Task.sort_priority Task.priority Task.sort_timestamp Task.created_at] in Hsp, Hst.
  subst sp st.
  destruct aa, va, sa, coa, op, bi; vm_compute; reflexivity.
Qed.

Lemma from_dict_to_dict_accepted_spelling_witness :
  Task.from_dict 9 (<["priority" := PStr " medium "]> (Task.to_dict task_A)) = Ok task_A.
Proof.
  exact (from_dict_to_dict_accepted_spelling 9 task_A " medium "
           ltac:(by vm_compute) ltac:(by vm_compute) ltac:(by vm_compute)).
Defined.

(** ** Listing *)

Lemma slice_to_sublist {A} (n : Z) (l : list A) : slice_to n l `sublist_of` l.
Proof. unfold slice_to. destruct (0 <=? n); apply sublist_take. Qed.









(** ** The heap order *)

Section HeapOrder.
Context {T : Type} (lt : T → T → bool).
Hypothesis lt_asym : ∀ a b, lt a b = true → lt b a = false.
Hypothesis le_trans : ∀ a b c, lt b a = false → lt c b = false → lt c a = false.

Definition parent (i : nat) : nat := ((i - 1) / 2)%nat.

(** No entry is less than its parent. *)
Definition is_heap (h : list T) : Prop :=
  ∀ i x p, (0 < i)%nat → h !! i = Some x → h !! parent i = Some p → lt x p = false.

Lemma parent_lt (i : nat) : (0 < i)%nat → (parent i < i)%nat.
Proof. unfold parent. intros. apply Nat.Div0.div_lt_upper_bound. lia. Qed.

(** The heap with a hole at [pos] that [_siftdown] walks up: the entries
    away from the hole are in order, the children of the hole are not less
    than [newitem], nor than the parent of the hole. *)
Record hole_inv (H : list T) (newitem : T) (pos : nat) : Prop := {
  hole_away : ∀ i x p, (0 < i)%nat → i ≠ pos → parent i ≠ pos →
    H !! i = Some x → H !! parent i = Some p → lt x p = false;
  hole_children : ∀ c x, (0 < c)%nat → parent c = pos →
    H !! c = Some x → lt x newitem = false;
  hole_grandparent : ∀ c x g, (0 < pos)%nat → (0 < c)%nat → parent c = pos →
    H !! c = Some x → H !! parent pos = Some g → lt x g = false
}.

Lemma hole_fill (H : list T) (newitem : T) (pos : nat) :
  hole_inv H newitem pos →
  (∀ p, (0 < pos)%nat → H !! parent pos = Some p → lt newitem p = false) →
  is_heap (<[pos := newitem]> H).
Proof.
  intros [A1 A2 _] C i x p Hi Hx Hp.
  apply list_lookup_insert_Some in Hx as [(-> & <- & _)|(Hne & Hx)];
    apply list_lookup_insert_Some in Hp as [(Hpp & <- & _)|(Hne' & Hp)].
  - pose proof (parent_lt i Hi). lia.
  - by apply C.
  - by apply (A2 i).
  - by apply (A1 i).
Qed.

Lemma _siftdown_loop_heap (fuel : nat) :
  ∀ (H : list T) (newitem : T) (pos : nat),
  (pos ≤ fuel)%nat → (pos < length H)%nat → hole_inv H newitem pos →
  is_heap (heapq._siftdown_loop lt fuel H newitem 0 pos).
Proof.
  induction fuel as [|fuel IH]; intros H newitem pos Hfuel Hlen Hinv;
    cbn [heapq._siftdown_loop].
  { apply hole_fill; [done|]. intros; lia. }
  destruct (Nat.ltb_spec 0 pos) as [Hpos|Hpos]; [|apply hole_fill; [done|intros; lia]].
  fold (parent pos). pose proof (parent_lt pos Hpos) as Hpp.
  destruct (H !! parent pos) as [P|] eqn:HP; [|apply hole_fill; [done|intros p _ Hp; congruence]].
  destruct (lt newitem P) eqn:Hlt;
    [|apply hole_fill; [done|intros p _ Hp; congruence]].
  destruct Hinv as [A1 A2 B].
  apply IH; [lia|rewrite length_insert; lia|].
  split.
  - intros i x p Hi Hne Hpne Hx Hp.
    apply list_lookup_insert_Some in Hx as [(<- & <- & _)|(Hipos & Hx)]; [done|].
    apply list_lookup_insert_Some in Hp as [(Hpi & <- & _)|(Hpipos & Hp)].
    + by apply (B i).
    + apply (A1 i); done.
  - intros c x Hc Hpc Hx.
    apply list_lookup_insert_Some in Hx as [(<- & <- & _)|(Hcpos & Hx)].
    + by apply lt_asym.
    + apply (le_trans newitem P x); [by apply lt_asym|].
      apply (A1 c); [done|done|lia|done|by rewrite Hpc].
  - intros c x g Hp0 Hc Hpc Hx Hg.
    rewrite list_lookup_insert_ne in Hg by (pose proof (parent_lt _ Hp0); lia).
    assert (lt P g = false) as HPg.
    { apply (A1 (parent pos)); [done|lia|pose proof (parent_lt _ Hp0); lia|done|done]. }
    apply list_lookup_insert_Some in Hx as [(<- & <- & _)|(Hcpos & Hx)]; [done|].
    apply (le_trans g P x); [done|].
    apply (A1 c); [done|done|lia|done|by rewrite Hpc].
Qed.

Lemma heappush_heap (h : list T) (x : T) :
  is_heap h → is_heap (heapq.heappush lt h x).
Proof.
  intros Hh. unfold heapq.heappush, heapq._siftdown.
  rewrite length_app. cbn [length].
  replace (length h + 1 - 1)%nat with (length h) by lia.
  rewrite lookup_app_r by lia. rewrite Nat.sub_diag. cbn [lookup list_lookup].
  apply _siftdown_loop_heap; [lia|rewrite length_app; cbn; lia|].
  assert (∀ c y, (0 < c)%nat → parent c = length h → (h ++ [x]) !! c = Some y → False)
    as Hleaf.
  { intros c y Hc Hpc Hy. apply lookup_lt_Some in Hy. rewrite length_app in Hy. cbn in Hy.
    pose proof (parent_lt c Hc). lia. }
  split.
  - intros i y p Hi Hne Hpne Hy Hp.
    assert (i < length h)%nat as Hlt.
    { apply lookup_lt_Some in Hy. rewrite length_app in Hy. cbn in Hy. lia. }
    pose proof (parent_lt i Hi).
    rewrite lookup_app_l in Hy, Hp by lia. by apply (Hh i).
  - intros c y Hc Hpc Hy. by destruct (Hleaf c y).
  - intros c y g _ Hc Hpc Hy _. by destruct (Hleaf c y).
Qed.

Lemma heap_root_least (h : list T) (r : T) :
  is_heap h → h !! 0%nat = Some r → ∀ i x, h !! i = Some x → lt x r = false.
Proof.
  intros Hh Hr i. induction i as [i IH] using lt_wf_ind. intros x Hx.
  destruct (decide (i = 0%nat)) as [->|Hi].
  { assert (x = r) as -> by congruence.
    destruct (lt r r) eqn:E; [by rewrite (lt_asym _ _ E) in E|done]. }
  assert (0 < i)%nat as Hpos by lia. pose proof (parent_lt i Hpos) as Hp.
  destruct (lookup_lt_is_Some_2 h (parent i)) as [p Hpp].
  { apply lookup_lt_Some in Hx. lia. }
  apply (le_trans r p x); [by apply (IH (parent i))|by apply (Hh i)].
Qed.

End HeapOrder.

Lemma Task_lt_asym (a b : Task.t) : Task.lt a b = true → Task.lt b a = false.
Proof.
  unfold Task.lt. intros H. apply not_true_iff_false. revert H.
  rewrite !orb_true_iff, !andb_true_iff, !Z.ltb_lt, !Z.eqb_eq. lia.
Qed.

Lemma Task_le_trans (a b c : Task.t) :
  Task.lt b a = false → Task.lt c b = false → Task.lt c a = false.
Proof.
  unfold Task.lt. intros H1%not_true_iff_false H2%not_true_iff_false.
  apply not_true_iff_false. revert H1 H2.
  rewrite !orb_true_iff, !andb_true_iff, !Z.ltb_lt, !Z.eqb_eq. lia.
Qed.

(** ** A queue filled by [add] *)

(** The task as [add] stores it: pending, updated at the call. *)
Definition as_added (a : Z * Task.t) : Task.t :=
  Task.set_updated_at a.1 (Task.set_status TaskStatus.PENDING a.2).

(** [for (now, task) in adds: queue.add(task)] *)
Definition add_all (adds : list (Z * Task.t)) (w : World) : World :=
  foldl (λ w a, (PriorityQueue.add a.1 a.2 w).2) w adds.

Lemma add_heap (now : Z) (task : Task.t) (w : World) :
  _heap (PriorityQueue.add now task w).2
  = heapq.heappush Task.lt (_heap w) (as_added (now, task)).
Proof. reflexivity. Qed.

Lemma add_other (now : Z) (task : Task.t) (w : World) (id : string) :
  Task.task_id task ≠ id →
  QueueDatabase.get_task id (db (PriorityQueue.add now task w).2)
  = QueueDatabase.get_task id (db w)
  ∧ PyDict.get id (_task_map (PriorityQueue.add now task w).2)
    = PyDict.get id (_task_map w).
Proof.
  intros Hne. unfold PriorityQueue.add, PriorityQueue.map_set, PriorityQueue.heap_push.
  unfold_M. cbn [fst snd db _task_map _heap set_task_map set_heap].
  assert (Task.task_id (Task.set_updated_at now (Task.set_status TaskStatus.PENDING task))
          = Task.task_id task) as Hid by by destruct task.
  rewrite Hid. split.
  - rewrite get_task_record_history. apply get_task_save_ne. by rewrite Hid.
  - by apply pydict_get_set_ne.
Qed.

Lemma add_all_inv (adds : list (Z * Task.t)) :
  NoDup ((λ a, Task.task_id a.2) <$> adds) →
  is_heap Task.lt (_heap (add_all adds initial_world))
  ∧ _heap (add_all adds initial_world) ≡ₚ as_added <$> adds
  ∧ ∀ a, a ∈ adds →
      QueueDatabase.get_task (Task.task_id a.2) (db (add_all adds initial_world))
      = Some (QueueDatabase._row_to_task (QueueDatabase.row_of_task (as_added a)))
      ∧ PyDict.contains (Task.task_id a.2) (_task_map (add_all adds initial_world)) = true.
Proof.
  induction adds as [|[now t] adds IH] using rev_ind; intros Hnd.
  { split; [by intros i x p _ ?|]. split; [done|]. by intros a ?%elem_of_nil. }
  rewrite fmap_app in Hnd. apply NoDup_app in Hnd as (Hnd & Hfresh & _).
  destruct (IH Hnd) as (Hheap & Hperm & Hstore).
  unfold add_all in *. rewrite foldl_app. cbn [foldl fst snd].
  set (w := foldl _ initial_world adds) in *.
  destruct (add_effect now t w) as (_ & Hget & _ & _ & Hmap & _ & _).
  cbn zeta in Hget, Hmap.
  split; [|split].
  - rewrite add_heap. apply heappush_heap; [apply Task_lt_asym|apply Task_le_trans|done].
  - rewrite add_heap, heappush_perm, fmap_app, Hperm. cbn [fmap list_fmap].
    by rewrite Permutation_cons_append.
  - intros a [Ha|Ha]%elem_of_app; [|apply list_elem_of_singleton in Ha as ->].
    + assert (Task.task_id t ≠ Task.task_id a.2) as Hne.
      { intros Heq. apply (Hfresh (Task.task_id a.2)).
        * apply list_elem_of_fmap. by exists a.
        * cbn. rewrite <-Heq. apply list_elem_of_here. }
      destruct (add_other now t w _ Hne) as [-> Hm]. destruct (Hstore a Ha) as [Hg Hc].
      split; [exact Hg|]. apply pydict_contains_get. rewrite Hm.
      by apply pydict_contains_get.
    + cbn [snd fst]. split; [exact Hget|]. apply pydict_contains_get. by rewrite Hmap.
Qed.

Lemma peek_head (w : World) (r c : Task.t) (rest : list Task.t) :
  _heap w = r :: rest →
  PyDict.contains (Task.task_id r) (_task_map w) = true →
  QueueDatabase.get_task (Task.task_id r) (db w) = Some c →
  Task.status c = TaskStatus.PENDING →
  (PriorityQueue.peek w).1 = Some c.
Proof.
  intros Hh Hc Hg Hs. unfold PriorityQueue.peek. rewrite Hh.
  cbn [length PriorityQueue.peek_loop]. unfold_M. unfold get_world.
  rewrite Hh, Hc. unfold db_query. rewrite Hg.
  by rewrite decide_True.
Qed.

(** X22.  In a queue filled by [add] on an empty store with tasks of
    different ids, each created at an instant whose float timestamp is
    exact to the microsecond (before the year 2242) and each with the sort
    key its priority and creation time give, [peek] returns one of the
    added tasks, as stored; no added task has a priority value below the
    one returned, and of the tasks of that priority none was created after
    it: within a priority tier the queue hands out the newest task
    first. *)
Theorem peek_after_adds (adds : list (Z * Task.t)) :
  adds ≠ [] →
  NoDup ((λ a, Task.task_id a.2) <$> adds) →
  Forall (λ a, Task.exact_instant (Task.created_at a.2)
               ∧ Task.sort_priority a.2 = Priority.to_int (Task.priority a.2)
               ∧ Task.sort_timestamp a.2 = Task.neg_timestamp (Task.created_at a.2)) adds →
  ∃ a, a ∈ adds
    ∧ (PriorityQueue.peek (add_all adds initial_world)).1
      = Some (QueueDatabase._row_to_task (QueueDatabase.row_of_task (as_added a)))
    ∧ Forall (λ b, Priority.to_int (Task.priority a.2) <= Priority.to_int (Task.priority b.2)
                   ∧ (Task.priority b.2 = Task.priority a.2 →
                      Task.created_at b.2 <= Task.created_at a.2)) adds.
Proof.
  intros Hne Hnd Hkeys. destruct (add_all_inv adds Hnd) as (Hheap & Hperm & Hstore).
  destruct (_heap (add_all adds initial_world)) as [|r rest] eqn:Hh.
  { apply Permutation_nil_l in Hperm. symmetry in Hperm.
    apply fmap_nil_inv in Hperm. done. }
  assert (r ∈ as_added <$> adds) as Hr by (rewrite <-Hperm; apply list_elem_of_here).
  apply list_elem_of_fmap in Hr as (a & -> & Ha).
  assert (Task.task_id (as_added a) = Task.task_id a.2) as Hid by by destruct a as [? []].
  destruct (Hstore a Ha) as [Hg Hc].
  exists a. split; [exact Ha|]. split.
  - eapply peek_head; [exact Hh|by rewrite Hid|by rewrite Hid|].
    rewrite row_to_task_status. by destruct a as [? []].
  - apply Forall_forall. intros b Hb.
    assert (as_added b ∈ as_added a :: rest) as Hin.
    { rewrite Hperm. apply list_elem_of_fmap. by exists b. }
    apply list_elem_of_lookup in Hin as [i Hi].
    pose proof (heap_root_least Task.lt Task_lt_asym Task_le_trans _ _ Hheap eq_refl i _ Hi)
      as Hle.
    pose proof (proj1 (Forall_forall _ _) Hkeys a Ha) as (_ & Ha1 & Ha2).
    pose proof (proj1 (Forall_forall _ _) Hkeys b Hb) as (_ & Hb1 & Hb2).
    apply not_true_iff_false in Hle. revert Hle. unfold Task.lt.
    assert (Task.sort_priority (as_added a) = Task.sort_priority a.2
            ∧ Task.sort_timestamp (as_added a) = Task.sort_timestamp a.2) as [-> ->]
      by by destruct a as [? []].
    assert (Task.sort_priority (as_added b) = Task.sort_priority b.2
            ∧ Task.sort_timestamp (as_added b) = Task.sort_timestamp b.2) as [-> ->]
      by by destruct b as [? []].
    rewrite Ha1, Ha2, Hb1, Hb2. unfold Task.neg_timestamp.
    rewrite orb_true_iff, andb_true_iff, !Z.ltb_lt, Z.eqb_eq. intros Hle.
    split; [lia|]. intros Heq. rewrite Heq in Hle. lia.
Qed.

Definition adds_three : list (Z * Task.t) :=
  [ (100, Task.create 100 "old" "first" Priority.P2_MEDIUM TaskCategory.BACKEND);
    (200, Task.create 200 "low" "second" Priority.P3_LOW TaskCategory.BACKEND);
    (300, Task.create 300 "new" "third" Priority.P2_MEDIUM TaskCategory.BACKEND) ].

Lemma peek_after_adds_witness :
  ∃ a, a ∈ adds_three
    ∧ (PriorityQueue.peek (add_all adds_three initial_world)).1
      = Some (QueueDatabase._row_to_task (QueueDatabase.row_of_task (as_added a)))
    ∧ Forall (λ b, Priority.to_int (Task.priority a.2) <= Priority.to_int (Task.priority b.2)
                   ∧ (Task.priority b.2 = Task.priority a.2 →
                      Task.created_at b.2 <= Task.created_at a.2)) adds_three.
Proof.
  apply peek_after_adds.
  - done.
  - apply (bool_decide_unpack _). by vm_compute.
  - repeat constructor; by vm_compute.
Defined.
